(** * TEMOA run configuration: lexer, validator, scenario queues and
      the database-to-DAT exporter

    A shallow embedding of [temoa_model/temoa_config.py]:

    - [Py]       the Python built-ins the module relies on ([str.split],
                 [str.replace], [int], [float], [os.path.splitext],
                 [os.path.abspath]);
    - [Re]       the fragment of Python's backtracking regular expressions
                 that the token rules are written in;
    - [Config]   the [TemoaConfig] object, its token rules, the PLY token
                 loop, the checks and the queues of [build] and the
                 [next_*] operations;
    - [Exporter] [db_2_dat] with [query_table] and the myopic clean-up;
    - [Conversion] and [Building] the loop that converts the inputs and
                 [build] as a whole.

    Text is modelled as [string] (8-bit characters).  The character classes
    [\s], [\w] and [\d] are those of Python restricted to code points below
    128; larger bytes belong to none of them, so that the classes are
    those of the code on ASCII text ([Py.is_ascii]). *)

From stdpp Require Import gmap strings list fin_maps pretty.
From Stdlib Require Import Ascii String ZArith Lia.

Open Scope string_scope.

(** String concatenation computes under [simpl] in this file. *)
#[local] Arguments String.append !_ _ / : simpl nomatch.

(** ** Exceptions *)

(** The exceptions the modelled code can raise.  [Exception] carries the
    message given to [raise Exception(msg)]. *)
Inductive exn : Type :=
| TypeError
| IndexError
| ValueError
| AttributeError
| OperationalError (msg : string)
| Exception (msg : string).

Inductive result (A : Type) : Type :=
| Ok (a : A)
| Raise (e : exn).
Arguments Ok {A} a.
Arguments Raise {A} e.

#[global] Instance result_ret : MRet result := fun _ a => Ok a.
#[global] Instance result_bind : MBind result := fun _ _ k m =>
  match m with
  | Ok a => k a
  | Raise e => Raise e
  end.

(** ** Python built-ins *)

Module Py.

Definition code (c : ascii) : nat := nat_of_ascii c.

Definition between (lo hi : nat) (c : ascii) : bool :=
  (lo <=? code c)%nat && (code c <=? hi)%nat.

(** The characters of ASCII.  On them the classes [\d], [\w] and [\s]
    below are those of a pattern on a byte string and on a text alike;
    beyond them a pattern on a text (Python 3) also takes the letters,
    digits and spaces of Unicode, which the classes below leave out. *)
Definition is_ascii (c : ascii) : bool := (code c <? 128)%nat.

(** [\d], on ASCII *)
Definition is_digit (c : ascii) : bool := between 48 57 c.

(** [\w], on ASCII: letters, digits and the underscore. *)
Definition is_word (c : ascii) : bool :=
  between 97 122 c || between 65 90 c || is_digit c || (code c =? 95)%nat.

(** [\s], and the separators of [str.split()], on ASCII: TAB, LF, VT,
    FF, CR, FS, GS, RS, US and the space. *)
Definition is_space (c : ascii) : bool :=
  between 9 13 c || between 28 32 c.

Definition LF : ascii := ascii_of_nat 10.
Definition CR : ascii := ascii_of_nat 13.
Definition TAB : ascii := ascii_of_nat 9.
Definition DQUOTE : ascii := ascii_of_nat 34.

Definition chr (c : ascii) : string := String c EmptyString.

(** [s.replace(a, b)] for one-character [a] and [b]. *)
Fixpoint replace (a b : ascii) (s : string) : string :=
  match s with
  | EmptyString => EmptyString
  | String c s' =>
      String (if Ascii.eqb c a then b else c) (replace a b s')
  end.

(** [s.split()]: the maximal runs of non-space characters.  [cur] is the
    word being read. *)
Fixpoint split_go (cur : string) (s : string) : list string :=
  match s with
  | EmptyString => if String.eqb cur "" then [] else [cur]
  | String c s' =>
      if is_space c then
        if String.eqb cur "" then split_go "" s'
        else cur :: split_go "" s'
      else split_go (cur ++ chr c) s'
  end.

Definition split (s : string) : list string := split_go "" s.

(** [s.split(sep)] for a one-character separator: empty pieces are
    kept. *)
Fixpoint split_on_go (sep : ascii) (cur : string) (s : string)
  : list string :=
  match s with
  | EmptyString => [cur]
  | String c s' =>
      if Ascii.eqb c sep then cur :: split_on_go sep "" s'
      else split_on_go sep (cur ++ chr c) s'
  end.

Definition split_on (sep : ascii) (s : string) : list string :=
  split_on_go sep "" s.

(** [l[i]] *)
Definition index {A} (l : list A) (i : nat) : result A :=
  match l !! i with
  | Some x => Ok x
  | None => Raise IndexError
  end.

(** [int(s)] for a string of ASCII decimal digits of which there are no
    more than the interpreter accepts: from version 3.11 on, CPython
    raises [ValueError] for more than [int_max_str_digits] digits. *)
Definition int_max_str_digits : nat := 4300.

Definition digit_val (c : ascii) : nat := code c - 48.

Fixpoint int_go (acc : nat) (s : string) : result nat :=
  match s with
  | EmptyString => Ok acc
  | String c s' =>
      if is_digit c then int_go (10 * acc + digit_val c) s'
      else Raise ValueError
  end.

Definition int (s : string) : result nat :=
  match s with
  | EmptyString => Raise ValueError
  | _ => int_go 0 s
  end.

(** [float(s)] for a string of digits and dots, the only strings the
    token rules pass to it.  The conversion succeeds when the string has
    a digit and at most one dot; the value is kept as its literal. *)
Record pyfloat : Type := Float { literal : string }.

Fixpoint count_char (a : ascii) (s : string) : nat :=
  match s with
  | EmptyString => 0
  | String c s' => (if Ascii.eqb c a then 1 else 0) + count_char a s'
  end.

Fixpoint forallb_str (p : ascii -> bool) (s : string) : bool :=
  match s with
  | EmptyString => true
  | String c s' => p c && forallb_str p s'
  end.

Fixpoint existsb_str (p : ascii -> bool) (s : string) : bool :=
  match s with
  | EmptyString => false
  | String c s' => p c || existsb_str p s'
  end.

Definition float (s : string) : result pyfloat :=
  if forallb_str (fun c => is_digit c || Ascii.eqb c ".") s
     && existsb_str is_digit s
     && (count_char "." s <=? 1)%nat
  then Ok (Float s)
  else Raise ValueError.

(** [str(n)] for a non-negative integer. *)
Definition str_nat (n : nat) : string := pretty n.

(** [s.endswith(suffix)] *)
Fixpoint endswith (s suffix : string) : bool :=
  String.eqb s suffix ||
  match s with
  | EmptyString => false
  | String _ s' => endswith s' suffix
  end.

Definition startswith (s pre : string) : bool := String.prefix pre s.

(** Slices [s[:n]] and [s[n:]]. *)
Fixpoint str_take (n : nat) (s : string) : string :=
  match n, s with
  | S n', String c s' => String c (str_take n' s')
  | _, _ => EmptyString
  end.

Fixpoint str_drop (n : nat) (s : string) : string :=
  match n, s with
  | S n', String _ s' => str_drop n' s'
  | _, _ => s
  end.

(** [s.rfind(c)]: the last index of [c], or -1. *)
Fixpoint rfind_go (c : ascii) (i last : Z) (s : string) : Z :=
  match s with
  | EmptyString => last
  | String d s' => rfind_go c (i + 1) (if Ascii.eqb d c then i else last) s'
  end.

Definition rfind (c : ascii) (s : string) : Z := rfind_go c 0 (-1) s.

(** *** [os.path] (POSIX flavour) *)

Definition sep : string := "/".

(** The [while] loop of [genericpath._splitext]: is there a character
    other than a dot among the [n] characters from [filenameIndex]? *)
Fixpoint splitext_scan (p : string) (filenameIndex n : nat) : bool :=
  match n with
  | O => false
  | S n' =>
      if negb (String.eqb (str_take 1 (str_drop filenameIndex p)) ".")
      then true
      else splitext_scan p (S filenameIndex) n'
  end.

(** [os.path.splitext(p)] *)
Definition splitext (p : string) : string * string :=
  let sepIndex := rfind "/" p in
  let dotIndex := rfind "." p in
  if (sepIndex <? dotIndex)%Z
     && splitext_scan p (Z.to_nat (sepIndex + 1))
          (Z.to_nat (dotIndex - (sepIndex + 1)))
  then (str_take (Z.to_nat dotIndex) p, str_drop (Z.to_nat dotIndex) p)
  else (p, "").

(** [os.path.join(a, b)] *)
Definition join (a b : string) : string :=
  if startswith b "/" then b
  else if String.eqb a "" || endswith a "/" then a ++ b
  else a ++ "/" ++ b.

(** The loop of [posixpath.normpath] over the components. *)
Fixpoint normpath_comps (initial_slashes : nat) (comps new_comps : list string)
  : list string :=
  match comps with
  | [] => new_comps
  | comp :: rest =>
      if String.eqb comp "" || String.eqb comp "." then
        normpath_comps initial_slashes rest new_comps
      else if negb (String.eqb comp "..")
              || ((initial_slashes =? 0)%nat && bool_decide (new_comps = []))
              || bool_decide (last new_comps = Some "..")
      then normpath_comps initial_slashes rest (new_comps ++ [comp])
      else normpath_comps initial_slashes rest (removelast new_comps)
  end.

Fixpoint repeat_str (n : nat) (s : string) : string :=
  match n with
  | O => ""
  | S n' => s ++ repeat_str n' s
  end.

(** [os.path.normpath(path)] *)
Definition normpath (path : string) : string :=
  if String.eqb path "" then "."
  else
    let initial_slashes :=
      if startswith path "/" then
        if startswith path "//" && negb (startswith path "///") then 2 else 1
      else 0 in
    let comps := normpath_comps initial_slashes (split_on "/" path) [] in
    let path' := repeat_str initial_slashes "/" ++ String.concat "/" comps in
    if String.eqb path' "" then "." else path'.

(** [os.path.abspath(path)], with [cwd] the result of [os.getcwd()]. *)
Definition abspath (cwd path : string) : string :=
  normpath (if startswith path "/" then path else join cwd path).

End Py.

(** ** Regular expressions *)

(** The token rules use literals, greedy repetition of a character class
  ([[..]+], [.*]) or of a literal ([(\r\n)+]), alternation,
  concatenation and the word boundary [\b].  [rmatch] is Python's
  backtracking matcher on that fragment, in continuation-passing style:
  [rmatch r prev s k] matches [r] at the start of [s], where [prev] is
  the character before that position, and hands the position after the
  match to [k]; when [k] fails the next way of matching [r] is tried,
  longest repetition first and left alternative first. *)

Module Re.

Inductive regex : Type :=
| Lit (l : string)
| Plus (p : ascii -> bool)
| Star (p : ascii -> bool)
| PlusLit (l : string)
| Alt (r1 r2 : regex)
| Seq (r1 r2 : regex)
| WordB.

Definition cont : Type := option ascii -> string -> option string.

Fixpoint lit (l : string) (prev : option ascii) (s : string) (k : cont)
  : option string :=
  match l with
  | EmptyString => k prev s
  | String c l' =>
      match s with
      | String d s' => if Ascii.eqb c d then lit l' (Some d) s' k else None
      | EmptyString => None
      end
  end.

Fixpoint plus (p : ascii -> bool) (s : string) (k : cont) : option string :=
  match s with
  | String c s' =>
      if p c then
        match plus p s' k with
        | Some out => Some out
        | None => k (Some c) s'
        end
      else None
  | EmptyString => None
  end.

Definition star (p : ascii -> bool) (prev : option ascii) (s : string)
  (k : cont) : option string :=
  match plus p s k with
  | Some out => Some out
  | None => k prev s
  end.

(** [s] without its prefix [l], when it has that prefix. *)
Fixpoint strip (l s : string) : option string :=
  match l, s with
  | EmptyString, _ => Some s
  | String c l', String d s' => if Ascii.eqb c d then strip l' s' else None
  | String _ _, EmptyString => None
  end.

Fixpoint last_char (prev : option ascii) (w : string) : option ascii :=
  match w with
  | EmptyString => prev
  | String c w' => last_char (Some c) w'
  end.

(** [(l)+] for a non-empty literal; [fuel] bounds the number of copies
    and [length s] is always enough. *)
Fixpoint pluslit (fuel : nat) (l : string) (s : string) (k : cont)
  : option string :=
  match fuel with
  | O => None
  | S fuel' =>
      match strip l s with
      | None => None
      | Some s' =>
          match pluslit fuel' l s' k with
          | Some out => Some out
          | None => k (last_char None l) s'
          end
      end
  end.

Definition is_word_opt (c : option ascii) : bool :=
  match c with
  | Some c => Py.is_word c
  | None => false
  end.

Definition head (s : string) : option ascii :=
  match s with
  | String c _ => Some c
  | EmptyString => None
  end.

(** [\b]: exactly one of the two neighbours is a word character. *)
Definition at_boundary (prev : option ascii) (s : string) : bool :=
  xorb (is_word_opt prev) (is_word_opt (head s)).

Fixpoint rmatch (r : regex) (prev : option ascii) (s : string) (k : cont)
  : option string :=
  match r with
  | Lit l => lit l prev s k
  | Plus p => plus p s k
  | Star p => star p prev s k
  | PlusLit l => pluslit (String.length s) l s k
  | Alt r1 r2 =>
      match rmatch r1 prev s k with
      | Some out => Some out
      | None => rmatch r2 prev s k
      end
  | Seq r1 r2 => rmatch r1 prev s (fun prev' s' => rmatch r2 prev' s' k)
  | WordB => if at_boundary prev s then k prev s else None
  end.

(** [re.match]: the text left after the match, if there is one. *)
Definition match_ (r : regex) (prev : option ascii) (s : string)
  : option string :=
  rmatch r prev s (fun _ rest => Some rest).

(** PLY refuses a rule whose expression matches the empty string;
    [nonnull r] is a sufficient test that [r] does not. *)
Fixpoint nonnull (r : regex) : bool :=
  match r with
  | Lit l => negb (String.eqb l "")
  | Plus _ => true
  | Star _ => false
  | PlusLit l => negb (String.eqb l "")
  | Alt r1 r2 => nonnull r1 && nonnull r2
  | Seq r1 r2 => nonnull r1 || nonnull r2
  | WordB => false
  end.

(** The words of [r], without the context condition of [\b]. *)
Inductive lang : regex -> string -> Prop :=
| lang_lit l : lang (Lit l) l
| lang_plus p w : w <> "" -> Py.forallb_str p w = true -> lang (Plus p) w
| lang_star p w : Py.forallb_str p w = true -> lang (Star p) w
| lang_pluslit_one l : lang (PlusLit l) l
| lang_pluslit_more l w : lang (PlusLit l) w -> lang (PlusLit l) (l ++ w)
| lang_alt_l r1 r2 w : lang r1 w -> lang (Alt r1 r2) w
| lang_alt_r r1 r2 w : lang r2 w -> lang (Alt r1 r2) w
| lang_seq r1 r2 w1 w2 : lang r1 w1 -> lang r2 w2 -> lang (Seq r1 r2) (w1 ++ w2)
| lang_wordb : lang WordB "".

(** [r1 r2 ... rn] and [(r1|r2|...|rn)]. *)
Fixpoint cat (rs : list regex) : regex :=
  match rs with
  | [] => Lit ""
  | [r] => r
  | r :: rs' => Seq r (cat rs')
  end.

Fixpoint alts (rs : list regex) : regex :=
  match rs with
  | [] => Plus (fun _ => false)
  | [r] => r
  | r :: rs' => Alt r (alts rs')
  end.

End Re.


(** ** The configuration object and its lexer *)

Module Config.

Import Re.

(** One entry of [self.__error]: the dictionary with keys ['line'],
    ['index'] (two-element lists: first and last) and ['value']. *)
Record ErrorSpan : Type := {
  line : nat * nat;
  index : nat * nat;
  value : string
}.

Record TemoaConfig : Type := {
  __error : list ErrorSpan;
  __mga_todo : list string;
  __mga_done : list (option string);
  __moo_todo : list string;
  __moo_done : list (option string);
  __mgpa_todo : list string;
  __mgpa_done : list (option string);
  file_location : option string;
  dot_dat : list string;
  output : option string;
  scenario : option string;
  saveEXCEL : bool;
  myopic : bool;
  myopic_periods : nat;
  KeepMyopicDBs : bool;
  saveDUALS : bool;
  saveTEXTFILE : bool;
  how_to_cite : option bool;
  version : bool;
  neos : bool;
  method : option string;
  threads : option string;
  tee : bool;
  keepPyomoLP : bool;
  mga_slack : option Py.pyfloat;
  mga_iter : option nat;
  mga_method : option string;
  moo_f1 : option string;
  moo_f2 : option string;
  moo_c : option Py.pyfloat;
  moo_ncaps : option nat;
  mgpa_f1 : option string;
  mgpa_f2 : option string;
  mgpa_c : option Py.pyfloat;
  mgpa_ncaps : option nat;
  mgpa_slack1 : option Py.pyfloat;
  mgpa_slack2 : option Py.pyfloat;
  mgpa_iter : option nat;
  mgpa_method : option string;
  path_to_data : string;
  path_to_logs : string;
  abort_temoa : bool;
  solver : option string
}.

(** [__init__]: [data_files] is the data directory derived from the
    location of the module and [d_solver] the optional keyword argument.
    The attributes kept for the former argument parser ([graph_format],
    [show_capacity], [graph_type], [use_splines]) and [path_to_lp_files] and
    [generateSolverLP], which nothing in the module assigns again, are left
    out. *)
Definition init (data_files : string) (d_solver : option string)
  : TemoaConfig :=
  {| __error := [];
     __mga_todo := [];
     __mga_done := [];
     __moo_todo := [];
     __moo_done := [];
     __mgpa_todo := [];
     __mgpa_done := [];
     file_location := None;
     dot_dat := [];
     output := None;
     scenario := None;
     saveEXCEL := false;
     myopic := false;
     myopic_periods := 0;
     KeepMyopicDBs := false;
     saveDUALS := false;
     saveTEXTFILE := false;
     how_to_cite := None;
     version := false;
     neos := false;
     method := None;
     threads := None;
     tee := false;
     keepPyomoLP := false;
     mga_slack := None;
     mga_iter := None;
     mga_method := None;
     moo_f1 := None;
     moo_f2 := None;
     moo_c := None;
     moo_ncaps := None;
     mgpa_f1 := None;
     mgpa_f2 := None;
     mgpa_c := None;
     mgpa_ncaps := None;
     mgpa_slack1 := None;
     mgpa_slack2 := None;
     mgpa_iter := None;
     mgpa_method := None;
     path_to_data := data_files;
     path_to_logs := (data_files ++ Py.sep ++ "debug_logs");
     abort_temoa := false;
     solver := d_solver |}.

Definition eta (c : TemoaConfig) : TemoaConfig :=
  Build_TemoaConfig (__error c) (__mga_todo c) (__mga_done c) (__moo_todo c)
    (__moo_done c) (__mgpa_todo c) (__mgpa_done c) (file_location c)
    (dot_dat c) (output c) (scenario c) (saveEXCEL c) (myopic c)
    (myopic_periods c) (KeepMyopicDBs c) (saveDUALS c) (saveTEXTFILE c)
    (how_to_cite c) (version c) (neos c) (method c) (threads c) (tee c)
    (keepPyomoLP c) (mga_slack c) (mga_iter c) (mga_method c) (moo_f1 c)
    (moo_f2 c) (moo_c c) (moo_ncaps c) (mgpa_f1 c) (mgpa_f2 c) (mgpa_c c)
    (mgpa_ncaps c) (mgpa_slack1 c) (mgpa_slack2 c) (mgpa_iter c)
    (mgpa_method c) (path_to_data c) (path_to_logs c) (abort_temoa c)
    (solver c).

(** Attribute assignment [self.x = v]: the record [c] with the field read by
    [proj] replaced by [v]. *)
Ltac setter proj :=
  let v := fresh "v" in
  let c := fresh "c" in
  intros v c;
  let e := eval cbv beta delta [eta] in (eta c) in
  match eval pattern (proj c) in e with
  | ?f _ => let t := eval cbv beta in (f v) in exact t
  end.

Definition set_error : list ErrorSpan -> TemoaConfig -> TemoaConfig :=
  ltac:(setter __error).
Definition set_mga_todo : list string -> TemoaConfig -> TemoaConfig :=
  ltac:(setter __mga_todo).
Definition set_mga_done : list (option string) -> TemoaConfig -> TemoaConfig :=
  ltac:(setter __mga_done).
Definition set_moo_todo : list string -> TemoaConfig -> TemoaConfig :=
  ltac:(setter __moo_todo).
Definition set_moo_done : list (option string) -> TemoaConfig -> TemoaConfig :=
  ltac:(setter __moo_done).
Definition set_mgpa_todo : list string -> TemoaConfig -> TemoaConfig :=
  ltac:(setter __mgpa_todo).
Definition set_mgpa_done : list (option string) -> TemoaConfig -> TemoaConfig :=
  ltac:(setter __mgpa_done).
Definition set_file_location : option string -> TemoaConfig -> TemoaConfig :=
  ltac:(setter file_location).
Definition set_dot_dat : list string -> TemoaConfig -> TemoaConfig :=
  ltac:(setter dot_dat).
Definition set_output : option string -> TemoaConfig -> TemoaConfig :=
  ltac:(setter output).
Definition set_scenario : option string -> TemoaConfig -> TemoaConfig :=
  ltac:(setter scenario).
Definition set_saveEXCEL : bool -> TemoaConfig -> TemoaConfig :=
  ltac:(setter saveEXCEL).
Definition set_myopic : bool -> TemoaConfig -> TemoaConfig :=
  ltac:(setter myopic).
Definition set_myopic_periods : nat -> TemoaConfig -> TemoaConfig :=
  ltac:(setter myopic_periods).
Definition set_KeepMyopicDBs : bool -> TemoaConfig -> TemoaConfig :=
  ltac:(setter KeepMyopicDBs).
Definition set_saveDUALS : bool -> TemoaConfig -> TemoaConfig :=
  ltac:(setter saveDUALS).
Definition set_saveTEXTFILE : bool -> TemoaConfig -> TemoaConfig :=
  ltac:(setter saveTEXTFILE).
Definition set_how_to_cite : option bool -> TemoaConfig -> TemoaConfig :=
  ltac:(setter how_to_cite).
Definition set_version : bool -> TemoaConfig -> TemoaConfig :=
  ltac:(setter version).
Definition set_neos : bool -> TemoaConfig -> TemoaConfig :=
  ltac:(setter neos).
Definition set_method : option string -> TemoaConfig -> TemoaConfig :=
  ltac:(setter method).
Definition set_threads : option string -> TemoaConfig -> TemoaConfig :=
  ltac:(setter threads).
Definition set_tee : bool -> TemoaConfig -> TemoaConfig :=
  ltac:(setter tee).
Definition set_keepPyomoLP : bool -> TemoaConfig -> TemoaConfig :=
  ltac:(setter keepPyomoLP).
Definition set_mga_slack : option Py.pyfloat -> TemoaConfig -> TemoaConfig :=
  ltac:(setter mga_slack).
Definition set_mga_iter : option nat -> TemoaConfig -> TemoaConfig :=
  ltac:(setter mga_iter).
Definition set_mga_method : option string -> TemoaConfig -> TemoaConfig :=
  ltac:(setter mga_method).
Definition set_moo_f1 : option string -> TemoaConfig -> TemoaConfig :=
  ltac:(setter moo_f1).
Definition set_moo_f2 : option string -> TemoaConfig -> TemoaConfig :=
  ltac:(setter moo_f2).
Definition set_moo_c : option Py.pyfloat -> TemoaConfig -> TemoaConfig :=
  ltac:(setter moo_c).
Definition set_moo_ncaps : option nat -> TemoaConfig -> TemoaConfig :=
  ltac:(setter moo_ncaps).
Definition set_mgpa_f1 : option string -> TemoaConfig -> TemoaConfig :=
  ltac:(setter mgpa_f1).
Definition set_mgpa_f2 : option string -> TemoaConfig -> TemoaConfig :=
  ltac:(setter mgpa_f2).
Definition set_mgpa_c : option Py.pyfloat -> TemoaConfig -> TemoaConfig :=
  ltac:(setter mgpa_c).
Definition set_mgpa_ncaps : option nat -> TemoaConfig -> TemoaConfig :=
  ltac:(setter mgpa_ncaps).
Definition set_mgpa_slack1 : option Py.pyfloat -> TemoaConfig -> TemoaConfig :=
  ltac:(setter mgpa_slack1).
Definition set_mgpa_slack2 : option Py.pyfloat -> TemoaConfig -> TemoaConfig :=
  ltac:(setter mgpa_slack2).
Definition set_mgpa_iter : option nat -> TemoaConfig -> TemoaConfig :=
  ltac:(setter mgpa_iter).
Definition set_mgpa_method : option string -> TemoaConfig -> TemoaConfig :=
  ltac:(setter mgpa_method).
Definition set_path_to_data : string -> TemoaConfig -> TemoaConfig :=
  ltac:(setter path_to_data).
Definition set_path_to_logs : string -> TemoaConfig -> TemoaConfig :=
  ltac:(setter path_to_logs).
Definition set_abort_temoa : bool -> TemoaConfig -> TemoaConfig :=
  ltac:(setter abort_temoa).
Definition set_solver : option string -> TemoaConfig -> TemoaConfig :=
  ltac:(setter solver).

(** *** The PLY lexer object *)

(** [states]: the three exclusive states, and PLY's initial state. *)
Inductive state : Type := INITIAL | mga | moo | mgpa.

Record Lexer : Type := {
  lexpos : nat;
  lineno : nat;
  lexstate : state;
  lexstatestack : list state;
  level : option Z
}.

(** A fresh lexer: [lineno = 1], [lexpos = 0], state [INITIAL]. *)
Definition new_lexer : Lexer :=
  {| lexpos := 0; lineno := 1; lexstate := INITIAL; lexstatestack := [];
     level := None |}.

Record LexToken : Type := {
  tok_value : string;
  tok_lineno : nat;
  tok_lexpos : nat
}.

Definition set_lexpos (n : nat) (lx : Lexer) : Lexer :=
  {| lexpos := n; lineno := lineno lx; lexstate := lexstate lx;
     lexstatestack := lexstatestack lx; level := level lx |}.

Definition set_lineno (n : nat) (lx : Lexer) : Lexer :=
  {| lexpos := lexpos lx; lineno := n; lexstate := lexstate lx;
     lexstatestack := lexstatestack lx; level := level lx |}.

Definition set_level (l : option Z) (lx : Lexer) : Lexer :=
  {| lexpos := lexpos lx; lineno := lineno lx; lexstate := lexstate lx;
     lexstatestack := lexstatestack lx; level := l |}.

(** [lexer.push_state(s)] *)
Definition push_state (s : state) (lx : Lexer) : Lexer :=
  {| lexpos := lexpos lx; lineno := lineno lx; lexstate := s;
     lexstatestack := lexstatestack lx ++ [lexstate lx]; level := level lx |}.

(** [lexer.pop_state()]: [list.pop] raises on the empty stack. *)
Definition pop_state (lx : Lexer) : result Lexer :=
  match last (lexstatestack lx) with
  | None => Raise IndexError
  | Some s =>
      Ok {| lexpos := lexpos lx; lineno := lineno lx; lexstate := s;
            lexstatestack := removelast (lexstatestack lx);
            level := level lx |}
  end.

(** [lexer.skip(n)] *)
Definition skip (n : nat) (lx : Lexer) : Lexer := set_lexpos (lexpos lx + n) lx.

(** *** Character classes of the token rules *)

(** [[\s\=]] *)
Definition sep_char (c : ascii) : bool := Py.is_space c || Ascii.eqb c "=".

(** [[-\\\/\:\.\~\w]] *)
Definition path_char (c : ascii) : bool :=
  Ascii.eqb c "-" || Ascii.eqb c "\" || Ascii.eqb c "/" || Ascii.eqb c ":"
  || Ascii.eqb c "." || Ascii.eqb c "~" || Py.is_word c.

(** [[-\\\/\:\.\~\w\ ]] *)
Definition path_space_char (c : ascii) : bool :=
  path_char c || Ascii.eqb c " ".

(** [[\.\d]] *)
Definition dot_digit (c : ascii) : bool := Ascii.eqb c "." || Py.is_digit c.

(** [.] *)
Definition any_char (c : ascii) : bool := negb (Ascii.eqb c Py.LF).

Definition is_LF (c : ascii) : bool := Ascii.eqb c Py.LF.
Definition is_CR (c : ascii) : bool := Ascii.eqb c Py.CR.
Definition CRLF : string := String Py.CR (String Py.LF "").

(** [(cost|emissions|energySR|materialSR)] and
    [(integer|normalized|random)] *)
Definition objective : regex :=
  alts [Lit "cost"; Lit "emissions"; Lit "energySR"; Lit "materialSR"].
Definition weighting : regex :=
  alts [Lit "integer"; Lit "normalized"; Lit "random"].

(** *** Token rules *)

Section Rules.

(** The working directory, which [abspath] resolves relative paths in. *)
Variable cwd : string.

Definition action : Type :=
  LexToken -> TemoaConfig * Lexer -> result (TemoaConfig * Lexer).

(** [t.value.replace('=', ' ').split()[1]] *)
Definition field1 (t : LexToken) : result string :=
  Py.index (Py.split (Py.replace "=" " " (tok_value t))) 1.

(** [t.value.replace('=', ',').split(",")[1]] *)
Definition comma_field1 (t : LexToken) : result string :=
  Py.index (Py.split_on "," (Py.replace "=" "," (tok_value t))) 1.

Definition r_ANY_COMMENT : regex := cat [Lit "#"; Star any_char].
Definition t_ANY_COMMENT : action := fun t '(c, lx) => Ok (c, lx).

Definition r_dot_dat : regex :=
  cat [Lit "--input"; Plus sep_char; Plus path_char;
       alts [Lit ".dat"; Lit ".db"; Lit ".sqlite"]; WordB].
Definition t_dot_dat : action := fun t '(c, lx) =>
  v ← field1 t;
  Ok (set_dot_dat (dot_dat c ++ [Py.abspath cwd v]) c, lx).

Definition r_output : regex :=
  cat [Lit "--output"; Plus sep_char; Plus path_char;
       alts [Lit ".db"; Lit ".sqlite"]; WordB].
Definition t_output : action := fun t '(c, lx) =>
  v ← field1 t;
  Ok (set_output (Some (Py.abspath cwd v)) c, lx).

Definition r_scenario : regex :=
  cat [Lit "--scenario"; Plus sep_char; Plus Py.is_word; WordB].
Definition t_scenario : action := fun t '(c, lx) =>
  v ← field1 t;
  Ok (set_scenario (Some v) c, lx).

Definition r_saveEXCEL : regex := cat [Lit "--saveEXCEL"; WordB].
Definition t_saveEXCEL : action := fun t '(c, lx) =>
  Ok (set_saveEXCEL true c, lx).

Definition r_saveDUALS : regex := cat [Lit "--saveDUALS"; WordB].
Definition t_saveDUALS : action := fun t '(c, lx) =>
  Ok (set_saveDUALS true c, lx).

Definition r_myopic : regex := cat [Lit "--myopic"; WordB].
Definition t_myopic : action := fun t '(c, lx) =>
  Ok (set_myopic true c, lx).

Definition r_myopic_periods : regex :=
  cat [Lit "--myopic_periods"; Plus sep_char; Plus Py.is_digit].
Definition t_myopic_periods : action := fun t '(c, lx) =>
  v ← field1 t;
  n ← Py.int v;
  Ok (set_myopic_periods n c, lx).

Definition r_keep_myopic_databases : regex :=
  cat [Lit "--keep_myopic_databases"; WordB].
Definition t_keep_myopic_databases : action := fun t '(c, lx) =>
  Ok (set_KeepMyopicDBs true c, lx).

Definition r_saveTEXTFILE : regex := cat [Lit "--saveTEXTFILE"; WordB].
Definition t_saveTEXTFILE : action := fun t '(c, lx) =>
  Ok (set_saveTEXTFILE true c, lx).

Definition r_path_to_data : regex :=
  cat [Lit "--path_to_data"; Plus sep_char; Plus path_space_char; WordB].
Definition t_path_to_data : action := fun t '(c, lx) =>
  v ← comma_field1 t;
  Ok (set_path_to_data (Py.abspath cwd v) c, lx).

Definition r_path_to_logs : regex :=
  cat [Lit "--path_to_logs"; Plus sep_char; Plus path_space_char; WordB].
Definition t_path_to_logs : action := fun t '(c, lx) =>
  v ← comma_field1 t;
  Ok (set_path_to_logs (Py.abspath cwd v) c, lx).

Definition r_how_to_cite : regex := cat [Lit "--how_to_cite"; WordB].
Definition t_how_to_cite : action := fun t '(c, lx) =>
  Ok (set_how_to_cite (Some true) c, lx).

Definition r_version : regex := cat [Lit "--version"; WordB].
Definition t_version : action := fun t '(c, lx) =>
  Ok (set_version true c, lx).

Definition r_neos : regex := cat [Lit "--neos"; WordB].
Definition t_neos : action := fun t '(c, lx) =>
  Ok (set_neos true c, lx).

Definition r_solver : regex :=
  cat [Lit "--solver"; Plus sep_char; Plus Py.is_word; WordB].
Definition t_solver : action := fun t '(c, lx) =>
  v ← field1 t;
  Ok (set_solver (Some v) c, lx).

Definition r_method : regex :=
  cat [Lit "--method"; Plus sep_char; Plus Py.is_word; WordB].
Definition t_method : action := fun t '(c, lx) =>
  v ← field1 t;
  Ok (set_method (Some v) c, lx).

Definition r_threads : regex :=
  cat [Lit "--threads"; Plus sep_char; Plus Py.is_word; WordB].
Definition t_threads : action := fun t '(c, lx) =>
  v ← field1 t;
  Ok (set_threads (Some v) c, lx).

Definition r_tee : regex := cat [Lit "--tee"; WordB].
Definition t_tee : action := fun t '(c, lx) =>
  Ok (set_tee true c, lx).

Definition r_keep_pyomo_lp_file : regex :=
  cat [Lit "--keep_pyomo_lp_file"; WordB].
Definition t_keep_pyomo_lp_file : action := fun t '(c, lx) =>
  Ok (set_keepPyomoLP true c, lx).

(** The sweep blocks: [t_begin_*] enters the exclusive state, [t_*_end]
    leaves it. *)
Definition begin_block (s : state) : action := fun t '(c, lx) =>
  Ok (c, set_level (Some 1%Z) (push_state s lx)).

Definition end_block : action := fun t '(c, lx) =>
  lx' ← pop_state lx;
  match level lx' with
  | Some l => Ok (c, set_level (Some (l - 1)%Z) lx')
  | None => Raise AttributeError
  end.

Definition r_begin_mga : regex := cat [Lit "--mga"; Plus sep_char; Lit "{"].
Definition t_begin_mga : action := begin_block mga.

Definition r_mga_mgaslack : regex :=
  cat [Lit "slack"; Plus sep_char; Plus dot_digit].
Definition t_mga_mgaslack : action := fun t '(c, lx) =>
  v ← field1 t;
  x ← Py.float v;
  Ok (set_mga_slack (Some x) c, lx).

Definition r_mga_mgaiter : regex :=
  cat [Lit "iteration"; Plus sep_char; Plus Py.is_digit].
Definition t_mga_mgaiter : action := fun t '(c, lx) =>
  v ← field1 t;
  n ← Py.int v;
  Ok (set_mga_iter (Some n) c, lx).

Definition r_mga_mgamethod : regex :=
  cat [Lit "method"; Plus sep_char; weighting; WordB].
Definition t_mga_mgamethod : action := fun t '(c, lx) =>
  v ← field1 t;
  Ok (set_mga_method (Some v) c, lx).

Definition r_mga_end : regex := Lit "}".
Definition t_mga_end : action := end_block.

Definition r_begin_moo : regex := cat [Lit "--moo"; Plus sep_char; Lit "{"].
Definition t_begin_moo : action := begin_block moo.

Definition r_moo_moof1 : regex :=
  cat [Lit "f1"; Plus sep_char; objective; WordB].
Definition t_moo_moof1 : action := fun t '(c, lx) =>
  v ← field1 t;
  Ok (set_moo_f1 (Some v) c, lx).

Definition r_moo_moof2 : regex :=
  cat [Lit "f2"; Plus sep_char; objective; WordB].
Definition t_moo_moof2 : action := fun t '(c, lx) =>
  v ← field1 t;
  Ok (set_moo_f2 (Some v) c, lx).

Definition r_moo_mooc : regex := cat [Lit "c"; Plus sep_char; Plus dot_digit].
Definition t_moo_mooc : action := fun t '(c, lx) =>
  v ← field1 t;
  x ← Py.float v;
  Ok (set_moo_c (Some x) c, lx).

Definition r_moo_mooncaps : regex :=
  cat [Lit "ncaps"; Plus sep_char; Plus Py.is_digit].
Definition t_moo_mooncaps : action := fun t '(c, lx) =>
  v ← field1 t;
  n ← Py.int v;
  Ok (set_moo_ncaps (Some n) c, lx).

Definition r_moo_end : regex := Lit "}".
Definition t_moo_end : action := end_block.

Definition r_begin_mgpa : regex := cat [Lit "--mgpa"; Plus sep_char; Lit "{"].
Definition t_begin_mgpa : action := begin_block mgpa.

Definition r_mgpa_mgpaf1 : regex :=
  cat [Lit "f1"; Plus sep_char; objective; WordB].
Definition t_mgpa_mgpaf1 : action := fun t '(c, lx) =>
  v ← field1 t;
  Ok (set_mgpa_f1 (Some v) c, lx).

Definition r_mgpa_mgpaf2 : regex :=
  cat [Lit "f2"; Plus sep_char; objective; WordB].
Definition t_mgpa_mgpaf2 : action := fun t '(c, lx) =>
  v ← field1 t;
  Ok (set_mgpa_f2 (Some v) c, lx).

Definition r_mgpa_mgpac : regex := cat [Lit "c"; Plus sep_char; Plus dot_digit].
Definition t_mgpa_mgpac : action := fun t '(c, lx) =>
  v ← field1 t;
  x ← Py.float v;
  Ok (set_mgpa_c (Some x) c, lx).

Definition r_mgpa_mgpancaps : regex :=
  cat [Lit "ncaps"; Plus sep_char; Plus Py.is_digit].
Definition t_mgpa_mgpancaps : action := fun t '(c, lx) =>
  v ← field1 t;
  n ← Py.int v;
  Ok (set_mgpa_ncaps (Some n) c, lx).

Definition r_mgpa_mgpaslack1 : regex :=
  cat [Lit "slack1"; Plus sep_char; Plus dot_digit].
Definition t_mgpa_mgpaslack1 : action := fun t '(c, lx) =>
  v ← field1 t;
  x ← Py.float v;
  Ok (set_mgpa_slack1 (Some x) c, lx).

Definition r_mgpa_mgpaslack2 : regex :=
  cat [Lit "slack2"; Plus sep_char; Plus dot_digit].
Definition t_mgpa_mgpaslack2 : action := fun t '(c, lx) =>
  v ← field1 t;
  x ← Py.float v;
  Ok (set_mgpa_slack2 (Some x) c, lx).

Definition r_mgpa_mgpaiter : regex :=
  cat [Lit "iteration"; Plus sep_char; Plus Py.is_digit].
Definition t_mgpa_mgpaiter : action := fun t '(c, lx) =>
  v ← field1 t;
  n ← Py.int v;
  Ok (set_mgpa_iter (Some n) c, lx).

Definition r_mgpa_mgpamethod : regex :=
  cat [Lit "method"; Plus sep_char; weighting; WordB].
Definition t_mgpa_mgpamethod : action := fun t '(c, lx) =>
  v ← field1 t;
  Ok (set_mgpa_method (Some v) c, lx).

Definition r_mgpa_end : regex := Lit "}".
Definition t_mgpa_end : action := end_block.

(** [\n+|(\r\n)+|\r+] *)
Definition r_ANY_newline : regex :=
  alts [Plus is_LF; PlusLit CRLF; Plus is_CR].
Definition t_ANY_newline : action := fun t '(c, lx) =>
  Ok (c, set_lineno (lineno lx + String.length (tok_value t)) lx).

(** [t_ANY_error], without its final [t.lexer.skip(1)]: [t.value] is the
    rest of the input, [t.value[0]] the offending character. *)
Definition new_span (t : LexToken) : ErrorSpan :=
  {| line := (tok_lineno t, tok_lineno t);
     index := (tok_lexpos t, tok_lexpos t);
     value := Py.str_take 1 (tok_value t) |}.

Definition extend_span (e : ErrorSpan) (t : LexToken) : ErrorSpan :=
  {| line := (fst (line e), tok_lineno t);
     index := (fst (index e), tok_lexpos t);
     value := value e ++ Py.str_take 1 (tok_value t) |}.

Definition record_error (errors : list ErrorSpan) (t : LexToken)
  : list ErrorSpan :=
  match last errors with
  | None => errors ++ [new_span t]
  | Some e =>
      if (Z.of_nat (tok_lexpos t) - Z.of_nat (snd (index e)) =? 1)%Z
      then removelast errors ++ [extend_span e t]
      else errors ++ [new_span t]
  end.

Definition t_ANY_error : action := fun t '(c, lx) =>
  Ok (set_error (record_error (__error c) t) c, skip 1 lx).

(** The rules of each state, in the order PLY tries them: the rules are
    all functions, so they are sorted by line of definition; a rule named
    [t_ANY_*] belongs to every state. *)
Definition rules (s : state) : list (regex * action) :=
  match s with
  | INITIAL =>
      [ (r_ANY_COMMENT, t_ANY_COMMENT);
        (r_dot_dat, t_dot_dat);
        (r_output, t_output);
        (r_scenario, t_scenario);
        (r_saveEXCEL, t_saveEXCEL);
        (r_saveDUALS, t_saveDUALS);
        (r_myopic, t_myopic);
        (r_myopic_periods, t_myopic_periods);
        (r_keep_myopic_databases, t_keep_myopic_databases);
        (r_saveTEXTFILE, t_saveTEXTFILE);
        (r_path_to_data, t_path_to_data);
        (r_path_to_logs, t_path_to_logs);
        (r_how_to_cite, t_how_to_cite);
        (r_version, t_version);
        (r_neos, t_neos);
        (r_solver, t_solver);
        (r_method, t_method);
        (r_threads, t_threads);
        (r_tee, t_tee);
        (r_keep_pyomo_lp_file, t_keep_pyomo_lp_file);
        (r_begin_mga, t_begin_mga);
        (r_begin_moo, t_begin_moo);
        (r_begin_mgpa, t_begin_mgpa);
        (r_ANY_newline, t_ANY_newline) ]
  | mga =>
      [ (r_ANY_COMMENT, t_ANY_COMMENT);
        (r_mga_mgaslack, t_mga_mgaslack);
        (r_mga_mgaiter, t_mga_mgaiter);
        (r_mga_mgamethod, t_mga_mgamethod);
        (r_mga_end, t_mga_end);
        (r_ANY_newline, t_ANY_newline) ]
  | moo =>
      [ (r_ANY_COMMENT, t_ANY_COMMENT);
        (r_moo_moof1, t_moo_moof1);
        (r_moo_moof2, t_moo_moof2);
        (r_moo_mooc, t_moo_mooc);
        (r_moo_mooncaps, t_moo_mooncaps);
        (r_moo_end, t_moo_end);
        (r_ANY_newline, t_ANY_newline) ]
  | mgpa =>
      [ (r_ANY_COMMENT, t_ANY_COMMENT);
        (r_mgpa_mgpaf1, t_mgpa_mgpaf1);
        (r_mgpa_mgpaf2, t_mgpa_mgpaf2);
        (r_mgpa_mgpac, t_mgpa_mgpac);
        (r_mgpa_mgpancaps, t_mgpa_mgpancaps);
        (r_mgpa_mgpaslack1, t_mgpa_mgpaslack1);
        (r_mgpa_mgpaslack2, t_mgpa_mgpaslack2);
        (r_mgpa_mgpaiter, t_mgpa_mgpaiter);
        (r_mgpa_mgpamethod, t_mgpa_mgpamethod);
        (r_mgpa_end, t_mgpa_end);
        (r_ANY_newline, t_ANY_newline) ]
  end.

(** [t_ANY_ignore]: the characters of the string ['[ \t]']. *)
Definition lexignore : string :=
  String "[" (String " " (String Py.TAB (String "]" ""))).

Definition in_string (c : ascii) (s : string) : bool :=
  Py.existsb_str (Ascii.eqb c) s.

(** The master regular expression: the first rule that matches, with the
    text left after its match. *)
Fixpoint first_match (rs : list (regex * action)) (prev : option ascii)
  (s : string) : option (action * string) :=
  match rs with
  | [] => None
  | (r, f) :: rs' =>
      match match_ r prev s with
      | Some rest => Some (f, rest)
      | None => first_match rs' prev s
      end
  end.

(** *** The token loop *)

(** [lexer.token()] called until it returns [None].  No rule returns a
    token, so one call runs to the end of the input.  [rest] is
    [lexdata[lexpos:]] and [prev] the character before it.  A character of
    [lexignore] is skipped; otherwise the first rule that matches is
    called on the matched text and the loop goes on after that text (no
    rule moves [lexpos] itself); when no rule matches, [t_ANY_error] is
    called on the rest of the input and skips one character.  At the end
    of the input PLY leaves [lexpos] one past the length of the input and
    returns [None].  Every round consumes a character, so [fuel] beyond
    the length of [rest] is never used up; [None] reports that it was. *)
Fixpoint token (fuel : nat) (prev : option ascii) (rest : string)
  (c : TemoaConfig) (lx : Lexer) : option (result (TemoaConfig * Lexer)) :=
  match fuel with
  | O => None
  | S fuel' =>
      match rest with
      | EmptyString => Some (Ok (c, set_lexpos (lexpos lx + 1) lx))
      | String ch rest' =>
          if in_string ch lexignore then
            token fuel' (Some ch) rest' c (set_lexpos (lexpos lx + 1) lx)
          else
            match first_match (rules (lexstate lx)) prev rest with
            | Some (func, after) =>
                let n := String.length rest - String.length after in
                let tok := {| tok_value := Py.str_take n rest;
                              tok_lineno := lineno lx;
                              tok_lexpos := lexpos lx |} in
                match func tok (c, set_lexpos (lexpos lx + n) lx) with
                | Ok (c', lx') =>
                    token fuel' (last_char prev (tok_value tok)) after c' lx'
                | Raise e => Some (Raise e)
                end
            | None =>
                let tok := {| tok_value := rest;
                              tok_lineno := lineno lx;
                              tok_lexpos := lexpos lx |} in
                match t_ANY_error tok (c, lx) with
                | Ok (c', lx') => token fuel' (Some ch) rest' c' lx'
                | Raise e => Some (Raise e)
                end
            end
      end
  end.

(** Lexing the whole of [text] into the configuration [c]. *)
Definition lex (text : string) (c : TemoaConfig)
  : option (result (TemoaConfig * Lexer)) :=
  token (S (String.length text)) None text c new_lexer.

End Rules.

(** *** Vocabulary for the properties of the recorded errors *)

(** The first character of [t.value]. *)
Definition first_char (t : LexToken) : string := Py.str_take 1 (tok_value t).

(** [ts] are tokens at the offsets that follow [p], one after the
    other. *)
Fixpoint contiguous (p : nat) (ts : list LexToken) : Prop :=
  match ts with
  | [] => True
  | t :: ts' => tok_lexpos t = S p /\ contiguous (S p) ts'
  end.

(** The span of a run of characters: from the line and offset of the
    first to the line and offset of the last, with the characters as its
    text. *)
Definition run_span (t : LexToken) (ts : list LexToken) : ErrorSpan :=
  {| line := (tok_lineno t, tok_lineno (List.last ts t));
     index := (tok_lexpos t, tok_lexpos (List.last ts t));
     value := String.concat "" (map first_char (t :: ts)) |}.

(** A span covers as many offsets as it has characters, and successive
    spans are more than one offset apart. *)
Definition span_covers (e : ErrorSpan) : Prop :=
  fst (index e) + String.length (value e) = snd (index e) + 1.

Fixpoint spans_apart (errors : list ErrorSpan) : Prop :=
  match errors with
  | e1 :: rest =>
      match rest with
      | e2 :: _ => snd (index e1) + 1 < fst (index e2)
      | [] => True
      end /\ spans_apart rest
  | [] => True
  end.

Definition spans_wf (errors : list ErrorSpan) : Prop :=
  Forall span_covers errors /\ spans_apart errors.

(** What the token loop keeps true of the recorded errors: the spans are
    well formed and end before the current position. *)
Definition errors_inv (c : TemoaConfig) (lx : Lexer) : Prop :=
  spans_wf (__error c)
  /\ forall e, last (__error c) = Some e -> snd (index e) < lexpos lx.

(** *** Vocabulary for the properties of the input files and the lines *)

(** The path ends in one of the extensions of the [--input] rule. *)
Definition input_ext (p : string) : bool :=
  Py.endswith p ".dat" || Py.endswith p ".db" || Py.endswith p ".sqlite".

(** One of the extensions of the [--input] rule stands at the start of
    [s], before a character that is not a word character or before the
    end of [s]. *)
Definition ext_here (s : string) : bool :=
  existsb (fun e => match Re.strip e s with
                    | Some rest => negb (Re.is_word_opt (Re.head rest))
                    | None => false
                    end)
    [".dat"; ".db"; ".sqlite"].

Fixpoint ext_later (s : string) : bool :=
  match s with
  | EmptyString => false
  | String _ s' => ext_here s || ext_later s'
  end.

(** The name holds such an extension after one character or more: the
    [--input] rule can match a part of it. *)
Definition ext_inside (name : string) : bool :=
  match name with
  | EmptyString => false
  | String _ s => ext_later s
  end.

(** The rules of the initial state that append an input file, may raise
    or enter a block: each is a keyword, separators and more. *)
Definition marked_rules : list Re.regex :=
  [ r_dot_dat; r_path_to_data; r_path_to_logs;
    r_begin_mga; r_begin_moo; r_begin_mgpa ].

(** The line counter after lexing [text], when the lexing succeeds. *)
Definition lineno_after (cwd text : string) (c : TemoaConfig) : option nat :=
  match lex cwd text c with
  | Some (Ok (_, lx)) => Some (lineno lx)
  | _ => None
  end.

(** The input files and the recorded errors after lexing [text] into a
    fresh object. *)
Definition inputs_and_errors (cwd text : string)
  : option (list string * list ErrorSpan) :=
  match lex cwd text (init "" None) with
  | Some (Ok (c, _)) => Some (dot_dat c, __error c)
  | _ => None
  end.

(** The sentence "an [--input] directive that names a file with another
    extension appends nothing". *)
Definition other_extension_never_appends : Prop :=
  forall cwd name,
    Py.forallb_str path_char name = true ->
    input_ext name = false ->
    exists errors,
      inputs_and_errors cwd ("--input=" ++ name) = Some ([], errors).

(** *** The scenario queues *)

(** [next_mga], [next_moo], [next_mgpa]: the value returned and the object
    after the call.  [Queue.put] appends, [Queue.get] removes the first
    element. *)
Definition next_mga (c : TemoaConfig) : bool * TemoaConfig :=
  match __mga_todo c with
  | [] => (false, c)
  | name :: todo =>
      let c1 := set_mga_done (__mga_done c ++ [scenario c]) c in
      let c2 := set_scenario (Some name) (set_mga_todo todo c1) in
      (true, c2)
  end.

Definition next_moo (c : TemoaConfig) : bool * TemoaConfig :=
  match __moo_todo c with
  | [] => (false, c)
  | name :: todo =>
      let c1 := set_moo_done (__moo_done c ++ [scenario c]) c in
      let c2 := set_scenario (Some name) (set_moo_todo todo c1) in
      (true, c2)
  end.

Definition next_mgpa (c : TemoaConfig) : bool * TemoaConfig :=
  match __mgpa_todo c with
  | [] => (false, c)
  | name :: todo =>
      let c1 := set_mgpa_done (__mgpa_done c ++ [scenario c]) c in
      let c2 := set_scenario (Some name) (set_mgpa_todo todo c1) in
      (true, c2)
  end.

(** *** [build] *)

(** Truth value of [None] or a string, and of [None] or an integer. *)
Definition truthy_str (o : option string) : bool :=
  match o with
  | Some s => negb (String.eqb s "")
  | None => false
  end.

Definition truthy_nat (o : option nat) : bool :=
  match o with
  | Some n => negb (n =? 0)%nat
  | None => false
  end.

(** [self.scenario + suffix]: adding a string to [None] is a
    [TypeError]. *)
Definition scenario_plus (c : TemoaConfig) (suffix : string) : result string :=
  match scenario c with
  | Some base => Ok (base ++ suffix)
  | None => Raise TypeError
  end.

(** [for i in range(start, start + n): s = body(i, s)] *)
Fixpoint for_range {St : Type} (body : nat -> St -> result St)
  (start n : nat) (s : St) : result St :=
  match n with
  | O => Ok s
  | S n' => s' ← body start s; for_range body (S start) n' s'
  end.

Definition put_mga (i : nat) (c : TemoaConfig) : result TemoaConfig :=
  name ← scenario_plus c ("_mga_" ++ Py.str_nat i);
  Ok (set_mga_todo (__mga_todo c ++ [name]) c).

Definition put_moo (i : nat) (c : TemoaConfig) : result TemoaConfig :=
  name ← scenario_plus c ("_moo_" ++ Py.str_nat i);
  Ok (set_moo_todo (__moo_todo c ++ [name]) c).

Definition put_mgpa_inner (i j : nat) (c : TemoaConfig) : result TemoaConfig :=
  name ← scenario_plus c ("_moo_" ++ Py.str_nat i ++ "_mga_" ++ Py.str_nat j);
  Ok (set_mgpa_todo (__mgpa_todo c ++ [name]) c).

Definition put_mgpa (i : nat) (c : TemoaConfig) : result TemoaConfig :=
  name ← scenario_plus c ("_moo_" ++ Py.str_nat i);
  let c1 := set_mgpa_todo (__mgpa_todo c ++ [name]) c in
  if truthy_nat (mgpa_iter c1)
  then for_range (put_mgpa_inner i) 0 (default 0 (mgpa_iter c1)) c1
  else Ok c1.

(** The three [if self.<count>: for i in range(...)] blocks that fill the
    pending queues. *)
Definition populate (c : TemoaConfig) : result TemoaConfig :=
  c1 ← (if truthy_nat (mga_iter c)
        then for_range put_mga 0 (default 0 (mga_iter c)) c
        else Ok c);
  c2 ← (if truthy_nat (moo_ncaps c1)
        then for_range put_moo 0 (default 0 (moo_ncaps c1)) c1
        else Ok c1);
  if truthy_nat (mgpa_ncaps c2)
  then for_range put_mgpa 0 (default 0 (mgpa_ncaps c2)) c2
  else Ok c2.

(** The sentence "for every [ncaps >= 1] and [iteration >= 1], queue
    population yields exactly [ncaps * (1 + iteration)] pending
    entries", of every object with these two counts. *)
Definition mgpa_always_populated : Prop :=
  forall c ncaps iteration,
    mgpa_ncaps c = Some ncaps ->
    mgpa_iter c = Some iteration ->
    1 <= ncaps ->
    1 <= iteration ->
    exists c',
      populate c = Ok c'
      /\ List.length (__mgpa_todo c')
         = List.length (__mgpa_todo c) + ncaps * (1 + iteration).

(** *** Vocabulary for the properties of the queues *)

(** The three sweep techniques, with the operation and the two queues of
    each. *)
Inductive technique : Type := MGA | MOO | MGPA.

Definition advance (t : technique) : TemoaConfig -> bool * TemoaConfig :=
  match t with
  | MGA => next_mga
  | MOO => next_moo
  | MGPA => next_mgpa
  end.

Definition pending (t : technique) (c : TemoaConfig) : list string :=
  match t with
  | MGA => __mga_todo c
  | MOO => __moo_todo c
  | MGPA => __mgpa_todo c
  end.

Definition done (t : technique) (c : TemoaConfig) : list (option string) :=
  match t with
  | MGA => __mga_done c
  | MOO => __moo_done c
  | MGPA => __mgpa_done c
  end.

(** The object after [n] calls of [advance t]. *)
Fixpoint calls (t : technique) (n : nat) (c : TemoaConfig) : TemoaConfig :=
  match n with
  | O => c
  | S n' => calls t n' (snd (advance t c))
  end.

(** The names of the nested sweep as the specification lists them: for
    each cap [i] below [ncaps] the name of the cap, then the names of its
    iterations [j] below [iteration]. *)
Definition mga_name (base : string) (i : nat) : string :=
  base ++ "_mga_" ++ Py.str_nat i.

Definition cap_name (base : string) (i : nat) : string :=
  base ++ "_moo_" ++ Py.str_nat i.

Definition nested_name (base : string) (i j : nat) : string :=
  base ++ "_moo_" ++ Py.str_nat i ++ "_mga_" ++ Py.str_nat j.

Definition mgpa_names (base : string) (ncaps iteration : nat) : list string :=
  flat_map (fun i => cap_name base i :: map (nested_name base i) (seq 0 iteration))
    (seq 0 ncaps).

(** *** Vocabulary for the properties of the checks *)

(** The mode one input file stands for in the loop of [build]: [false]
    (a [.dat] input) for the extensions [.dat] and [.txt], [true] (a
    database) for [.db], [.sqlite], [.sqlite3] and [sqlitedb], nothing
    for any other. *)
Definition ext_class (p : string) : option bool :=
  let i_ext := snd (Py.splitext p) in
  if String.eqb i_ext ".dat" || String.eqb i_ext ".txt" then Some false
  else if String.eqb i_ext ".db" || String.eqb i_ext ".sqlite"
          || String.eqb i_ext ".sqlite3" || String.eqb i_ext "sqlitedb"
  then Some true
  else None.

Section Build.

(** The file system: [isfile p] says whether [p] is an existing regular
    file. *)
Variable isfile : string -> bool.

(** [for i in self.dot_dat:] with the mode flag [db_or_dat]: [true] for a
    database input, [false] for a [.dat] input. *)
Fixpoint classify (files : list string) (db_or_dat : bool) : result bool :=
  match files with
  | [] => Ok db_or_dat
  | i :: files' =>
      if negb (isfile i)
      then Raise (Exception ("Cannot locate input file: " ++ i))
      else
        let '(i_name, i_ext) := Py.splitext i in
        if String.eqb i_ext ".dat" || String.eqb i_ext ".txt"
        then classify files' false
        else if String.eqb i_ext ".db" || String.eqb i_ext ".sqlite"
                || String.eqb i_ext ".sqlite3" || String.eqb i_ext "sqlitedb"
        then classify files' true
        else classify files' db_or_dat
  end.

(** The checks on [output] and [scenario] that follow the loop.
    [isfile(None)] is a [TypeError]. *)
Definition check_output (c : TemoaConfig) (db_or_dat : bool) : result unit :=
  if negb (truthy_str (output c)) && db_or_dat
  then Raise (Exception "Output file not specified.")
  else
    located ← (if db_or_dat
               then match output c with
                    | Some p => Ok (isfile p)
                    | None => Raise TypeError
                    end
               else Ok true);
    if db_or_dat && negb located then
      Raise (Exception ("Cannot locate output file: "
                        ++ default "None" (output c) ++ "."))
    else if negb (truthy_str (scenario c)) && db_or_dat
    then Raise (Exception "Scenario name not specified.")
    else Ok tt.

(** The checks of [build] between the lexing and the filling of the
    queues. *)
Definition validate (c : TemoaConfig) : result bool :=
  if bool_decide (dot_dat c = [])
  then Raise (Exception "Input file not specified.")
  else
    db_or_dat ← classify (dot_dat c) true;
    _ ← check_output c db_or_dat;
    Ok db_or_dat.

End Build.

End Config.

(** ** The exporter: [db_2_dat] *)

Module Exporter.

Import Config.

Definition nl : string := String Py.LF "".

(** *** The database *)

(** A value read from SQLite: [None], an [int], a [float] (kept as the text
    Python's [repr] gives it) or a [str].  Tables hold no BLOB. *)
Inductive cell : Type :=
| Null
| Integer (z : Z)
| Real (repr : string)
| Text (s : string).

#[global] Instance cell_eq_dec : EqDecision cell.
Proof. solve_decision. Defined.

(** A table: its column names and its rows in the order a [SELECT]
    without [ORDER BY] returns them.  Table and column names are matched
    as they are spelt; SQLite matches them without regard to the case of
    ASCII letters, and the two agree on the databases that are [spelt]
    (below) as the statements spell the names. *)
Record table : Type := {
  columns : list string;
  rows : list (list cell)
}.

(** What [db_2_dat] works on: the database behind [ifile], the text
    written to [ofile] and the standard output. *)
Record world : Type := {
  store : gmap string table;
  f : string;
  stdout : string
}.

(** Computations on the world that may raise. *)
Definition io (A : Type) : Type := world -> world * result A.

#[global] Instance io_ret : MRet io := fun _ a w => (w, Ok a).
#[global] Instance io_bind : MBind io := fun _ _ k m w =>
  match m w with
  | (w', Ok a) => k a w'
  | (w', Raise e) => (w', Raise e)
  end.

Definition raise {A} (e : exn) : io A := fun w => (w, Raise e).

Definition lift {A} (r : result A) : io A := fun w => (w, r).

(** [f.write(s)] and [print(s)] *)
Definition write (s : string) : io unit := fun w =>
  ({| store := store w; f := f w ++ s; stdout := stdout w |}, Ok tt).

Definition print (s : string) : io unit := fun w =>
  ({| store := store w; f := f w; stdout := stdout w ++ s ++ nl |}, Ok tt).

(** [open(ofile, 'w')]: the file starts empty. *)
Definition open_w : io unit := fun w =>
  ({| store := store w; f := ""; stdout := stdout w |}, Ok tt).

(** [for x in l: body(x)] *)
Fixpoint for_each {A} (l : list A) (body : A -> io unit) : io unit :=
  match l with
  | [] => mret tt
  | x :: l' => _ ← body x; for_each l' body
  end.

(** *** The statements given to [cur.execute]

    [WHERE col == 'v1' OR col == 'v2' ...] keeps the rows whose [col] cell
    is one of the texts; the compared columns are TEXT columns.  A value
    spliced between quotes must not hold a quote itself: the statement
    is then another one, outside this model, and is reported as an
    error. *)

Definition find_column (t : table) (col : string) : result nat :=
  match list_find (fun x => x = col) (columns t) with
  | Some (i, _) => Ok i
  | None => Raise (OperationalError ("no such column: " ++ col))
  end.

Definition find_table (name : string) : io table := fun w =>
  match store w !! name with
  | Some t => (w, Ok t)
  | None => (w, Raise (OperationalError ("no such table: " ++ name)))
  end.

Definition cell_in (r : list cell) (i : nat) (vals : list string) : bool :=
  match r !! i with
  | Some (Text s) => existsb (String.eqb s) vals
  | _ => false
  end.

Definition quote_free (v : string) : bool :=
  negb (Py.existsb_str (Ascii.eqb "'") v).

Definition literal (v : string) : result string :=
  if quote_free v then Ok v
  else Raise (OperationalError "statement outside the model").

(** [SELECT * FROM name] *)
Definition select_all (name : string) : io (list (list cell)) :=
  t ← find_table name;
  mret (rows t).

(** [SELECT * FROM name WHERE col=='v1' OR col=='v2' ...] *)
Definition select_where (name col : string) (vals : list string)
  : io (list (list cell)) :=
  t ← find_table name;
  i ← lift (find_column t col);
  mret (filter (fun r => cell_in r i vals = true) (rows t)).

(** [SELECT col FROM name] *)
Definition select_column (name col : string) : io (list (list cell)) :=
  t ← find_table name;
  i ← lift (find_column t col);
  mret (map (fun r => [default Null (r !! i)]) (rows t)).

(** [SELECT col FROM name WHERE col' == 'v'] *)
Definition select_column_where (name col col' v : string)
  : io (list (list cell)) :=
  t ← find_table name;
  i ← lift (find_column t col);
  i' ← lift (find_column t col');
  v' ← lift (literal v);
  mret (map (fun r => [default Null (r !! i)])
          (filter (fun r => cell_in r i' [v'] = true) (rows t))).

(** [DELETE FROM name WHERE col='v'] *)
Definition delete_where (name col v : string) : io unit := fun w =>
  match store w !! name with
  | None => (w, Raise (OperationalError ("no such table: " ++ name)))
  | Some t =>
      match find_column t col, literal v with
      | Ok i, Ok v' =>
          let t' := {| columns := columns t;
                       rows := filter (fun r => cell_in r i [v'] = false)
                                 (rows t) |} in
          ({| store := <[name := t']> (store w); f := f w;
              stdout := stdout w |}, Ok tt)
      | Raise e, _ => (w, Raise e)
      | _, Raise e => (w, Raise e)
      end
  end.

(** [VACUUM] rebuilds the file and leaves every table as it is. *)
Definition vacuum : io unit := mret tt.

(** [SELECT name FROM sqlite_master WHERE type='table'] *)
Definition table_names : io (gset string) := fun w => (w, Ok (dom (store w))).

(** *** [str] and [repr] of rows *)

Definition hex_digit (n : nat) : ascii :=
  ascii_of_nat (if (n <? 10)%nat then 48 + n else 87 + n).

(** One character inside [repr] of a string quoted with [q].  Characters
    above 127 are written as they are. *)
Definition repr_char (q : ascii) (c : ascii) : string :=
  if Ascii.eqb c q || Ascii.eqb c "\" then String "\" (Py.chr c)
  else if Ascii.eqb c Py.TAB then "\t"
  else if Ascii.eqb c Py.LF then "\n"
  else if Ascii.eqb c Py.CR then "\r"
  else if (Py.code c <? 32)%nat || (Py.code c =? 127)%nat
  then "\x" ++ Py.chr (hex_digit (Py.code c / 16))
            ++ Py.chr (hex_digit (Py.code c mod 16))
  else Py.chr c.

Fixpoint repr_chars (q : ascii) (s : string) : string :=
  match s with
  | EmptyString => ""
  | String c s' => repr_char q c ++ repr_chars q s'
  end.

(** [repr(s)]: double quotes when [s] has a single quote and no double
    quote, single quotes otherwise. *)
Definition repr_str (s : string) : string :=
  let q : ascii :=
    if Py.existsb_str (Ascii.eqb "'") s
       && negb (Py.existsb_str (Ascii.eqb Py.DQUOTE) s)
    then Py.DQUOTE else "'"%char in
  Py.chr q ++ repr_chars q s ++ Py.chr q.

Definition str_cell (x : cell) : string :=
  match x with
  | Null => "None"
  | Integer z => pretty z
  | Real r => r
  | Text s => s
  end.

Definition repr_cell (x : cell) : string :=
  match x with
  | Text s => repr_str s
  | _ => str_cell x
  end.

(** [str(t)] for a tuple [t]. *)
Definition str_tuple (t : list cell) : string :=
  match t with
  | [x] => "(" ++ repr_cell x ++ ",)"
  | _ => "(" ++ String.concat ", " (map repr_cell t) ++ ")"
  end.

(** [re.sub('[(]', '', s)] *)
Fixpoint sub_paren (s : string) : string :=
  match s with
  | EmptyString => ""
  | String c s' => if Ascii.eqb c "(" then sub_paren s'
                   else String c (sub_paren s')
  end.

(** [re.sub('[\',)]', '    ', s)] *)
Fixpoint sub_punct (s : string) : string :=
  match s with
  | EmptyString => ""
  | String c s' =>
      (if Ascii.eqb c "'" || Ascii.eqb c "," || Ascii.eqb c ")"
       then "    " else Py.chr c) ++ sub_punct s'
  end.

(** [re.search(r'^\W+$', s)]: [s] is not empty and has no word character
    (a final newline, which [$] may leave out, is itself matched by
    [\W]). *)
Definition search_afcom (s : string) : bool :=
  negb (String.eqb s "") && Py.forallb_str (fun c => negb (Py.is_word c)) s.

(** *** [query_table] *)

(** [t_flag] is a list for the production technologies and a string
    otherwise. *)
Inductive flag : Type :=
| Flags (l : list string)
| Flag (s : string).

(** An entry of [table_list]:
    [[set or param, table name, DAT name, flag, index of '#']]. *)
Record TableSpec : Type := spec {
  t_type : string;
  t_name : string;
  t_dtname : string;
  t_flag : flag;
  t_index : nat
}.

Inductive query : Type :=
| SelectAll (name : string)
| SelectWhereFlag (name : string) (vals : list string).

Definition execute (q : query) : io (list (list cell)) :=
  match q with
  | SelectAll name => select_all name
  | SelectWhereFlag name vals => select_where name "flag" vals
  end.

(** The row written for a table whose [t_index] is not 0. *)
Definition format_row (t_index : nat) (line : list cell) : string :=
  let before_comments := sub_punct (sub_paren (str_tuple (take (t_index + 1) line))) in
  let after_comments := sub_punct (sub_paren (str_tuple (drop (t_index + 2) line))) in
  if negb (search_afcom after_comments)
  then before_comments ++ "# " ++ after_comments ++ nl
  else before_comments ++ nl.

(** What the three branches of [query_table] share: the query is run, the
    function returns if [fetchone()] finds no row, the header is written
    under [name]; then the query is run again and every row written. *)
Definition section (p : TableSpec) (db_query : query) (name : string)
  : io unit :=
  found ← execute db_query;
  match found with
  | [] => mret tt
  | _ :: _ =>
      _ ← write ((if String.eqb (t_type p) "set" then "set " else "param ")
                 ++ name ++ " := " ++ nl);
      lines ← execute db_query;
      _ ← (if (t_index p =? 0)%nat then
             for_each lines (fun line =>
               x ← lift (Py.index line 0);
               let str_row := str_cell x ++ nl in
               _ ← write str_row;
               print str_row)
           else
             for_each lines (fun line =>
               let str_row := format_row (t_index p) line in
               _ ← write str_row;
               print str_row));
      write (";" ++ nl ++ nl)
  end.

Definition query_table (t_properties : TableSpec) : io unit :=
  match t_flag t_properties with
  | Flags _ =>
      section t_properties
        (SelectWhereFlag (t_name t_properties) ["p"; "pb"; "ps"])
        (t_dtname t_properties)
  | Flag t_flag =>
      if negb (String.eqb t_flag "") then
        section t_properties
          (SelectWhereFlag (t_name t_properties) [t_flag])
          (t_dtname t_properties)
      else
        section t_properties (SelectAll (t_name t_properties))
          (t_name t_properties)
  end.

(** [table_list] *)
Definition table_list : list TableSpec := [
  spec "set" "time_periods" "time_exist" (Flag "e") 0;
  spec "set" "time_periods" "time_future" (Flag "f") 0;
  spec "set" "time_season" "" (Flag "") 0;
  spec "set" "time_of_day" "" (Flag "") 0;
  spec "set" "regions" "" (Flag "") 0;
  spec "set" "tech_curtailment" "" (Flag "") 0;
  spec "set" "tech_flex" "" (Flag "") 0;
  spec "set" "tech_reserve" "" (Flag "") 0;
  spec "set" "technologies" "tech_resource" (Flag "r") 0;
  spec "set" "technologies" "tech_production" (Flags ["p"; "pb"; "ps"]) 0;
  spec "set" "technologies" "tech_baseload" (Flag "pb") 0;
  spec "set" "technologies" "tech_storage" (Flag "ps") 0;
  spec "set" "tech_ramping" "" (Flag "") 0;
  spec "set" "tech_exchange" "" (Flag "") 0;
  spec "set" "tech_imports" "" (Flag "") 0;
  spec "set" "tech_exports" "" (Flag "") 0;
  spec "set" "tech_domestic" "" (Flag "") 0;
  spec "set" "commodities" "commodity_physical" (Flag "p") 0;
  spec "set" "commodities" "commodity_material" (Flag "m") 0;
  spec "set" "commodities" "commodity_emissions" (Flag "e") 0;
  spec "set" "commodities" "commodity_demand" (Flag "d") 0;
  spec "set" "commodities_e_moo" "" (Flag "") 0;
  spec "set" "tech_groups" "" (Flag "") 0;
  spec "set" "tech_annual" "" (Flag "") 0;
  spec "set" "tech_variable" "" (Flag "") 0;
  spec "set" "groups" "" (Flag "") 0;
  spec "param" "TechGroupWeight" "" (Flag "") 2;
  spec "param" "MinActivityGroup" "" (Flag "") 3;
  spec "param" "MaxActivityGroup" "" (Flag "") 3;
  spec "param" "MinCapacityGroup" "" (Flag "") 3;
  spec "param" "MaxCapacityGroup" "" (Flag "") 3;
  spec "param" "MinInputGroup" "" (Flag "") 4;
  spec "param" "MaxInputGroup" "" (Flag "") 4;
  spec "param" "MinOutputGroup" "" (Flag "") 4;
  spec "param" "MaxOutputGroup" "" (Flag "") 4;
  spec "param" "LinkedTechs" "" (Flag "") 3;
  spec "param" "SegFrac" "" (Flag "") 2;
  spec "param" "DemandSpecificDistribution" "" (Flag "") 4;
  spec "param" "CapacityToActivity" "" (Flag "") 2;
  spec "param" "PlanningReserveMargin" "" (Flag "") 2;
  spec "param" "GlobalDiscountRate" "" (Flag "") 0;
  spec "param" "MyopicBaseyear" "" (Flag "") 0;
  spec "param" "DiscountRate" "" (Flag "") 3;
  spec "param" "EmissionActivity" "" (Flag "") 6;
  spec "param" "EmissionLimit" "" (Flag "") 3;
  spec "param" "Demand" "" (Flag "") 3;
  spec "param" "TechOutputSplit" "" (Flag "") 4;
  spec "param" "TechInputSplit" "" (Flag "") 4;
  spec "param" "TechInputSplitAverage" "" (Flag "") 4;
  spec "param" "MinCapacity" "" (Flag "") 3;
  spec "param" "MaxCapacity" "" (Flag "") 3;
  spec "param" "DiscreteCapacity" "" (Flag "") 1;
  spec "param" "MaxActivity" "" (Flag "") 3;
  spec "param" "MinActivity" "" (Flag "") 3;
  spec "param" "MaxResource" "" (Flag "") 2;
  spec "param" "GrowthRateMax" "" (Flag "") 2;
  spec "param" "GrowthRateSeed" "" (Flag "") 2;
  spec "param" "LifetimeTech" "" (Flag "") 2;
  spec "param" "LifetimeProcess" "" (Flag "") 3;
  spec "param" "LifetimeLoanTech" "" (Flag "") 2;
  spec "param" "CapacityFactor" "" (Flag "") 3;
  spec "param" "CapacityFactorTech" "" (Flag "") 4;
  spec "param" "CapacityFactorProcess" "" (Flag "") 5;
  spec "param" "Efficiency" "" (Flag "") 5;
  spec "param" "ExistingCapacity" "" (Flag "") 3;
  spec "param" "CostInvest" "" (Flag "") 3;
  spec "param" "CostFixed" "" (Flag "") 4;
  spec "param" "CostVariable" "" (Flag "") 4;
  spec "param" "CapacityCredit" "" (Flag "") 4;
  spec "param" "RampUp" "" (Flag "") 2;
  spec "param" "RampDown" "" (Flag "") 2;
  spec "param" "StorageInitFrac" "" (Flag "") 3;
  spec "param" "StorageDuration" "" (Flag "") 2;
  spec "param" "MultiObjectiveSlacked" "" (Flag "") 1;
  spec "param" "EnergyCommodityConcentrationIndex" "" (Flag "") 3;
  spec "param" "TechnologyMaterialSupplyRisk" "" (Flag "") 3;
  spec "param" "MaterialIntensity" "" (Flag "") 4;
  spec "param" "MaxMaterialReserve" "" (Flag "") 2 ].

(** *** Vocabulary for the properties of the exporter *)

(** The statement that [query_table] runs for a table. *)
Definition db_query (p : TableSpec) : query :=
  match t_flag p with
  | Flags _ => SelectWhereFlag (t_name p) ["p"; "pb"; "ps"]
  | Flag fl =>
      if negb (String.eqb fl "") then SelectWhereFlag (t_name p) [fl]
      else SelectAll (t_name p)
  end.

(** The table without the rows whose [scenario] is the text [v], and the
    database in which the tables named in [names] are so purged. *)
Definition purge (v : string) (t : table) : table :=
  match find_column t "scenario" with
  | Ok i =>
      {| columns := columns t;
         rows := filter (fun r => r !! i <> Some (Text v)) (rows t) |}
  | Raise _ => t
  end.

Definition purged (names : list string) (v : string)
  (db : gmap string table) (name : string) : option table :=
  if bool_decide (name ∈ names) then purge v <$> db !! name
  else db !! name.

(** Computations that leave the database as it is. *)
Definition reads {A} (m : io A) : Prop :=
  forall w, store (fst (m w)) = store w.

(** [db'] differs from [db] at most in that some of the tables named in
    [names] have lost their rows of the scenario [v]; and computations
    that change the database no more than so. *)
Definition scoped (names : list string) (v : string)
  (db db' : gmap string table) : Prop :=
  forall name,
    db' !! name = db !! name
    \/ (name ∈ names /\ db' !! name = purge v <$> db !! name).

Definition touches {A} (names : list string) (v : string) (m : io A) : Prop :=
  forall w, scoped names v (store w) (store (fst (m w))).

(** The table and the entry of [table_list] of the example: rows
    [("A", 1)] and [("B", 2)], the [#] after the column of index 1. *)
Definition example_table : table :=
  {| columns := ["tech"; "capacity"];
     rows := [ [Text "A"; Integer 1]; [Text "B"; Integer 2] ] |}.

Definition example_spec : TableSpec :=
  spec "param" "DiscreteCapacity" "" (Flag "") 1.

Definition example_world : world :=
  {| store := {[ "DiscreteCapacity" := example_table ]};
     f := ""; stdout := "" |}.


(** *** The sections for the MGA weights *)

(** [row[0] + '\n']: only a string can be added to a string. *)
Definition text_of (x : cell) : result string :=
  match x with
  | Text s => Ok s
  | _ => Raise TypeError
  end.

Definition write_tech_mga : io unit :=
  lines ← select_column "tech_mga" "tech";
  _ ← write ("set tech_mga :=" ++ nl);
  _ ← for_each lines (fun row =>
        x ← lift (Py.index row 0);
        s ← lift (text_of x);
        write (s ++ nl));
  write (";" ++ nl ++ nl).

Section Sectors.

(** The order in which Python walks through the set built by adding the
    given values one after the other; the language leaves it open. *)
Variable iter_set : list cell -> list cell.

Definition write_tech_sector : io unit :=
  found ← select_column "technologies" "sector";
  let sectors := iter_set (map (fun row => default Null (row !! 0)) found) in
  for_each sectors (fun x =>
    s ← lift (text_of x);
    lines ← select_column_where "technologies" "tech" "sector" s;
    _ ← write ("set tech_" ++ s ++ " :=" ++ nl);
    _ ← for_each lines (fun row =>
          x ← lift (Py.index row 0);
          s ← lift (text_of x);
          write (s ++ nl));
    write (";" ++ nl ++ nl)).

(** *** Names as SQLite matches them

    SQLite finds a table or a column under a name that differs from the
    stored one in the case of ASCII letters only.  In a database [spelt]
    for the tables [names] and the column [col], a table that SQLite
    finds under one of the names is stored under that very name, and a
    column of it that SQLite finds under [col] is named [col]: there the
    statements on these names find what the look-ups of this model
    find. *)

Definition lower_char (c : ascii) : ascii :=
  if Py.between 65 90 c then ascii_of_nat (Py.code c + 32) else c.

Fixpoint lower (s : string) : string :=
  match s with
  | EmptyString => EmptyString
  | String c s' => String (lower_char c) (lower s')
  end.

Definition same_name (a b : string) : bool :=
  String.eqb (lower a) (lower b).

Definition spelt_table (names : list string) (col : string)
  (name : string) (t : table) : bool :=
  forallb (fun n =>
             implb (same_name name n)
               (String.eqb name n
                && forallb (fun c => implb (same_name c col) (String.eqb c col))
                     (columns t)))
    names.

Definition spelt (names : list string) (col : string)
  (db : gmap string table) : Prop :=
  forall name t, db !! name = Some t -> spelt_table names col name t = true.

(** *** The clean-up for a myopic run *)

(** The tables emptied of the rows of the scenario, in the order of the
    [DELETE] statements. *)
Definition output_tables : list string :=
  [ "Output_CapacityByPeriodAndTech"; "Output_Emissions"; "Output_Costs";
    "Output_Objective"; "Output_VFlow_In"; "Output_VFlow_Out";
    "Output_V_Capacity"; "Output_Curtailment"; "Output_Duals" ].

(** [str(options.scenario)] *)
Definition str_scenario (options : TemoaConfig) : string :=
  default "None" (scenario options).

Definition cleanup (options : TemoaConfig) : io unit :=
  _ ← for_each output_tables (fun name =>
        delete_where name "scenario" (str_scenario options));
  vacuum.

(** *** [db_2_dat] *)

Definition is_method (m : option string) (names : list string) : bool :=
  match m with
  | Some s => existsb (String.eqb s) names
  | None => false
  end.

(** The body of [for table in table_list:]. *)
Definition export_table (table_exist : gset string) (table : TableSpec)
  : io unit :=
  if bool_decide (t_name table ∈ table_exist) then query_table table
  else mret tt.

Definition db_2_dat (options : TemoaConfig) : io unit :=
  _ ← open_w;
  _ ← write ("data ;" ++ nl ++ nl);
  table_exist ← table_names;
  _ ← for_each table_list (export_table table_exist);
  _ ← (if is_method (mga_method options) ["integer"; "random"]
       then write_tech_mga else mret tt);
  _ ← (if is_method (mga_method options) ["normalized"]
       then write_tech_sector else mret tt);
  _ ← (if is_method (mgpa_method options) ["integer"; "random"]
       then write_tech_mga else mret tt);
  _ ← (if is_method (mgpa_method options) ["normalized"]
       then write_tech_sector else mret tt);
  if myopic options then cleanup options else mret tt.

End Sectors.

(** A database with the nine output tables, each with a row of the
    scenario [base] and a row of another, and one input table; and the
    options of a myopic run of [base]. *)
Definition output_example : table :=
  {| columns := ["scenario"; "value"];
     rows := [ [Text "base"; Integer 1]; [Text "other"; Integer 2] ] |}.

Definition myopic_world : world :=
  {| store := <["regions" := {| columns := ["regions"];
                                rows := [ [Text "R1"] ] |}]>
                (list_to_map (map (fun n => (n, output_example))
                                output_tables));
     f := ""; stdout := "" |}.

Definition myopic_options : TemoaConfig :=
  set_scenario (Some "base") (set_myopic true (init "" None)).

End Exporter.

(** ** Further vocabulary *)

Module More.

Import Re Config.

(** The names a technique has gone or will go through, in order: the
    done queue, the current scenario, the pending queue. *)
Definition history (t : technique) (c : TemoaConfig) : list (option string) :=
  (done t c ++ [scenario c] ++ map Some (pending t c))%list.

(** A non-empty string of word characters. *)
Definition wordy (s : string) : Prop :=
  s <> "" /\ Py.forallb_str Py.is_word s = true.

(** The lexer is outside the sweep blocks, or inside one that was
    entered from outside. *)
Definition nesting_ok (lx : Lexer) : Prop :=
  (lexstate lx = INITIAL /\ lexstatestack lx = [])
  \/ (lexstate lx <> INITIAL /\ lexstatestack lx = [INITIAL]
      /\ level lx = Some 1%Z).

(** The switches that a directive without value sets, and the six
    queues. *)
Definition switches (c : TemoaConfig) : list bool :=
  [ saveEXCEL c; saveDUALS c; myopic c; KeepMyopicDBs c; saveTEXTFILE c;
    version c; neos c; tee c; keepPyomoLP c;
    bool_decide (how_to_cite c = Some true) ].

Definition queues (c : TemoaConfig)
  : list (list string) * list (list (option string)) :=
  ([__mga_todo c; __moo_todo c; __mgpa_todo c],
   [__mga_done c; __moo_done c; __mgpa_done c]).

(** What the lexing keeps of an object: the queues, the location of the
    configuration file and the abort flag as they are, and the switches
    that were on. *)
Definition keeps (c c' : TemoaConfig) : Prop :=
  queues c' = queues c
  /\ file_location c' = file_location c
  /\ abort_temoa c' = abort_temoa c
  /\ Forall2 (fun a b : bool => a = true -> b = true)
       (switches c) (switches c').

(** The path ends in one of the extensions of the [--output] rule. *)
Definition output_ext (p : string) : bool :=
  Py.endswith p ".db" || Py.endswith p ".sqlite".

(** [P] holds of each of the 256 characters. *)
Definition all_chars (P : ascii -> bool) : bool :=
  forallb (fun n => P (ascii_of_nat n)) (seq 0 256).

(** A sufficient test that the words of [r] are made of characters of
    the class [q]. *)
Fixpoint only (q : ascii -> bool) (r : regex) : bool :=
  match r with
  | Lit l => Py.forallb_str q l
  | Plus p => all_chars (fun c => implb (p c) (q c))
  | Star p => all_chars (fun c => implb (p c) (q c))
  | PlusLit l => Py.forallb_str q l
  | Alt r1 r2 => only q r1 && only q r2
  | Seq r1 r2 => only q r1 && only q r2
  | WordB => true
  end.

(** A keyword of a rule: not empty, without space and without [=]. *)
Definition plain (k : string) : bool :=
  negb (String.eqb k "")
  && Py.forallb_str (fun c => negb (sep_char c)) k.

(** The errors that the rules raise on the text [w] they matched: a
    [ValueError] on one of the keywords [slack], [c], [slack1] and
    [slack2], one separator or more and a number of one character or
    more that [float] refuses; an [IndexError] on one of the two path
    keywords, one space or more (and no [=]) and a path of one character
    or more. *)
Definition rule_error (w : string) (e : exn) : Prop :=
  (e = ValueError
   /\ exists k sp v,
        w = k ++ sp ++ v
        /\ In k ["slack"; "c"; "slack1"; "slack2"]
        /\ sp <> ""
        /\ Py.forallb_str sep_char sp = true
        /\ v <> ""
        /\ Py.forallb_str dot_digit v = true
        /\ Py.float v = Raise ValueError)
  \/ (e = IndexError
      /\ exists k sp p,
           w = k ++ sp ++ p
           /\ (k = "--path_to_data" \/ k = "--path_to_logs")
           /\ sp <> ""
           /\ Py.forallb_str Py.is_space sp = true
           /\ p <> ""
           /\ Py.forallb_str path_space_char p = true).

(** The span is a piece of [text]: its indices are offsets of [text],
    the first not after the last, and its value is the characters of
    [text] from the first to the last. *)
Definition spanned (text : string) (e : ErrorSpan) : Prop :=
  fst (index e) <= snd (index e)
  /\ snd (index e) < String.length text
  /\ value e
     = Py.str_take (snd (index e) + 1 - fst (index e))
         (Py.str_drop (fst (index e)) text).

(** A repetition of the class [p] cannot go on into [s]. *)
Definition stops (p : ascii -> bool) (s : string) : bool :=
  match s with
  | String c _ => negb (p c)
  | EmptyString => true
  end.

(** The keyword that opens the block of a sweep state. *)
Definition block_keyword (s : state) : string :=
  match s with
  | INITIAL => ""
  | mga => "--mga"
  | moo => "--moo"
  | mgpa => "--mgpa"
  end.

(** An MGA block that asks for four iterations. *)
Definition sample_block : string :=
  "--mga {" ++ String Py.LF (String Py.TAB ("iteration=4" ++
   String Py.LF "}")).

(** A configuration with a switch, a scenario and an output, for the
    examples. *)
Definition sample_text : string :=
  "--saveEXCEL" ++ String Py.LF ("--scenario = run_1" ++
   String Py.LF "--output=out/results.sqlite").

End More.

(** ** The conversion of the inputs that ends [build] *)

Module Conversion.

Import Config.

Section Loop.

(** What the exporter works on (the databases and the files), and
    [db_2_dat(ifile, ofile, self)] on it; [Exporter.db_2_dat] is the
    exporter for one database and one file.  The redirection of the
    standard output and the count written at the end are left out. *)
Context {W : Type}.
Variable export : string -> string -> TemoaConfig -> W -> W * result unit.

(** [l.index(x)]: the first position of [x]. *)
Definition list_index (x : string) (l : list string) : result nat :=
  match list_find (fun y => y = x) l with
  | Some (j, _) => Ok j
  | None => Raise ValueError
  end.

(** [for ifile in self.dot_dat:] from the position [i] on, for at most
    [n] rounds: the iterator reads the list as it is at each round, and
    the assignment replaces the element at the first position of
    [ifile], so that the list keeps its length. *)
Fixpoint convert_from (n i : nat) (c : TemoaConfig) (w : W)
  : W * result TemoaConfig :=
  match n with
  | O => (w, Ok c)
  | S n' =>
      match dot_dat c !! i with
      | None => (w, Ok c)
      | Some ifile =>
          let '(i_name, i_ext) := Py.splitext ifile in
          if negb (String.eqb i_ext ".dat") then
            let ofile := i_name ++ ".dat" in
            match export ifile ofile c w with
            | (w', Ok _) =>
                match list_index ifile (dot_dat c) with
                | Ok j =>
                    convert_from n' (S i)
                      (set_dot_dat (<[j := ofile]> (dot_dat c)) c) w'
                | Raise e => (w', Raise e)
                end
            | (w', Raise e) => (w', Raise e)
            end
          else convert_from n' (S i) c w
      end
  end.

Definition convert (c : TemoaConfig) (w : W) : W * result TemoaConfig :=
  convert_from (List.length (dot_dat c)) 0 c w.

(** *** Vocabulary: the conversion input by input *)

(** The [.dat] file of an input: the input itself when its extension is
    [.dat], its name with [.dat] otherwise. *)
Definition dat_file (p : string) : string :=
  if String.eqb (snd (Py.splitext p)) ".dat" then p
  else fst (Py.splitext p) ++ ".dat".

Definition is_dat (p : string) : bool :=
  String.eqb (snd (Py.splitext p)) ".dat".

(** The inputs of [todo] converted one after the other, [done] being the
    inputs before them, already converted: each input that is not a
    [.dat] file is exported to its [.dat] file and replaced by it. *)
Fixpoint convert_each (done todo : list string) (c : TemoaConfig) (w : W)
  : W * result TemoaConfig :=
  match todo with
  | [] => (w, Ok (set_dot_dat done c))
  | p :: todo' =>
      if is_dat p then convert_each (done ++ [p]) todo' c w
      else
        match export p (dat_file p) (set_dot_dat (done ++ p :: todo') c) w
        with
        | (w', Ok _) => convert_each (done ++ [dat_file p]) todo' c w'
        | (w', Raise e) => (w', Raise e)
        end
  end.

End Loop.

End Conversion.

(** ** [build] *)

Module Building.

Import Config Conversion.

(** What [build] writes besides the object: the text that its
    statements send to [sys.stderr] and the path of the log file that it
    opened. *)
Record outputs : Type := {
  stderr : string;
  log_path : option string
}.

Definition say (s : string) (o : outputs) : outputs :=
  {| stderr := stderr o ++ s; log_path := log_path o |}.

Definition nl : string := String Py.LF "".

(** ['-'*width] *)
Definition rule_line : string := "-------------------------".

(** ["Line {} to {}: '{}'\n".format(e['line'][0], e['line'][1],
    e['value'])] *)
Definition error_line (e : ErrorSpan) : string :=
  "Line " ++ Py.str_nat (fst (line e)) ++ " to " ++ Py.str_nat (snd (line e))
  ++ ": '" ++ value e ++ "'" ++ nl.

Definition error_msg (errors : list ErrorSpan) : string :=
  nl ++ "Illegal character(s) in config file:" ++ nl
  ++ rule_line ++ nl
  ++ String.concat "" (map error_line errors)
  ++ rule_line ++ nl.

Section Build.

Variable cwd : string.

(** The file system.  [isfile p] says whether [p] is an existing regular
    file.  [read p] is the outcome of the two attempts to read the file
    at [p]: its text, as handed to the lexer, or the exception of the
    second attempt.  [open_w p] is the exception that [open(p, "w")]
    raises, if any, and [write_log p msg] the exception, if any, of
    writing [msg] to the file opened at [p] and closing it.  Writing to
    [sys.stderr] and opening [os.devnull] raise nothing. *)
Variable isfile : string -> bool.
Variable read : string -> result string.
Variable open_w : string -> option exn.
Variable write_log : string -> string -> option exn.

(** What the exporter works on, and [db_2_dat(ifile, ofile, self)] on
    it. *)
Context {W : Type}.
Variable export : string -> string -> TemoaConfig -> W -> W * result unit.

(** [txt_file.write(msg)], [txt_file.close()] and
    [self.abort_temoa = True] *)
Definition write_report (path msg : string) (c : TemoaConfig) (o : outputs)
  : outputs * result TemoaConfig :=
  let o' := {| stderr := stderr o; log_path := Some path |} in
  match write_log path msg with
  | None => (o', Ok (set_abort_temoa true c))
  | Some e => (o', Raise e)
  end.

(** [if self.__error:]: the report of the illegal characters.  The
    first [open] is inside a [try] that catches everything; the second
    is not. *)
Definition report (c : TemoaConfig) (o : outputs)
  : outputs * result TemoaConfig :=
  if bool_decide (__error c = []) then (o, Ok c)
  else
    let msg := error_msg (__error c) in
    let o1 := say msg o in
    let path := path_to_logs c ++ Py.sep ++ "Complete_OutputLog.log" in
    match open_w path with
    | None => write_report path msg c o1
    | Some _ =>
        let o2 :=
          say ("Log file cannot be opened. Please check path. "
               ++ "Trying to find:" ++ nl ++ path_to_logs c ++ " folder" ++ nl)
            o1 in
        match open_w "OutputLog.log" with
        | None => write_report "OutputLog.log" msg c o2
        | Some e => (o2, Raise e)
        end
    end.

(** [db_2_dat] and then [counter += 1]: the counter travels with what
    the exporter works on. *)
Definition counting (ifile ofile : string) (c : TemoaConfig) (wn : W * nat)
  : (W * nat) * result unit :=
  match export ifile ofile c (fst wn) with
  | (w', Ok u) => ((w', S (snd wn)), Ok u)
  | (w', Raise e) => ((w', snd wn), Raise e)
  end.

(** [build(config=...)]: the location of the configuration file, its
    lexing, the report of the illegal characters, the checks, the
    queues, and the conversion of the inputs with the count of the
    conversions written at the end.  While the inputs are converted the
    standard output is [os.devnull]. *)
Definition build (config : option string) (c : TemoaConfig) (w : W)
  : option (outputs * W * result TemoaConfig) :=
  let o0 := {| stderr := ""; log_path := None |} in
  match
    (match config with
     | Some p =>
         if isfile p then Ok (set_file_location (Some (Py.abspath cwd p)) c)
         else Raise (Exception ("No such file exists: " ++ p))
     | None => Ok c
     end)
  with
  | Raise e => Some (o0, w, Raise e)
  | Ok c0 =>
      match
        (if truthy_str (file_location c0)
         then match read (default "" (file_location c0)) with
              | Ok text => lex cwd text c0
              | Raise e => Some (Raise e)
              end
         else Some (Ok (c0, new_lexer)))
      with
      | None => None
      | Some (Raise e) => Some (o0, w, Raise e)
      | Some (Ok (c1, _)) =>
          match report c1 o0 with
          | (o1, Raise e) => Some (o1, w, Raise e)
          | (o1, Ok c2) =>
              match (_ ← validate isfile c2; populate c2) with
              | Raise e => Some (o1, w, Raise e)
              | Ok c3 =>
                  match convert counting c3 (w, 0) with
                  | (wn, Raise e) => Some (o1, fst wn, Raise e)
                  | (wn, Ok c4) =>
                      let o2 :=
                        if (0 <? snd wn)%nat
                        then say (nl ++ Py.str_nat (snd wn)
                                  ++ " .db DD file(s) converted" ++ nl ++ nl)
                               o1
                        else o1 in
                      Some (o2, fst wn, Ok c4)
                  end
              end
          end
      end
  end.

End Build.

End Building.

Module MoreExporter.

Import Config Exporter.

(** The strings of [l] one after the other. *)
Definition joined (l : list string) : string := foldr String.append "" l.

(** The world with the database [db], an empty file and nothing printed,
    and what a computation run on it writes to the file and prints. *)
Definition blank (db : gmap string table) : world :=
  {| store := db; f := ""; stdout := "" |}.

Definition text {A} (m : io A) (db : gmap string table) : string :=
  f (fst (m (blank db))).

Definition echo {A} (m : io A) (db : gmap string table) : string :=
  stdout (fst (m (blank db))).

(** Computations that use the file and the standard output only to add
    text at their end: what they add, what they do to the database and
    how they end depend on the database alone. *)
Definition appends {A} (m : io A) : Prop :=
  forall w,
    m w = ({| store := store (fst (m (blank (store w))));
              f := f w ++ text m (store w);
              stdout := stdout w ++ echo m (store w) |},
           snd (m (blank (store w)))).

(** The name under which [query_table] writes a table, its header line
    and the line of one row. *)
Definition dat_name (p : TableSpec) : string :=
  match t_flag p with
  | Flags _ => t_dtname p
  | Flag fl => if negb (String.eqb fl "") then t_dtname p else t_name p
  end.

Definition header (p : TableSpec) : string :=
  (if String.eqb (t_type p) "set" then "set " else "param ")
  ++ dat_name p ++ " := " ++ nl.

Definition row_text (p : TableSpec) (line : list cell) : string :=
  if (t_index p =? 0)%nat then str_cell (default Null (line !! 0)) ++ nl
  else format_row (t_index p) line.

(** The characters that [query_table] takes out of the rows of a table
    whose index is not 0. *)
Definition punctuation (c : ascii) : bool :=
  Ascii.eqb c "(" || Ascii.eqb c ")" || Ascii.eqb c "," || Ascii.eqb c "'".

(** The sections that the two weighting methods add to the file. *)
Definition method_sections (iter_set : list cell -> list cell)
  (m : option string) (db : gmap string table) : string :=
  (if is_method m ["integer"; "random"] then text write_tech_mga db else "")
  ++ (if is_method m ["normalized"]
      then text (write_tech_sector iter_set) db else "").

End MoreExporter.

(** * Properties *)

(** ** The scenario queues *)

Module Queues.

Import Config.

(** The attribute assignments used by the queues change the attribute
    they name and no other that the queues read. *)
Lemma setters_read_back (c : TemoaConfig) (s : option string)
  (l : list string) (d : list (option string)) :
  scenario (set_scenario s c) = s
  /\ __mgpa_todo (set_scenario s c) = __mgpa_todo c
  /\ __mgpa_done (set_scenario s c) = __mgpa_done c
  /\ __mgpa_todo (set_mgpa_todo l c) = l
  /\ scenario (set_mgpa_todo l c) = scenario c
  /\ __mgpa_done (set_mgpa_done d c) = d
  /\ scenario (set_mgpa_done d c) = scenario c
  /\ __mga_todo (set_mga_todo l c) = l
  /\ __moo_todo (set_moo_todo l c) = l.
Proof. repeat split; reflexivity. Qed.

Lemma calls_exhausted t n c :
  pending t c = [] -> calls t n c = c.
Proof.
  intros Hp. induction n as [|n IH]; [reflexivity|].
  simpl. destruct t; simpl in *; unfold next_mga, next_moo, next_mgpa;
    rewrite Hp; exact IH.
Qed.

(** C1: [next_mga], [next_moo] and [next_mgpa] move the current scenario
    to the done queue of their technique and take the first pending name
    as the new scenario, returning [True], when a name is pending; with
    nothing pending they return [False] and change nothing, however often
    they are called. *)
Theorem advance_contract (t : technique) (c : TemoaConfig) :
  match pending t c with
  | name :: rest =>
      fst (advance t c) = true
      /\ done t (snd (advance t c)) = (done t c ++ [scenario c])%list
      /\ pending t (snd (advance t c)) = rest
      /\ scenario (snd (advance t c)) = Some name
  | [] =>
      forall n, calls t n c = c /\ advance t (calls t n c) = (false, c)
  end.
Proof.
  destruct (pending t c) as [|name rest] eqn:Hp.
  - intros n. rewrite (calls_exhausted t n c Hp). split; [reflexivity|].
    destruct t; simpl in *; unfold next_mga, next_moo, next_mgpa;
      rewrite Hp; reflexivity.
  - destruct t; simpl in *; unfold next_mga, next_moo, next_mgpa;
      rewrite Hp; simpl; auto.
Qed.

(** The loops that fill the queues, when a scenario name is set. *)
Lemma put_mga_ok c base i :
  scenario c = Some base ->
  put_mga i c = Ok (set_mga_todo (__mga_todo c ++ [mga_name base i])%list c).
Proof. intros Hs. unfold put_mga, scenario_plus. rewrite Hs. reflexivity. Qed.

Lemma put_moo_ok c base i :
  scenario c = Some base ->
  put_moo i c = Ok (set_moo_todo (__moo_todo c ++ [cap_name base i])%list c).
Proof. intros Hs. unfold put_moo, scenario_plus. rewrite Hs. reflexivity. Qed.

Lemma put_mgpa_inner_ok c base i j :
  scenario c = Some base ->
  put_mgpa_inner i j c
  = Ok (set_mgpa_todo (__mgpa_todo c ++ [nested_name base i j])%list c).
Proof.
  intros Hs. unfold put_mgpa_inner, scenario_plus. rewrite Hs. reflexivity.
Qed.

Lemma fill_mga c base start n :
  scenario c = Some base ->
  for_range put_mga start n c
  = Ok (set_mga_todo
          (__mga_todo c ++ map (mga_name base) (seq start n))%list c).
Proof.
  revert start c. induction n as [|n IH]; intros start c Hs.
  - destruct c; simpl. rewrite app_nil_r. reflexivity.
  - simpl. rewrite (put_mga_ok c base) by exact Hs. simpl.
    rewrite IH by exact Hs. simpl. rewrite <- app_assoc. reflexivity.
Qed.

Lemma fill_moo c base start n :
  scenario c = Some base ->
  for_range put_moo start n c
  = Ok (set_moo_todo
          (__moo_todo c ++ map (cap_name base) (seq start n))%list c).
Proof.
  revert start c. induction n as [|n IH]; intros start c Hs.
  - destruct c; simpl. rewrite app_nil_r. reflexivity.
  - simpl. rewrite (put_moo_ok c base) by exact Hs. simpl.
    rewrite IH by exact Hs. simpl. rewrite <- app_assoc. reflexivity.
Qed.

Lemma fill_mgpa_inner c base i start n :
  scenario c = Some base ->
  for_range (put_mgpa_inner i) start n c
  = Ok (set_mgpa_todo
          (__mgpa_todo c ++ map (nested_name base i) (seq start n))%list c).
Proof.
  revert start c. induction n as [|n IH]; intros start c Hs.
  - destruct c; simpl. rewrite app_nil_r. reflexivity.
  - simpl. rewrite (put_mgpa_inner_ok c base) by exact Hs. simpl.
    rewrite IH by exact Hs. simpl. rewrite <- app_assoc. reflexivity.
Qed.

Lemma put_mgpa_names c base i iteration :
  scenario c = Some base -> mgpa_iter c = Some iteration -> 1 <= iteration ->
  put_mgpa i c
  = Ok (set_mgpa_todo
          (__mgpa_todo c
           ++ cap_name base i :: map (nested_name base i) (seq 0 iteration))%list
          c).
Proof.
  intros Hs Hi Hpos. unfold put_mgpa, scenario_plus. rewrite Hs. simpl.
  rewrite Hi. simpl.
  destruct iteration as [|k]; [lia|].
  change (negb (S k =? 0)%nat) with true. cbv iota.
  rewrite (fill_mgpa_inner _ base) by exact Hs.
  simpl. rewrite <- app_assoc. reflexivity.
Qed.

Lemma fill_mgpa c base iteration start n :
  scenario c = Some base -> mgpa_iter c = Some iteration -> 1 <= iteration ->
  for_range put_mgpa start n c
  = Ok (set_mgpa_todo
          (__mgpa_todo c
           ++ flat_map (fun i => cap_name base i
                                 :: map (nested_name base i) (seq 0 iteration))
                (seq start n))%list
          c).
Proof.
  revert start c. induction n as [|n IH]; intros start c Hs Hi Hpos.
  - destruct c; simpl. rewrite app_nil_r. reflexivity.
  - simpl for_range. rewrite (put_mgpa_names c base start iteration) by assumption.
    simpl. rewrite (IH (S start)) by assumption.
    simpl. rewrite <- app_assoc. reflexivity.
Qed.

Lemma mgpa_names_length base ncaps iteration :
  List.length (mgpa_names base ncaps iteration) = ncaps * (1 + iteration).
Proof.
  unfold mgpa_names. generalize 0 at 2. induction ncaps as [|n IH]; intros s.
  - reflexivity.
  - simpl. rewrite length_app, length_map, length_seq, IH. lia.
Qed.

Lemma populate_unnamed c :
  scenario c = None ->
  truthy_nat (mgpa_ncaps c) = true ->
  populate c = Raise TypeError.
Proof.
  intros Hs Hn. unfold populate.
  destruct (mga_iter c) as [[|n]|] eqn:E1; simpl;
    try (unfold put_mga, scenario_plus; rewrite Hs; reflexivity);
    (destruct (moo_ncaps c) as [[|m]|] eqn:E2; simpl;
     try (unfold put_moo, scenario_plus; rewrite Hs; reflexivity);
     (destruct (mgpa_ncaps c) as [[|k]|] eqn:E3; simpl;
      try (unfold put_mgpa, scenario_plus; rewrite Hs; reflexivity);
      discriminate Hn)).
Qed.

(** C2, where it fails: the names are built from the scenario name, and
    an object without one, which the checks of [build] let through for
    [.dat] inputs, has no name added to its queue: with two caps and
    three iterations the filling raises [TypeError] at the first name
    instead of queueing eight. *)
Lemma mgpa_population_needs_scenario : ~ mgpa_always_populated.
Proof.
  intros H.
  destruct (H (set_dot_dat ["/w/a.dat"]
                 (set_mgpa_ncaps (Some 2)
                    (set_mgpa_iter (Some 3) (init "" None))))
              2 3 eq_refl eq_refl) as (c' & Hp & _); [lia..|].
  vm_compute in Hp. discriminate Hp.
Qed.

(** C2, amended: with [ncaps] and [iteration] at least 1 and a scenario
    name set, [build] appends to the pending queue of MGPA, for each cap
    in turn, the name of the cap and then the names of its iterations:
    [ncaps * (1 + iteration)] names; eight for two caps and three
    iterations.  Without a scenario name the filling raises [TypeError]
    and queues nothing. *)
Theorem mgpa_population (c : TemoaConfig) (ncaps iteration : nat) :
  mgpa_ncaps c = Some ncaps ->
  mgpa_iter c = Some iteration ->
  1 <= ncaps ->
  1 <= iteration ->
  (forall base,
     scenario c = Some base ->
     exists c', populate c = Ok c'
       /\ __mgpa_todo c'
          = (__mgpa_todo c ++ mgpa_names base ncaps iteration)%list)
  /\ (scenario c = None -> populate c = Raise TypeError)
  /\ (forall base,
        List.length (mgpa_names base ncaps iteration)
        = ncaps * (1 + iteration))
  /\ (forall base,
        mgpa_names base 2 3
        = [ base ++ "_moo_0"; base ++ "_moo_0_mga_0"; base ++ "_moo_0_mga_1";
            base ++ "_moo_0_mga_2"; base ++ "_moo_1"; base ++ "_moo_1_mga_0";
            base ++ "_moo_1_mga_1"; base ++ "_moo_1_mga_2" ]).
Proof.
  intros Hn Hi Hncaps Hiter. split; [|split; [|split]].
  - intros base Hs. unfold populate.
    set (c1 := if truthy_nat (mga_iter c)
               then for_range put_mga 0 (default 0 (mga_iter c)) c else Ok c).
    assert (H1 : exists l, c1 = Ok (set_mga_todo l c)).
    { subst c1. destruct (truthy_nat (mga_iter c)).
      - rewrite (fill_mga c base) by exact Hs. eauto.
      - exists (__mga_todo c). destruct c; reflexivity. }
    destruct H1 as [l1 ->]. simpl.
    set (c' := set_mga_todo l1 c).
    set (c2 := if truthy_nat (moo_ncaps c)
               then for_range put_moo 0 (default 0 (moo_ncaps c)) c'
               else Ok c').
    assert (H2 : exists l, c2 = Ok (set_moo_todo l c')).
    { subst c2. destruct (truthy_nat (moo_ncaps c)).
      - rewrite (fill_moo c' base) by exact Hs. eauto.
      - exists (__moo_todo c'). destruct c; reflexivity. }
    destruct H2 as [l2 ->]. simpl.
    rewrite Hn. simpl.
    destruct ncaps as [|k]; [lia|].
    change (negb (S k =? 0)%nat) with true. cbv iota.
    rewrite (fill_mgpa _ base iteration) by assumption.
    eexists. split; [reflexivity|]. reflexivity.
  - intros Hs. apply populate_unnamed; [exact Hs|]. rewrite Hn.
    destruct ncaps; [lia|reflexivity].
  - intros base. apply mgpa_names_length.
  - reflexivity.
Qed.

(** The population at two caps and three iterations on a fresh object
    whose scenario is [base]. *)
Lemma mgpa_population_witness :
  let c := set_scenario (Some "base")
             (set_mgpa_ncaps (Some 2)
                (set_mgpa_iter (Some 3) (init "/data" None))) in
  exists c', populate c = Ok c'
     /\ __mgpa_todo c'
        = [ "base_moo_0"; "base_moo_0_mga_0"; "base_moo_0_mga_1";
            "base_moo_0_mga_2"; "base_moo_1"; "base_moo_1_mga_0";
            "base_moo_1_mga_1"; "base_moo_1_mga_2" ].
Proof.
  intros c.
  destruct (mgpa_population c 2 3) as (H & _); [reflexivity..|lia|lia|].
  destruct (H "base" eq_refl) as (c' & Hp & Hq).
  exists c'. split; [exact Hp|]. rewrite Hq. reflexivity.
Defined.

End Queues.

(** ** Strings and regular expressions *)

Module StrFacts.

Lemma append_nil_r (s : string) : s ++ "" = s.
Proof. induction s as [|c s IH]; simpl; congruence. Qed.

Lemma append_assoc (a b c : string) : (a ++ b) ++ c = a ++ (b ++ c).
Proof. induction a as [|x a IH]; simpl; congruence. Qed.

Lemma length_append (a b : string) :
  String.length (a ++ b) = String.length a + String.length b.
Proof. induction a as [|x a IH]; simpl; congruence. Qed.

Lemma str_take_app (w rest : string) :
  Py.str_take (String.length w) (w ++ rest) = w.
Proof.
  induction w as [|x w IH]; simpl; [destruct rest; reflexivity | congruence].
Qed.

Lemma str_take_matched (w rest : string) :
  Py.str_take (String.length (w ++ rest) - String.length rest) (w ++ rest) = w.
Proof.
  rewrite length_append.
  replace (String.length w + String.length rest - String.length rest)
    with (String.length w) by lia.
  apply str_take_app.
Qed.

Lemma forallb_str_app p (a b : string) :
  Py.forallb_str p (a ++ b) = Py.forallb_str p a && Py.forallb_str p b.
Proof.
  induction a as [|x a IH]; simpl; [reflexivity|].
  rewrite IH. apply andb_assoc.
Qed.

Lemma existsb_str_app p (a b : string) :
  Py.existsb_str p (a ++ b) = Py.existsb_str p a || Py.existsb_str p b.
Proof.
  induction a as [|x a IH]; [reflexivity|].
  cbn [String.append Py.existsb_str]. rewrite IH. apply orb_assoc.
Qed.


Lemma forallb_str_impl (p q : ascii -> bool) (s : string) :
  (forall c, p c = true -> q c = true) ->
  Py.forallb_str p s = true -> Py.forallb_str q s = true.
Proof.
  intros Hpq. induction s as [|x s IH]; simpl; [reflexivity|].
  intros [Hx Hs]%andb_prop. rewrite (Hpq _ Hx), (IH Hs). reflexivity.
Qed.

End StrFacts.

Module ReFacts.

Import Re StrFacts.

Lemma lit_sound l : forall prev s k out,
  lit l prev s k = Some out ->
  exists rest prev', s = l ++ rest /\ k prev' rest = Some out.
Proof.
  induction l as [|c l IH]; intros prev s k out H; simpl in H.
  - exists s, prev. auto.
  - destruct s as [|d s]; [discriminate|].
    destruct (Ascii.eqb c d) eqn:E; [|discriminate].
    apply Ascii.eqb_eq in E. subst d.
    destruct (IH _ _ _ _ H) as (rest & prev' & -> & Hk).
    exists rest, prev'. auto.
Qed.

Lemma plus_sound p : forall s k out,
  plus p s k = Some out ->
  exists w rest prev',
    s = w ++ rest /\ w <> "" /\ Py.forallb_str p w = true
    /\ k prev' rest = Some out.
Proof.
  induction s as [|c s IH]; intros k out H; simpl in H; [discriminate|].
  destruct (p c) eqn:Hc; [|discriminate].
  destruct (plus p s k) as [out'|] eqn:Hrec.
  - injection H as <-.
    destruct (IH _ _ Hrec) as (w & rest & prev' & -> & _ & Hall & Hk).
    exists (String c w), rest, prev'. simpl. rewrite Hc, Hall. auto.
  - exists (String c ""), s, (Some c). simpl. rewrite Hc. auto.
Qed.

Lemma strip_sound l : forall s s', strip l s = Some s' -> s = l ++ s'.
Proof.
  induction l as [|c l IH]; intros s s' H; simpl in H.
  - destruct s; injection H as <-; reflexivity.
  - destruct s as [|d s]; [discriminate|].
    destruct (Ascii.eqb c d) eqn:E; [|discriminate].
    apply Ascii.eqb_eq in E. subst d. simpl. f_equal. auto.
Qed.

Lemma pluslit_sound l : forall fuel s k out,
  pluslit fuel l s k = Some out ->
  exists w rest prev',
    s = w ++ rest /\ lang (PlusLit l) w /\ k prev' rest = Some out.
Proof.
  induction fuel as [|fuel IH]; intros s k out H; simpl in H; [discriminate|].
  destruct (strip l s) as [s'|] eqn:Hs; [|discriminate].
  apply strip_sound in Hs. subst s.
  destruct (pluslit fuel l s' k) as [out'|] eqn:Hrec.
  - injection H as <-.
    destruct (IH _ _ _ Hrec) as (w & rest & prev' & -> & Hw & Hk).
    exists (l ++ w), rest, prev'. rewrite append_assoc.
    split; [reflexivity|]. split; [constructor; exact Hw | exact Hk].
  - exists l, s', (last_char None l).
    split; [reflexivity|]. split; [constructor | exact H].
Qed.

(** Whatever [rmatch] consumes is a word of the expression. *)
Lemma rmatch_sound r : forall prev s k out,
  rmatch r prev s k = Some out ->
  exists w rest prev', s = w ++ rest /\ lang r w /\ k prev' rest = Some out.
Proof.
  induction r as [l|p|p|l|r1 IH1 r2 IH2|r1 IH1 r2 IH2|];
    intros prev s k out H; simpl in H.
  - destruct (lit_sound _ _ _ _ _ H) as (rest & prev' & -> & Hk).
    exists l, rest, prev'. split; [reflexivity|]. split; [constructor|exact Hk].
  - destruct (plus_sound _ _ _ _ H) as (w & rest & prev' & -> & Hne & Hall & Hk).
    exists w, rest, prev'. split; [reflexivity|].
    split; [constructor; assumption | exact Hk].
  - unfold star in H. destruct (plus p s k) as [out'|] eqn:Hrec.
    + injection H as <-.
      destruct (plus_sound _ _ _ _ Hrec)
        as (w & rest & prev' & -> & Hne & Hall & Hk).
      exists w, rest, prev'. split; [reflexivity|].
      split; [constructor; assumption | exact Hk].
    + exists "", s, prev. split; [reflexivity|].
      split; [constructor; reflexivity | exact H].
  - apply pluslit_sound in H. exact H.
  - destruct (rmatch r1 prev s k) as [out'|] eqn:H1.
    + injection H as <-.
      destruct (IH1 _ _ _ _ H1) as (w & rest & prev' & -> & Hw & Hk).
      exists w, rest, prev'. split; [reflexivity|].
      split; [apply lang_alt_l; exact Hw | exact Hk].
    + destruct (IH2 _ _ _ _ H) as (w & rest & prev' & -> & Hw & Hk).
      exists w, rest, prev'. split; [reflexivity|].
      split; [apply lang_alt_r; exact Hw | exact Hk].
  - destruct (IH1 _ _ _ _ H) as (w1 & rest1 & prev1 & -> & Hw1 & H2).
    destruct (IH2 _ _ _ _ H2) as (w2 & rest & prev2 & -> & Hw2 & Hk).
    exists (w1 ++ w2), rest, prev2. rewrite append_assoc.
    split; [reflexivity|]. split; [constructor; assumption | exact Hk].
  - destruct (at_boundary prev s); [|discriminate].
    exists "", s, prev. split; [reflexivity|]. split; [constructor | exact H].
Qed.

Lemma match_sound r prev s rest :
  match_ r prev s = Some rest -> exists w, s = w ++ rest /\ lang r w.
Proof.
  unfold match_. intros H.
  destruct (rmatch_sound _ _ _ _ _ H) as (w & rest' & prev' & -> & Hw & Hk).
  injection Hk as ->. eauto.
Qed.

Lemma append_empty (a b : string) : a ++ b = "" -> a = "" /\ b = "".
Proof. destruct a; simpl; [auto | discriminate]. Qed.

(** An expression that PLY accepts as a rule has no empty word. *)
Lemma nonnull_sound r w : nonnull r = true -> lang r w -> w <> "".
Proof.
  intros Hn Hw. induction Hw; simpl in Hn.
  - intros ->. discriminate Hn.
  - assumption.
  - discriminate.
  - intros ->. discriminate Hn.
  - intros [-> _]%append_empty. discriminate Hn.
  - apply andb_prop in Hn as [H1 _]. auto.
  - apply andb_prop in Hn as [_ H2]. auto.
  - intros [E1 E2]%append_empty.
    apply orb_prop in Hn as [H|H]; [exact (IHHw1 H E1) | exact (IHHw2 H E2)].
  - discriminate.
Qed.

End ReFacts.

(** ** The token loop *)

Module LexerFacts.

Import Re Config StrFacts ReFacts.

Section Loop.

Variable cwd : string.

Lemma first_match_sound rs prev s f rest :
  first_match rs prev s = Some (f, rest) ->
  exists r, In (r, f) rs /\ match_ r prev s = Some rest.
Proof.
  induction rs as [|[r g] rs IH]; simpl; [discriminate|].
  destruct (match_ r prev s) as [rest'|] eqn:Hm.
  - intros [= <- <-]. exists r. auto.
  - intros H. destruct (IH H) as (r' & Hin & Hr). exists r'. auto.
Qed.

Lemma rules_nonnull s r f : In (r, f) (rules cwd s) -> nonnull r = true.
Proof.
  intros Hin.
  assert (H : forallb (fun rf => nonnull (fst rf)) (rules cwd s) = true)
    by (destruct s; reflexivity).
  rewrite forallb_forall in H. exact (H _ Hin).
Qed.

(** A rule that matches takes a non-empty word off the input. *)
Lemma first_match_word s prev rest f after :
  first_match (rules cwd s) prev rest = Some (f, after) ->
  exists r w, In (r, f) (rules cwd s) /\ lang r w /\ w <> ""
              /\ rest = w ++ after.
Proof.
  intros H. destruct (first_match_sound _ _ _ _ _ H) as (r & Hin & Hm).
  destruct (match_sound _ _ _ _ Hm) as (w & -> & Hw).
  exists r, w. repeat split; try assumption.
  exact (nonnull_sound _ _ (rules_nonnull _ _ _ Hin) Hw).
Qed.

Lemma word_shortens (w after : string) :
  w <> "" -> String.length after < String.length (w ++ after).
Proof.
  intros Hw. rewrite length_append. destruct w; [congruence | simpl; lia].
Qed.

(** The loop never runs out of fuel when given more than the length of
    the input. *)
Lemma token_total : forall fuel prev rest c lx,
  String.length rest < fuel -> token cwd fuel prev rest c lx <> None.
Proof.
  induction fuel as [|fuel IH]; intros prev rest c lx Hlen; [lia|].
  simpl. destruct rest as [|ch rest']; [discriminate|].
  simpl in Hlen.
  destruct (in_string ch lexignore).
  - apply IH. lia.
  - destruct (first_match (rules cwd (lexstate lx)) prev (String ch rest'))
      as [[func after]|] eqn:Hfm.
    + destruct (first_match_word _ _ _ _ _ Hfm) as (r & w & _ & _ & Hne & Heq).
      destruct (func _ _) as [[c' lx']|e]; [|discriminate].
      apply IH.
      pose proof (word_shortens w after Hne) as Hs.
      rewrite <- Heq in Hs. simpl in Hs. lia.
    + apply IH. lia.
Qed.

Lemma lex_total text c : lex cwd text c <> None.
Proof. unfold lex. apply token_total. lia. Qed.

(** An invariant of the object and the lexer that is kept by the skipping
    of an ignored character, by every rule on a word of its expression
    and by the recording of an illegal character holds when the loop
    ends. *)
Lemma token_invariant (Inv : TemoaConfig -> Lexer -> Prop) :
  (forall c lx, Inv c lx -> Inv c (set_lexpos (lexpos lx + 1) lx)) ->
  (forall r f tok c lx c' lx',
     In (r, f) (rules cwd (lexstate lx)) ->
     lang r (tok_value tok) ->
     tok_value tok <> "" ->
     tok_lineno tok = lineno lx ->
     tok_lexpos tok = lexpos lx ->
     Inv c lx ->
     f tok (c, set_lexpos (lexpos lx + String.length (tok_value tok)) lx)
     = Ok (c', lx') ->
     Inv c' lx') ->
  (forall tok c lx,
     tok_lineno tok = lineno lx ->
     tok_lexpos tok = lexpos lx ->
     tok_value tok <> "" ->
     Inv c lx ->
     Inv (set_error (record_error (__error c) tok) c) (skip 1 lx)) ->
  forall fuel prev rest c lx c' lx',
    Inv c lx ->
    token cwd fuel prev rest c lx = Some (Ok (c', lx')) ->
    Inv c' lx'.
Proof.
  intros Hign Hrule Herr.
  induction fuel as [|fuel IH]; intros prev rest c lx c' lx' HI H;
    [discriminate|].
  simpl in H. destruct rest as [|ch rest'].
  - injection H as <- <-. apply Hign, HI.
  - destruct (in_string ch lexignore).
    + eapply IH; [|exact H]. apply Hign, HI.
    + destruct (first_match (rules cwd (lexstate lx)) prev (String ch rest'))
        as [[func after]|] eqn:Hfm.
      * destruct (first_match_word _ _ _ _ _ Hfm)
          as (r & w & Hin & Hw & Hne & Heq).
        rewrite Heq in H. rewrite str_take_matched in H.
        rewrite length_append in H.
        replace (String.length w + String.length after - String.length after)
          with (String.length w) in H by lia.
        destruct (func _ _) as [[c1 lx1]|e] eqn:Hf; [|discriminate].
        eapply IH; [|exact H].
        apply (Hrule r func
                 {| tok_value := w; tok_lineno := lineno lx;
                    tok_lexpos := lexpos lx |} c lx c1 lx1 Hin);
          simpl; try reflexivity; assumption.
      * eapply IH; [|exact H].
        apply (Herr {| tok_value := String ch rest'; tok_lineno := lineno lx;
                       tok_lexpos := lexpos lx |});
          simpl; try reflexivity; try assumption. discriminate.
Qed.

(** What a rule may change: no rule touches the recorded errors or the
    position, and only [t_dot_dat] touches the input files, by appending
    the absolute form of the second field of its token. *)
Ltac unfold_actions H :=
  unfold t_ANY_COMMENT, t_dot_dat, t_output, t_scenario, t_saveEXCEL,
    t_saveDUALS, t_myopic, t_myopic_periods, t_keep_myopic_databases,
    t_saveTEXTFILE, t_path_to_data, t_path_to_logs, t_how_to_cite, t_version,
    t_neos, t_solver, t_method, t_threads, t_tee, t_keep_pyomo_lp_file,
    t_begin_mga, t_mga_mgaslack, t_mga_mgaiter, t_mga_mgamethod, t_mga_end,
    t_begin_moo, t_moo_moof1, t_moo_moof2, t_moo_mooc, t_moo_mooncaps,
    t_moo_end, t_begin_mgpa, t_mgpa_mgpaf1, t_mgpa_mgpaf2, t_mgpa_mgpac,
    t_mgpa_mgpancaps, t_mgpa_mgpaslack1, t_mgpa_mgpaslack2, t_mgpa_mgpaiter,
    t_mgpa_mgpamethod, t_mgpa_end, t_ANY_newline, begin_block, end_block
    in H.

Ltac run_action H :=
  unfold_actions H;
  repeat match type of H with
    | context [mbind _ ?m] =>
        let E := fresh "E" in destruct m eqn:E; simpl in H; try discriminate H
    | context [match ?m with _ => _ end] =>
        let E := fresh "E" in destruct m eqn:E; simpl in H; try discriminate H
    end.

Lemma pop_state_lexpos lx lx' :
  pop_state lx = Ok lx' -> lexpos lx' = lexpos lx.
Proof.
  unfold pop_state. destruct (last (lexstatestack lx)); [|discriminate].
  intros [= <-]. reflexivity.
Qed.

Lemma rules_frame s r f tok c lx c' lx' :
  In (r, f) (rules cwd s) ->
  f tok (c, lx) = Ok (c', lx') ->
  __error c' = __error c
  /\ lexpos lx' = lexpos lx
  /\ (dot_dat c' = dot_dat c
      \/ (r = r_dot_dat
          /\ exists v, field1 tok = Ok v
               /\ dot_dat c' = (dot_dat c ++ [Py.abspath cwd v])%list)).
Proof.
  intros Hin H.
  destruct s; simpl in Hin;
    repeat (destruct Hin as [Hin|Hin]; [injection Hin as <- <-|]);
    try contradiction;
    run_action H; injection H as <- <-;
    (split; [reflexivity|]);
    (split; [first [ reflexivity
                   | simpl; eapply pop_state_lexpos; eassumption ]|]);
    first [ left; reflexivity | right; split; [reflexivity|]; eauto ].
Qed.

End Loop.

End LexerFacts.

(** ** The recorded errors *)

Module Errors.

Import Re Config StrFacts ReFacts LexerFacts.

Lemma offset_test (p q : nat) :
  (Z.of_nat p - Z.of_nat q =? 1)%Z = true <-> p = q + 1.
Proof. rewrite Z.eqb_eq. lia. Qed.

Lemma record_error_first t : record_error [] t = [new_span t].
Proof. reflexivity. Qed.

Lemma record_error_extend es e t :
  tok_lexpos t = snd (index e) + 1 ->
  record_error (es ++ [e]) t = (es ++ [extend_span e t])%list.
Proof.
  intros Hp. unfold record_error. rewrite last_snoc, removelast_last.
  apply offset_test in Hp. rewrite Hp. reflexivity.
Qed.

Lemma record_error_new es e t :
  tok_lexpos t <> snd (index e) + 1 ->
  record_error (es ++ [e]) t = (es ++ [e; new_span t])%list.
Proof.
  intros Hp. unfold record_error. rewrite last_snoc.
  destruct (Z.of_nat (tok_lexpos t) - Z.of_nat (snd (index e)) =? 1)%Z eqn:E.
  - apply offset_test in E. contradiction.
  - rewrite <- app_assoc. reflexivity.
Qed.

Lemma last_cons {A} (l : list A) (x d : A) :
  List.last (x :: l) d = List.last l x.
Proof.
  revert x d. induction l as [|y l IH]; intros x d; [reflexivity|].
  change (List.last (x :: y :: l) d) with (List.last (y :: l) d).
  rewrite !IH. reflexivity.
Qed.

(** A run of characters at contiguous offsets that follows a span already
    begun extends that span up to its last character. *)
Lemma record_run : forall ts es e,
  contiguous (snd (index e)) ts ->
  fold_left record_error ts (es ++ [e])%list
  = (es ++ [ {| line := (fst (line e),
                         match ts with
                         | [] => snd (line e)
                         | t :: ts' => tok_lineno (List.last ts' t)
                         end);
                index := (fst (index e),
                          match ts with
                          | [] => snd (index e)
                          | t :: ts' => tok_lexpos (List.last ts' t)
                          end);
                value := value e ++ String.concat "" (map first_char ts) |} ])%list.
Proof.
  induction ts as [|t ts IH]; intros es e Hc.
  - simpl. rewrite append_nil_r. destruct e as [[l1 l2] [i1 i2] v]. reflexivity.
  - destruct Hc as [Hp Hc]. simpl fold_left.
    rewrite record_error_extend by lia.
    rewrite IH by (simpl; rewrite Hp; exact Hc).
    do 2 f_equal. destruct ts as [|t' ts'].
    + simpl. rewrite append_nil_r. reflexivity.
    + rewrite !last_cons.
      change (String.concat "" (map first_char (t :: t' :: ts')))
        with (first_char t ++ String.concat "" (map first_char (t' :: ts'))).
      simpl value. rewrite append_assoc. reflexivity.
Qed.

Lemma span_covers_new t : tok_value t <> "" -> span_covers (new_span t).
Proof.
  intros Hv. unfold span_covers, new_span. simpl.
  destruct (tok_value t) as [|ch rest]; [congruence|]. simpl. lia.
Qed.

Lemma span_covers_extend e t :
  tok_value t <> "" -> tok_lexpos t = snd (index e) + 1 ->
  span_covers e -> span_covers (extend_span e t).
Proof.
  unfold span_covers, extend_span. simpl. intros Hv Hp He.
  rewrite length_append.
  destruct (tok_value t) as [|ch rest]; [congruence|]. simpl. lia.
Qed.

Lemma spans_apart_snoc es e e' :
  spans_apart (es ++ [e]) -> snd (index e) + 1 < fst (index e') ->
  spans_apart (es ++ [e; e']).
Proof.
  induction es as [|x es IH]; simpl; intros H Hlt.
  - auto.
  - destruct H as [Hx Hrest]. split; [|auto].
    destruct es as [|y es]; simpl in *; assumption.
Qed.

Lemma spans_apart_last es e e' :
  spans_apart (es ++ [e]) -> fst (index e') = fst (index e) ->
  spans_apart (es ++ [e']).
Proof.
  induction es as [|x es IH]; simpl; intros H Heq.
  - auto.
  - destruct H as [Hx Hrest]. split; [|auto].
    destruct es as [|y es]; simpl in *; [rewrite Heq|]; assumption.
Qed.

Lemma errors_inv_record tok c lx :
  tok_lexpos tok = lexpos lx -> tok_value tok <> "" ->
  errors_inv c lx ->
  errors_inv (set_error (record_error (__error c) tok) c) (skip 1 lx).
Proof.
  intros Hp Hv [[Hcov Hapart] Hlast].
  unfold errors_inv.
  change (__error (set_error (record_error (__error c) tok) c))
    with (record_error (__error c) tok).
  change (lexpos (skip 1 lx)) with (lexpos lx + 1).
  destruct (last (__error c)) as [e|] eqn:Hl.
  - apply last_Some in Hl as [es Hes]. rewrite Hes in *.
    specialize (Hlast e eq_refl).
    apply Forall_app in Hcov as [Hces Hce].
    apply Forall_inv in Hce.
    destruct (decide (tok_lexpos tok = snd (index e) + 1)) as [Hadj|Hgap].
    + rewrite record_error_extend by exact Hadj.
      split; [split|].
      * apply Forall_app. split; [exact Hces|].
        constructor; [|constructor].
        apply span_covers_extend; assumption.
      * eapply spans_apart_last; [exact Hapart | reflexivity].
      * intros e' He'. rewrite last_snoc in He'. injection He' as <-.
        simpl. lia.
    + rewrite record_error_new by exact Hgap.
      split; [split|].
      * apply Forall_app. split; [exact Hces|].
        constructor; [exact Hce|]. constructor; [|constructor].
        apply span_covers_new; assumption.
      * apply spans_apart_snoc; [exact Hapart|]. simpl. lia.
      * intros e' He'.
        change (es ++ [e; new_span tok])%list
          with (es ++ [e] ++ [new_span tok])%list in He'.
        rewrite app_assoc, last_snoc in He'. injection He' as <-.
        simpl. lia.
  - apply last_None in Hl. rewrite Hl. simpl.
    split; [split|].
    + constructor; [|constructor]. apply span_covers_new; assumption.
    + simpl. auto.
    + intros e' [= <-]. simpl. lia.
Qed.

(** After lexing, from an object without errors, the spans are well
    formed. *)
Lemma lex_spans_wf cwd text c c' lx' :
  __error c = [] ->
  lex cwd text c = Some (Ok (c', lx')) ->
  spans_wf (__error c').
Proof.
  intros Hnil Hlex.
  assert (HI : errors_inv c' lx'); [|exact (proj1 HI)].
  unfold lex in Hlex.
  refine (token_invariant cwd errors_inv _ _ _ _ _ _ _ _ _ _ _ Hlex).
  - intros c0 lx0 [Hwf Hlast]. split; [exact Hwf|].
    intros e He. specialize (Hlast e He). simpl. lia.
  - intros r f tok c0 lx0 c1 lx1 Hin _ _ _ _ [Hwf Hlast] Hf.
    destruct (rules_frame cwd _ _ _ _ _ _ _ _ Hin Hf) as (He & Hpos & _).
    unfold errors_inv. rewrite He, Hpos. split; [exact Hwf|].
    intros e Hl. specialize (Hlast e Hl). simpl. lia.
  - intros tok c0 lx0 _ Hp Hv HI. apply errors_inv_record; assumption.
  - unfold errors_inv. rewrite Hnil. split; [split; simpl; auto|].
    intros e He. discriminate He.
Qed.

Lemma record_error_starts errors t :
  (forall e, last errors = Some e -> tok_lexpos t <> snd (index e) + 1) ->
  record_error errors t = (errors ++ [new_span t])%list.
Proof.
  intros Hgap. destruct (last errors) as [e|] eqn:Hl.
  - apply last_Some in Hl as [es ->].
    rewrite record_error_new by (apply Hgap; reflexivity).
    rewrite <- app_assoc. reflexivity.
  - apply last_None in Hl as ->. reflexivity.
Qed.

(** C3: an illegal character met by the token loop is passed to
    [t_ANY_error], which opens a span when no error is recorded yet,
    extends the last span when the character is at the offset after it
    and opens a span otherwise; so a run of illegal characters at
    contiguous offsets that does not continue the last span makes one
    span, from the first line and offset to the last, and the spans left
    by lexing a text cover as many offsets as they have characters and
    lie more than one offset apart. *)
Theorem illegal_characters_merge :
  (forall cwd fuel prev ch rest c lx,
     in_string ch lexignore = false ->
     first_match (rules cwd (lexstate lx)) prev (String ch rest) = None ->
     token cwd (S fuel) prev (String ch rest) c lx
     = token cwd fuel (Some ch) rest
         (set_error
            (record_error (__error c)
               {| tok_value := String ch rest; tok_lineno := lineno lx;
                  tok_lexpos := lexpos lx |}) c)
         (skip 1 lx))
  /\ (forall t,
        record_error [] t
        = [ {| line := (tok_lineno t, tok_lineno t);
               index := (tok_lexpos t, tok_lexpos t);
               value := first_char t |} ])
  /\ (forall es e t,
        tok_lexpos t = snd (index e) + 1 ->
        record_error (es ++ [e]) t
        = (es ++ [ {| line := (fst (line e), tok_lineno t);
                      index := (fst (index e), tok_lexpos t);
                      value := value e ++ first_char t |} ])%list)
  /\ (forall es e t,
        tok_lexpos t <> snd (index e) + 1 ->
        record_error (es ++ [e]) t
        = (es ++ [ e;
                   {| line := (tok_lineno t, tok_lineno t);
                      index := (tok_lexpos t, tok_lexpos t);
                      value := first_char t |} ])%list)
  /\ (forall errors t ts,
        (forall e, last errors = Some e ->
                   tok_lexpos t <> snd (index e) + 1) ->
        contiguous (tok_lexpos t) ts ->
        fold_left record_error (t :: ts) errors
        = (errors ++ [run_span t ts])%list)
  /\ (forall cwd text c c' lx',
        __error c = [] ->
        lex cwd text c = Some (Ok (c', lx')) ->
        spans_wf (__error c')).
Proof.
  split; [|split; [|split; [|split; [|split]]]].
  - intros cwd fuel prev ch rest c lx Hign Hnone.
    simpl. rewrite Hign, Hnone. reflexivity.
  - reflexivity.
  - intros es e t Hp. apply record_error_extend, Hp.
  - intros es e t Hp. apply record_error_new, Hp.
  - intros errors t ts Hgap Hc. simpl fold_left.
    rewrite (record_error_starts _ _ Hgap).
    rewrite record_run by exact Hc.
    do 2 f_equal. unfold run_span. simpl line. simpl index. simpl value.
    destruct ts as [|t' ts'].
    + simpl. rewrite append_nil_r. reflexivity.
    + rewrite !last_cons. reflexivity.
  - intros cwd text c c' lx'. apply lex_spans_wf.
Qed.

(** Three illegal characters at the offsets 5, 6 and 7, the second on the
    next line, recorded after a span that ends at offset 2. *)
Lemma illegal_characters_merge_witness :
  let tok ch l p := {| tok_value := ch; tok_lineno := l; tok_lexpos := p |} in
  let old := {| line := (1, 1); index := (1, 2); value := "??" |} in
  fold_left record_error [tok "@" 1 5; tok "$" 2 6; tok "%" 2 7] [old]
  = [old; {| line := (1, 2); index := (5, 7); value := "@$%" |}].
Proof.
  intros tok old.
  destruct illegal_characters_merge as (_ & _ & _ & _ & Hrun & _).
  apply (Hrun [old] (tok "@" 1 5) [tok "$" 2 6; tok "%" 2 7]).
  - intros e [= <-]. simpl. lia.
  - simpl. auto.
Defined.

End Errors.

(** ** Line counting *)

Module Newlines.

Import Config.

(** C8, as the code has it: the lexer starts at line 1; a line feed and a
    carriage return each add one line, but the two characters of a
    carriage return followed by a line feed add two, since
    [t_ANY_newline] adds the length of the matched text.  An illegal
    character on the second line of a text whose first line ends in CR LF
    is so reported on line 3. *)
Theorem crlf_counts_two_lines (cwd : string) (c : TemoaConfig) :
  lineno_after cwd (Py.chr Py.LF) c = Some 2
  /\ lineno_after cwd (Py.chr Py.CR) c = Some 2
  /\ lineno_after cwd CRLF c = Some 3
  /\ inputs_and_errors cwd ("--tee" ++ CRLF ++ "@")
     = Some ([], [ {| line := (3, 3); index := (7, 7); value := "@" |} ]).
Proof. repeat split; reflexivity. Qed.

End Newlines.

(** ** The input files *)

Module Inputs.

Import Re Config StrFacts ReFacts LexerFacts.

(** *** Suffixes *)

Lemma endswith_app (a b : string) : Py.endswith (a ++ b) b = true.
Proof.
  induction a as [|c a IH]; simpl.
  - destruct b; simpl; rewrite ?Ascii.eqb_refl, ?String.eqb_refl; reflexivity.
  - rewrite IH. apply orb_true_r.
Qed.

Lemma input_ext_app (y e : string) :
  e = ".dat" \/ e = ".db" \/ e = ".sqlite" -> input_ext (y ++ e) = true.
Proof.
  unfold input_ext. intros [->|[->| ->]]; rewrite endswith_app;
    rewrite ?orb_true_r; reflexivity.
Qed.

Lemma ext_length (e : string) :
  e = ".dat" \/ e = ".db" \/ e = ".sqlite" -> 3 <= String.length e.
Proof. intros [->|[->| ->]]; simpl; lia. Qed.

Lemma ext_sepfree (e : string) :
  e = ".dat" \/ e = ".db" \/ e = ".sqlite" ->
  Py.forallb_str (fun c => negb (Ascii.eqb c "/")) e = true.
Proof. intros [->|[->| ->]]; reflexivity. Qed.

(** *** [split('/')] and [normpath] keep the end of the last component *)

Lemma split_on_go_sepfree sep e : forall cur,
  Py.forallb_str (fun c => negb (Ascii.eqb c sep)) e = true ->
  Py.split_on_go sep cur e = [cur ++ e].
Proof.
  induction e as [|c e IH]; intros cur H; simpl.
  - rewrite append_nil_r. reflexivity.
  - simpl in H. apply andb_prop in H as [Hc He].
    apply negb_true_iff in Hc. rewrite Hc. rewrite IH by exact He.
    unfold Py.chr. rewrite append_assoc. reflexivity.
Qed.

Lemma split_on_go_app sep e :
  Py.forallb_str (fun c => negb (Ascii.eqb c sep)) e = true ->
  forall s cur, exists comps lst,
    Py.split_on_go sep cur (s ++ e) = (comps ++ [(lst ++ e)%string])%list.
Proof.
  intros He. induction s as [|c s IH]; intros cur; simpl.
  - exists [], cur. apply split_on_go_sepfree, He.
  - destruct (Ascii.eqb c sep).
    + destruct (IH "") as (comps & lst & ->). exists (cur :: comps), lst.
      reflexivity.
    + apply IH.
Qed.

Lemma long_component (comp : string) :
  3 <= String.length comp ->
  String.eqb comp "" = false /\ String.eqb comp "." = false
  /\ String.eqb comp ".." = false.
Proof.
  intros H. destruct comp as [|a [|b [|c comp]]]; simpl in H; try lia.
  repeat split; simpl; try reflexivity;
    destruct (Ascii.eqb a "."); try reflexivity;
    destruct (Ascii.eqb b "."); reflexivity.
Qed.

Lemma normpath_comps_snoc k comp :
  3 <= String.length comp ->
  forall comps acc,
    Py.normpath_comps k (comps ++ [comp]) acc
    = (Py.normpath_comps k comps acc ++ [comp])%list.
Proof.
  intros Hlen. destruct (long_component comp Hlen) as (E0 & E1 & E2).
  induction comps as [|x comps IH]; intros acc; simpl.
  - rewrite E0, E1, E2. reflexivity.
  - destruct (String.eqb x "" || String.eqb x "."); [apply IH|].
    destruct (negb (String.eqb x "..")
              || (k =? 0)%nat && bool_decide (acc = [])
              || bool_decide (last acc = Some "..")); apply IH.
Qed.

Lemma concat_snoc sep (l : list string) (x : string) :
  exists a, String.concat sep (l ++ [x]) = a ++ x.
Proof.
  induction l as [|y l IH].
  - exists "". reflexivity.
  - destruct IH as [a Ha].
    destruct l as [|z l].
    + exists (y ++ sep). simpl. rewrite append_assoc. reflexivity.
    + exists (y ++ sep ++ a). simpl in *. rewrite Ha.
      rewrite !append_assoc. reflexivity.
Qed.

Lemma normpath_keeps_ext (y e : string) :
  e = ".dat" \/ e = ".db" \/ e = ".sqlite" ->
  exists a, Py.normpath (y ++ e) = a ++ e.
Proof.
  intros He. unfold Py.normpath.
  assert (Hne : String.eqb (y ++ e) "" = false).
  { apply String.eqb_neq. intros [_ ->]%append_empty.
    destruct He as [H|[H|H]]; discriminate H. }
  rewrite Hne.
  set (k := if Py.startswith (y ++ e) "/" then _ else 0).
  destruct (split_on_go_app "/" e (ext_sepfree e He) y "") as (comps & lst & Hs).
  unfold Py.split_on. rewrite Hs.
  rewrite normpath_comps_snoc
    by (rewrite length_append; pose proof (ext_length e He); lia).
  destruct (concat_snoc "/" (Py.normpath_comps k comps []) (lst ++ e)) as [a Ha].
  rewrite Ha.
  assert (Hne' : String.eqb (Py.repeat_str k "/" ++ a ++ lst ++ e) "" = false).
  { apply String.eqb_neq. intros [_ [_ [_ ->]%append_empty]%append_empty]%append_empty.
    destruct He as [H|[H|H]]; discriminate H. }
  rewrite Hne'. exists (Py.repeat_str k "/" ++ a ++ lst).
  rewrite !append_assoc. reflexivity.
Qed.

Lemma abspath_keeps_ext (cwd y e : string) :
  e = ".dat" \/ e = ".db" \/ e = ".sqlite" ->
  input_ext (Py.abspath cwd (y ++ e)) = true.
Proof.
  intros He. unfold Py.abspath, Py.join.
  assert (H : exists a,
    Py.normpath
      (if Py.startswith (y ++ e) "/" then y ++ e
       else if Py.startswith (y ++ e) "/" then y ++ e
       else if String.eqb cwd "" || Py.endswith cwd "/" then cwd ++ y ++ e
       else cwd ++ "/" ++ y ++ e) = a ++ e).
  { destruct (Py.startswith (y ++ e) "/").
    - apply normpath_keeps_ext, He.
    - destruct (String.eqb cwd "" || Py.endswith cwd "/").
      + rewrite <- append_assoc. apply normpath_keeps_ext, He.
      + rewrite <- !append_assoc. apply normpath_keeps_ext, He. }
  destruct H as [a ->]. apply input_ext_app, He.
Qed.

(** *** The second field of an [--input] token *)

Lemma replace_app a b (x y : string) :
  Py.replace a b (x ++ y) = Py.replace a b x ++ Py.replace a b y.
Proof. induction x as [|c x IH]; simpl; congruence. Qed.

Lemma replace_id a b (s : string) :
  Py.forallb_str (fun c => negb (Ascii.eqb c a)) s = true ->
  Py.replace a b s = s.
Proof.
  induction s as [|c s IH]; simpl; [reflexivity|].
  intros [Hc Hs]%andb_prop. apply negb_true_iff in Hc.
  rewrite Hc, IH by exact Hs. reflexivity.
Qed.

Lemma path_char_plain c :
  path_char c = true -> Py.is_space c = false /\ Ascii.eqb c "=" = false.
Proof.
  destruct c as [[] [] [] [] [] [] [] []]; vm_compute; intros H;
    first [discriminate H | split; reflexivity].
Qed.

Lemma sep_char_space c :
  sep_char c = true ->
  Py.is_space (if Ascii.eqb c "=" then " "%char else c) = true.
Proof.
  destruct c as [[] [] [] [] [] [] [] []]; vm_compute; intros H;
    first [discriminate H | reflexivity].
Qed.

Lemma replace_seps (s : string) :
  Py.forallb_str sep_char s = true ->
  Py.forallb_str Py.is_space (Py.replace "=" " " s) = true.
Proof.
  induction s as [|c s IH]; simpl; [reflexivity|].
  intros [Hc Hs]%andb_prop. rewrite (sep_char_space c Hc), IH by exact Hs.
  reflexivity.
Qed.

Lemma replace_nonempty a b (s : string) : s <> "" -> Py.replace a b s <> "".
Proof. destruct s; simpl; [congruence | discriminate]. Qed.

Lemma split_go_word (w : string) : forall cur s,
  Py.forallb_str (fun c => negb (Py.is_space c)) w = true ->
  Py.split_go cur (w ++ s) = Py.split_go (cur ++ w) s.
Proof.
  induction w as [|c w IH]; intros cur s H; simpl.
  - rewrite append_nil_r. reflexivity.
  - simpl in H. apply andb_prop in H as [Hc Hw].
    apply negb_true_iff in Hc. rewrite Hc, IH by exact Hw.
    unfold Py.chr. rewrite append_assoc. reflexivity.
Qed.

Lemma split_go_spaces (sp : string) : forall s,
  Py.forallb_str Py.is_space sp = true ->
  Py.split_go "" (sp ++ s) = Py.split_go "" s.
Proof.
  induction sp as [|c sp IH]; intros s H; simpl; [reflexivity|].
  simpl in H. apply andb_prop in H as [Hc Hsp]. rewrite Hc. auto.
Qed.

Lemma split_go_gap (cur sp s : string) :
  cur <> "" -> sp <> "" -> Py.forallb_str Py.is_space sp = true ->
  Py.split_go cur (sp ++ s) = cur :: Py.split_go "" s.
Proof.
  intros Hcur Hsp H. destruct sp as [|c sp]; [congruence|].
  simpl in *. apply andb_prop in H as [Hc Hrest]. rewrite Hc.
  apply String.eqb_neq in Hcur. rewrite Hcur.
  rewrite split_go_spaces by exact Hrest. reflexivity.
Qed.

Lemma split_two (k sp w : string) :
  k <> "" -> w <> "" -> sp <> "" ->
  Py.forallb_str (fun c => negb (Py.is_space c)) k = true ->
  Py.forallb_str (fun c => negb (Py.is_space c)) w = true ->
  Py.forallb_str Py.is_space sp = true ->
  Py.split (k ++ sp ++ w) = [k; w].
Proof.
  intros Hk Hw Hsp Hkw Hww Hs. unfold Py.split.
  rewrite split_go_word by exact Hkw. simpl.
  rewrite split_go_gap by assumption.
  rewrite <- (append_nil_r w) at 1. rewrite split_go_word by exact Hww.
  simpl. apply String.eqb_neq in Hw. rewrite Hw. reflexivity.
Qed.

Lemma lang_seq_inv r1 r2 w :
  lang (Seq r1 r2) w -> exists w1 w2, w = w1 ++ w2 /\ lang r1 w1 /\ lang r2 w2.
Proof. inversion 1; eauto. Qed.

Lemma lang_alt_inv r1 r2 w : lang (Alt r1 r2) w -> lang r1 w \/ lang r2 w.
Proof. inversion 1; auto. Qed.

Lemma lang_lit_inv l w : lang (Lit l) w -> w = l.
Proof. inversion 1; reflexivity. Qed.

Lemma lang_plus_inv p w :
  lang (Plus p) w -> w <> "" /\ Py.forallb_str p w = true.
Proof. inversion 1; auto. Qed.

Lemma lang_wordb_inv w : lang WordB w -> w = "".
Proof. inversion 1; reflexivity. Qed.

(** The text matched by the [--input] rule is [--input], separators, a
    path and one of the three extensions; its second field is the path
    with the extension. *)
Lemma field1_dot_dat (t : LexToken) :
  lang r_dot_dat (tok_value t) ->
  exists y e, (e = ".dat" \/ e = ".db" \/ e = ".sqlite")
              /\ field1 t = Ok (y ++ e).
Proof.
  unfold field1. generalize (tok_value t) as w. intros w H.
  unfold r_dot_dat in H. simpl in H.
  apply lang_seq_inv in H as (w1 & wa & -> & H1 & H).
  apply lang_seq_inv in H as (sp & wb & -> & Hsp & H).
  apply lang_seq_inv in H as (y & wc & -> & Hy & H).
  apply lang_seq_inv in H as (e & wd & -> & He & Hb).
  apply lang_lit_inv in H1 as ->. apply lang_wordb_inv in Hb as ->.
  apply lang_plus_inv in Hsp as [Hsp0 Hsp]. apply lang_plus_inv in Hy as [Hy0 Hy].
  assert (Hext : e = ".dat" \/ e = ".db" \/ e = ".sqlite").
  { apply lang_alt_inv in He as [He|He]; [apply lang_lit_inv in He; auto|].
    apply lang_alt_inv in He as [He|He]; apply lang_lit_inv in He; auto. }
  clear He. exists y, e. split; [exact Hext|].
  rewrite (append_nil_r e).
  assert (Hpe : Py.forallb_str path_char (y ++ e) = true).
  { rewrite forallb_str_app, Hy.
    destruct Hext as [->|[->| ->]]; reflexivity. }
  rewrite (replace_app _ _ "--input"), replace_app.
  rewrite (replace_id "=" " " (y ++ e))
    by (revert Hpe; apply forallb_str_impl; intros c Hc;
        rewrite (proj2 (path_char_plain c Hc)); reflexivity).
  change (Py.replace "=" " " "--input") with "--input".
  rewrite (split_two "--input" (Py.replace "=" " " sp) (y ++ e)).
  - reflexivity.
  - discriminate.
  - intros [-> _]%append_empty. congruence.
  - apply replace_nonempty. assumption.
  - reflexivity.
  - revert Hpe. apply forallb_str_impl. intros c Hc.
    rewrite (proj1 (path_char_plain c Hc)). reflexivity.
  - apply replace_seps. assumption.
Qed.

(** Every rule keeps the input files with their extensions. *)
Lemma lex_input_ext cwd text c c' lx' :
  Forall (fun p => input_ext p = true) (dot_dat c) ->
  lex cwd text c = Some (Ok (c', lx')) ->
  Forall (fun p => input_ext p = true) (dot_dat c').
Proof.
  intros H0 Hlex. unfold lex in Hlex.
  refine (token_invariant cwd
            (fun c _ => Forall (fun p => input_ext p = true) (dot_dat c))
            _ _ _ _ _ _ _ _ _ _ H0 Hlex).
  - auto.
  - intros r f tok c0 lx0 c1 lx1 Hin Hw _ _ _ HI Hf.
    destruct (rules_frame cwd _ _ _ _ _ _ _ _ Hin Hf)
      as (_ & _ & [Hsame|(-> & v & Hv & Happ)]).
    + rewrite Hsame. exact HI.
    + rewrite Happ. apply Forall_app. split; [exact HI|].
      constructor; [|constructor].
      destruct (field1_dot_dat tok Hw) as (y & e & He & Hf1).
      rewrite Hf1 in Hv. injection Hv as <-.
      apply abspath_keeps_ext, He.
  - auto.
Qed.

(** C10, where it fails: [a.db.txt] has the extension [.txt], yet
    [--input=a.db.txt] appends [a.db]: the rule matches the text up to
    [.db], which the dot that follows ends at a word boundary. *)
Lemma other_extension_appends : ~ other_extension_never_appends.
Proof.
  intros H. destruct (H "/w" "a.db.txt" eq_refl eq_refl) as [errors He].
  vm_compute in He. discriminate He.
Qed.

(** The input files after lexing, the text that the [--input] rule
    matches, and three directives. *)
Lemma input_files_parts :
  (forall cwd text c,
     Forall (fun p => input_ext p = true) (dot_dat c) ->
     exists res,
       lex cwd text c = Some res
       /\ forall c' lx',
            res = Ok (c', lx') ->
            Forall (fun p => input_ext p = true) (dot_dat c'))
  /\ (forall t,
        lang r_dot_dat (tok_value t) ->
        exists y e, (e = ".dat" \/ e = ".db" \/ e = ".sqlite")
                    /\ field1 t = Ok (y ++ e))
  /\ (forall cwd,
        inputs_and_errors cwd "--input=foo.txt"
        = Some ([], [ {| line := (1, 1); index := (0, 14);
                         value := "--input=foo.txt" |} ]))
  /\ (forall cwd,
        inputs_and_errors cwd "--input=foo.sqlite3"
        = Some ([], [ {| line := (1, 1); index := (0, 18);
                         value := "--input=foo.sqlite3" |} ]))
  /\ (forall cwd,
        inputs_and_errors cwd "--input=a.db.txt"
        = Some ([Py.abspath cwd "a.db"],
                [ {| line := (1, 1); index := (12, 15); value := ".txt" |} ])).
Proof.
  split; [|split; [|split; [|split]]].
  - intros cwd text c H0.
    destruct (lex cwd text c) as [res|] eqn:Hlex.
    + exists res. split; [reflexivity|]. intros c' lx' ->.
      exact (lex_input_ext cwd text c c' lx' H0 Hlex).
    + exfalso. exact (lex_total cwd text c Hlex).
  - exact field1_dot_dat.
  - intros cwd. vm_compute. reflexivity.
  - intros cwd. vm_compute. reflexivity.
  - intros cwd. vm_compute. reflexivity.
Qed.

End Inputs.

(** ** The checks of [build] *)

Module Validation.

Import Config.

Section Checks.

Variable isfile : string -> bool.

Lemma classify_step f files m :
  isfile f = true ->
  classify isfile (f :: files) m
  = classify isfile files (default m (ext_class f)).
Proof.
  intros Hf. simpl. rewrite Hf. simpl. unfold ext_class.
  destruct (Py.splitext f) as [i_name i_ext]. simpl.
  destruct (String.eqb i_ext ".dat" || String.eqb i_ext ".txt");
    [reflexivity|].
  destruct (String.eqb i_ext ".db" || String.eqb i_ext ".sqlite"
            || String.eqb i_ext ".sqlite3" || String.eqb i_ext "sqlitedb");
    reflexivity.
Qed.

Lemma classify_unrecognised files m :
  Forall (fun p => isfile p = true) files ->
  Forall (fun p => ext_class p = None) files ->
  classify isfile files m = Ok m.
Proof.
  induction 1 as [|f files Hf _ IH]; intros Hn; [reflexivity|].
  inversion Hn as [|? ? Hc Hrest]; subst.
  rewrite classify_step by exact Hf. rewrite Hc. simpl. exact (IH Hrest).
Qed.

Lemma classify_last pre f post m b :
  Forall (fun p => isfile p = true) (pre ++ f :: post) ->
  ext_class f = Some b ->
  Forall (fun p => ext_class p = None) post ->
  classify isfile (pre ++ f :: post) m = Ok b.
Proof.
  revert m. induction pre as [|x pre IH]; intros m Hex Hf Hpost.
  - simpl app in *. inversion Hex as [|? ? Hx Hrest]; subst.
    rewrite classify_step by exact Hx. rewrite Hf. simpl.
    apply classify_unrecognised; assumption.
  - simpl app in *. inversion Hex as [|? ? Hx Hrest]; subst.
    rewrite classify_step by exact Hx. apply IH; assumption.
Qed.

End Checks.

(** C5: the mode computed by the loop of [build] over the input files,
    all of them existing, is the one of the last file with a recognised
    extension, whatever comes before it; so a database followed by a
    [.dat] file gives the [.dat] mode and a [.dat] file followed by a
    database gives the database mode. *)
Theorem mode_last_wins (isfile : string -> bool)
  (pre : list string) (f : string) (post : list string) (b : bool) :
  Forall (fun p => isfile p = true) (pre ++ f :: post) ->
  ext_class f = Some b ->
  Forall (fun p => ext_class p = None) post ->
  classify isfile (pre ++ f :: post) true = Ok b
  /\ classify (fun _ => true) ["/w/a.db"; "/w/b.dat"] true = Ok false
  /\ classify (fun _ => true) ["/w/a.dat"; "/w/b.db"] true = Ok true
  /\ ext_class "/w/a.dat" = Some false /\ ext_class "/w/a.txt" = Some false
  /\ ext_class "/w/a.db" = Some true /\ ext_class "/w/a.sqlite" = Some true
  /\ ext_class "/w/a.sqlite3" = Some true.
Proof.
  intros Hex Hf Hpost. split; [apply classify_last; assumption|].
  repeat split; reflexivity.
Qed.

(** A database, a [.dat] file and a file without a known extension. *)
Lemma mode_last_wins_witness :
  classify (fun _ => true) (["/w/a.db"] ++ "/w/b.dat" :: ["/w/notes"]) true
  = Ok false
  /\ classify (fun _ => true) ["/w/a.db"; "/w/b.dat"] true = Ok false
  /\ classify (fun _ => true) ["/w/a.dat"; "/w/b.db"] true = Ok true
  /\ ext_class "/w/a.dat" = Some false /\ ext_class "/w/a.txt" = Some false
  /\ ext_class "/w/a.db" = Some true /\ ext_class "/w/a.sqlite" = Some true
  /\ ext_class "/w/a.sqlite3" = Some true.
Proof.
  apply (mode_last_wins (fun _ => true) ["/w/a.db"] "/w/b.dat" ["/w/notes"]).
  - repeat constructor.
  - reflexivity.
  - repeat constructor.
Defined.

(** C4: when the mode computed from the input files is the database
    mode, [build] raises if the output file is not set, or is not an
    existing file, or if the scenario is not set, and passes when both
    are set and the output file exists; in the [.dat] mode it passes
    whatever the output file and the scenario are. *)
Theorem output_checks (isfile : string -> bool) (c : TemoaConfig)
  (db_or_dat : bool) :
  dot_dat c <> [] ->
  classify isfile (dot_dat c) true = Ok db_or_dat ->
  (db_or_dat = true ->
   (output c = None
    \/ (exists p, output c = Some p /\ isfile p = false)
    \/ scenario c = None) ->
   exists msg, validate isfile c = Raise (Exception msg))
  /\ (db_or_dat = true ->
      (exists p s, output c = Some p /\ p <> "" /\ isfile p = true
                   /\ scenario c = Some s /\ s <> "") ->
      validate isfile c = Ok true)
  /\ (db_or_dat = false ->
      check_output isfile c false = Ok tt /\ validate isfile c = Ok false).
Proof.
  intros Hne Hmode. unfold validate.
  rewrite bool_decide_eq_false_2 by exact Hne. rewrite Hmode. simpl.
  split; [|split].
  - intros -> Hbad. unfold check_output.
    destruct (output c) as [p|] eqn:Ho; simpl.
    + destruct (String.eqb p "") eqn:Ep; simpl; [eauto|].
      destruct (isfile p) eqn:Hp; simpl; [|eauto].
      destruct Hbad as [H|[(q & [= <-] & Hq)|H]]; [discriminate H|congruence|].
      rewrite H. simpl. eauto.
    + eauto.
  - intros -> (p & s & Ho & Hp & Hf & Hs & Hs'). unfold check_output.
    rewrite Ho, Hs. simpl.
    apply String.eqb_neq in Hp, Hs'. rewrite Hp, Hs'. simpl.
    rewrite Hf. reflexivity.
  - intros ->. unfold check_output.
    destruct (truthy_str (output c)), (truthy_str (scenario c));
      split; reflexivity.
Qed.

(** A database input with no output file: the build stops. *)
Lemma output_checks_witness :
  let c := set_dot_dat ["/w/data.db"] (init "" None) in
  (true = true ->
   (output c = None
    \/ (exists p, output c = Some p /\ (fun _ => true) p = false)
    \/ scenario c = None) ->
   exists msg, validate (fun _ => true) c = Raise (Exception msg))
  /\ (true = true ->
      (exists p s, output c = Some p /\ p <> "" /\ (fun _ => true) p = true
                   /\ scenario c = Some s /\ s <> "") ->
      validate (fun _ => true) c = Ok true)
  /\ (true = false ->
      check_output (fun _ => true) c false = Ok tt
      /\ validate (fun _ => true) c = Ok false).
Proof.
  intros c.
  apply (output_checks (fun _ => true) c true); [discriminate | reflexivity].
Defined.

End Validation.

(** ** The exporter *)

Module ExporterFacts.

Import Config Exporter.

Lemma execute_world q w : fst (execute q w) = w.
Proof.
  destruct q as [name|name vals]; simpl;
    unfold select_all, select_where, find_table, mbind, io_bind, lift, mret,
      io_ret; simpl;
    destruct (store w !! name) as [t|]; simpl; [|reflexivity|..];
    try reflexivity.
  destruct (find_column t "flag"); reflexivity.
Qed.

Lemma section_empty p q name w :
  snd (execute q w) = Ok [] -> section p q name w = (w, Ok tt).
Proof.
  intros H. unfold section, mbind, io_bind.
  pose proof (execute_world q w) as Hw.
  destruct (execute q w) as [w1 r]. simpl in *. subst w1 r. reflexivity.
Qed.

Lemma query_table_section p w :
  query_table p w
  = section p (db_query p)
      (match t_flag p with
       | Flags _ => t_dtname p
       | Flag fl => if negb (String.eqb fl "") then t_dtname p else t_name p
       end) w.
Proof.
  unfold query_table, db_query. destruct (t_flag p) as [l|fl]; [reflexivity|].
  destruct (negb (String.eqb fl "")); reflexivity.
Qed.

(** C6: a table whose filtered query returns no row leaves the file, and
    the rest of the world, as they are and raises nothing; the loop over
    [table_list] goes on with the tables that follow. *)
Theorem empty_table_skipped (p : TableSpec) (w : world) :
  snd (execute (db_query p) w) = Ok [] ->
  query_table p w = (w, Ok tt)
  /\ forall (table_exist : gset string) (rest : list TableSpec),
       for_each (p :: rest) (export_table table_exist) w
       = for_each rest (export_table table_exist) w.
Proof.
  intros H.
  assert (Hq : query_table p w = (w, Ok tt))
    by (rewrite query_table_section; apply section_empty, H).
  split; [exact Hq|].
  intros table_exist rest. simpl. unfold mbind, io_bind, export_table at 1.
  destruct (bool_decide (t_name p ∈ table_exist)).
  - rewrite Hq. reflexivity.
  - reflexivity.
Qed.

(** The [regions] table exists and is empty. *)
Lemma empty_table_skipped_witness :
  let p := spec "set" "regions" "" (Flag "") 0 in
  let w := {| store := {[ "regions" := {| columns := ["regions"];
                                           rows := [] |} ]};
              f := "data ;"; stdout := "" |} in
  query_table p w = (w, Ok tt)
  /\ forall (table_exist : gset string) (rest : list TableSpec),
       for_each (p :: rest) (export_table table_exist) w
       = for_each rest (export_table table_exist) w.
Proof.
  intros p w. apply (empty_table_skipped p w). reflexivity.
Defined.


(** *** The comment of a row *)











(** *** The clean-up *)

Lemma reads_ret {A} (a : A) : reads (mret a : io A).
Proof. intros w. reflexivity. Qed.

Lemma reads_lift {A} (r : result A) : reads (lift r).
Proof. intros w. reflexivity. Qed.

Lemma reads_bind {A B} (m : io A) (k : A -> io B) :
  reads m -> (forall a, reads (k a)) -> reads (m ≫= k).
Proof.
  intros Hm Hk w. unfold mbind, io_bind. specialize (Hm w).
  destruct (m w) as [w1 [a|e]]; simpl in *; [|exact Hm].
  rewrite (Hk a w1). exact Hm.
Qed.

Lemma reads_write s : reads (write s).
Proof. intros w. reflexivity. Qed.

Lemma reads_print s : reads (print s).
Proof. intros w. reflexivity. Qed.

Lemma reads_open_w : reads open_w.
Proof. intros w. reflexivity. Qed.

Lemma reads_find_table name : reads (find_table name).
Proof. intros w. unfold find_table. destruct (store w !! name); reflexivity. Qed.

Lemma reads_table_names : reads table_names.
Proof. intros w. reflexivity. Qed.

Lemma reads_for_each {A} (l : list A) (body : A -> io unit) :
  (forall x, reads (body x)) -> reads (for_each l body).
Proof.
  intros Hb. induction l as [|x l IH]; simpl.
  - apply reads_ret.
  - apply reads_bind; [apply Hb | intros _; exact IH].
Qed.

Lemma reads_if {A} (b : bool) (m1 m2 : io A) :
  reads m1 -> reads m2 -> reads (if b then m1 else m2).
Proof. destruct b; auto. Qed.

Ltac reads_tac :=
  repeat first
    [ apply reads_ret | apply reads_lift | apply reads_write
    | apply reads_print | apply reads_open_w | apply reads_find_table
    | apply reads_table_names
    | apply reads_bind; [|intros ?]
    | apply reads_for_each; intros ?
    | apply reads_if ].

Lemma reads_execute q : reads (execute q).
Proof.
  destruct q; simpl; unfold select_all, select_where; reads_tac.
Qed.

Lemma reads_query_table p : reads (query_table p).
Proof.
  intros w. rewrite query_table_section. revert w.
  unfold section. apply reads_bind; [apply reads_execute|].
  intros [|line found]; [apply reads_ret|].
  apply reads_bind; [apply reads_write|intros _].
  apply reads_bind; [apply reads_execute|intros lines].
  reads_tac.
Qed.

Lemma reads_write_tech_mga : reads write_tech_mga.
Proof. unfold write_tech_mga, select_column. reads_tac. Qed.

Lemma reads_write_tech_sector iter_set : reads (write_tech_sector iter_set).
Proof.
  unfold write_tech_sector, select_column, select_column_where. reads_tac.
Qed.

Lemma bind_ok {A B} (m : io A) (k : A -> io B) w w' b :
  (m ≫= k) w = (w', Ok b) ->
  exists a w1, m w = (w1, Ok a) /\ k a w1 = (w', Ok b).
Proof.
  unfold mbind, io_bind. destruct (m w) as [w1 [a|e]]; [eauto|].
  intros [= _ H]. 
Qed.

Lemma cell_in_one r i v :
  cell_in r i [v] = false <-> r !! i <> Some (Text v).
Proof.
  unfold cell_in. destruct (r !! i) as [[| | |s]|]; simpl;
    try (split; [discriminate | reflexivity]).
  rewrite orb_false_r. rewrite String.eqb_neq. split; congruence.
Qed.

Lemma delete_where_ok name v w w' :
  delete_where name "scenario" v w = (w', Ok tt) ->
  exists t, store w !! name = Some t
            /\ store w' = <[name := purge v t]> (store w)
            /\ f w' = f w.
Proof.
  unfold delete_where, literal.
  destruct (store w !! name) as [t|]; [|discriminate].
  destruct (find_column t "scenario") as [i|e] eqn:Hi; [|discriminate].
  destruct (quote_free v); [|discriminate].
  intros [= <-]. exists t. simpl. split; [reflexivity|]. split; [|reflexivity].
  unfold purge. rewrite Hi.
  do 2 f_equal. apply list_filter_iff. intros r. apply cell_in_one.
Qed.

Lemma delete_all_ok names v : forall w w',
  for_each names (fun name => delete_where name "scenario" v) w = (w', Ok tt) ->
  NoDup names ->
  f w' = f w
  /\ forall name, store w' !! name = purged names v (store w) name.
Proof.
  induction names as [|n names IH]; intros w w' H Hnd.
  - injection H as <-. split; [reflexivity|]. intros name. unfold purged.
    rewrite bool_decide_eq_false_2 by apply not_elem_of_nil. reflexivity.
  - simpl in H. apply bind_ok in H as ([] & w1 & Hd & Hrest).
    apply delete_where_ok in Hd as (t & Ht & Hs & Hf).
    apply NoDup_cons in Hnd as [Hn Hnd].
    destruct (IH _ _ Hrest Hnd) as [Hf' Hl]. split; [congruence|].
    intros name. rewrite Hl. unfold purged. rewrite Hs.
    destruct (decide (name = n)) as [->|Hne].
    + rewrite (bool_decide_eq_false_2 _ Hn).
      rewrite bool_decide_eq_true_2 by apply list_elem_of_here.
      rewrite lookup_insert_eq, Ht. reflexivity.
    + rewrite lookup_insert_ne by congruence.
      destruct (decide (name ∈ names)) as [Hin|Hout].
      * rewrite !bool_decide_eq_true_2;
          [reflexivity | apply list_elem_of_further; exact Hin | exact Hin].
      * rewrite !bool_decide_eq_false_2; [reflexivity | | exact Hout].
        intros [?|?]%elem_of_cons; contradiction.
Qed.

Lemma columns_purge v t : columns (purge v t) = columns t.
Proof. unfold purge. destruct (find_column t "scenario"); reflexivity. Qed.

Lemma find_column_elem t col :
  col ∈ columns t -> exists i, find_column t col = Ok i.
Proof.
  intros Hin. unfold find_column.
  destruct (list_find_elem_of (fun x => x = col) (columns t) col Hin eq_refl)
    as [[i x] ->].
  eauto.
Qed.

Lemma delete_all_total names v :
  quote_free v = true ->
  forall w,
    (forall name, name ∈ names ->
       exists t, store w !! name = Some t /\ "scenario" ∈ columns t) ->
    exists w',
      for_each names (fun name => delete_where name "scenario" v) w
      = (w', Ok tt).
Proof.
  intros Hq. induction names as [|n names IH]; intros w Hex.
  - eexists. reflexivity.
  - destruct (Hex n (list_elem_of_here _ _)) as (t & Ht & Hc).
    destruct (find_column_elem t "scenario" Hc) as [i Hi].
    simpl. unfold mbind, io_bind.
    unfold delete_where at 1, literal. rewrite Ht, Hi, Hq.
    apply IH. intros name Hin. simpl.
    destruct (decide (name = n)) as [->|Hne].
    + rewrite lookup_insert_eq. eexists. split; [reflexivity|]. exact Hc.
    + rewrite lookup_insert_ne by congruence.
      apply Hex, list_elem_of_further, Hin.
Qed.

Lemma output_tables_nodup : NoDup output_tables.
Proof. apply (bool_decide_unpack _). vm_compute. exact I. Qed.

Lemma cleanup_ok options w w' :
  cleanup options w = (w', Ok tt) ->
  f w' = f w
  /\ forall name,
       store w' !! name
       = purged output_tables (str_scenario options) (store w) name.
Proof.
  unfold cleanup. intros H. apply bind_ok in H as ([] & w1 & Hd & Hv).
  injection Hv as <-.
  exact (delete_all_ok _ _ _ _ Hd output_tables_nodup).
Qed.

(** Everything [db_2_dat] does before the clean-up leaves the database as
    it is. *)
Lemma db_2_dat_store iter_set options w w' :
  db_2_dat iter_set options w = (w', Ok tt) ->
  exists w1,
    store w1 = store w
    /\ (if myopic options then cleanup options else mret tt) w1 = (w', Ok tt).
Proof.
  unfold db_2_dat. intros H.
  apply bind_ok in H as ([] & w1 & H1 & H).
  apply bind_ok in H as ([] & w2 & H2 & H).
  apply bind_ok in H as (table_exist & w3 & H3 & H).
  apply bind_ok in H as ([] & w4 & H4 & H).
  apply bind_ok in H as ([] & w5 & H5 & H).
  apply bind_ok in H as ([] & w6 & H6 & H).
  apply bind_ok in H as ([] & w7 & H7 & H).
  apply bind_ok in H as ([] & w8 & H8 & H).
  exists w8. split; [|exact H].
  pose proof (reads_open_w w) as R1. rewrite H1 in R1.
  pose proof (reads_write ("data ;" ++ nl ++ nl) w1) as R2. rewrite H2 in R2.
  pose proof (reads_table_names w2) as R3. rewrite H3 in R3.
  assert (R4 : store w4 = store w3).
  { pose proof (reads_for_each table_list (export_table table_exist)) as R.
    specialize (R (fun x => ltac:(unfold export_table; apply reads_if;
                                  [apply reads_query_table|apply reads_ret]))).
    specialize (R w3). rewrite H4 in R. exact R. }
  assert (Rmga : forall b : bool,
            reads (if b then write_tech_mga else mret tt)).
  { intros b. apply reads_if; [apply reads_write_tech_mga|apply reads_ret]. }
  assert (Rsec : forall b : bool,
            reads (if b then write_tech_sector iter_set else mret tt)).
  { intros b. apply reads_if; [apply reads_write_tech_sector|apply reads_ret]. }
  pose proof (Rmga (is_method (mga_method options) ["integer"; "random"]) w4)
    as R5. rewrite H5 in R5.
  pose proof (Rsec (is_method (mga_method options) ["normalized"]) w5) as R6.
  rewrite H6 in R6.
  pose proof (Rmga (is_method (mgpa_method options) ["integer"; "random"]) w6)
    as R7. rewrite H7 in R7.
  pose proof (Rsec (is_method (mgpa_method options) ["normalized"]) w7) as R8.
  rewrite H8 in R8.
  simpl in *. congruence.
Qed.

(** *** What any run of [db_2_dat] may change *)

Lemma purge_idem v t : purge v (purge v t) = purge v t.
Proof.
  unfold purge. destruct (find_column t "scenario") as [i|e] eqn:Hi.
  - change (find_column
              {| columns := columns t;
                 rows := filter (fun r => r !! i <> Some (Text v)) (rows t) |}
              "scenario")
      with (find_column t "scenario").
    rewrite Hi. simpl. f_equal. apply list_filter_filter_l. auto.
  - rewrite Hi. reflexivity.
Qed.

Lemma scoped_refl names v db : scoped names v db db.
Proof. intros name. left. reflexivity. Qed.

Lemma scoped_trans names v db1 db2 db3 :
  scoped names v db1 db2 -> scoped names v db2 db3 -> scoped names v db1 db3.
Proof.
  intros H12 H23 name.
  destruct (H12 name) as [E12|[Hin E12]], (H23 name) as [E23|[Hin' E23]].
  - left. congruence.
  - right. split; [exact Hin'|]. congruence.
  - right. split; [exact Hin|]. congruence.
  - right. split; [exact Hin|]. rewrite E23, E12.
    destruct (db1 !! name) as [t|]; simpl; [|reflexivity].
    rewrite purge_idem. reflexivity.
Qed.

Lemma reads_touches {A} names v (m : io A) : reads m -> touches names v m.
Proof. intros Hm w. rewrite (Hm w). apply scoped_refl. Qed.

Lemma touches_bind {A B} names v (m : io A) (k : A -> io B) :
  touches names v m -> (forall a, touches names v (k a)) ->
  touches names v (m ≫= k).
Proof.
  intros Hm Hk w. unfold mbind, io_bind. specialize (Hm w).
  destruct (m w) as [w1 [a|e]]; simpl in *; [|exact Hm].
  exact (scoped_trans _ _ _ _ _ Hm (Hk a w1)).
Qed.

Lemma touches_delete names v name :
  name ∈ names -> touches names v (delete_where name "scenario" v).
Proof.
  intros Hin w.
  destruct (delete_where name "scenario" v w) as [w' r] eqn:Hd. simpl.
  destruct r as [[]|e].
  - apply delete_where_ok in Hd as (t & Ht & Hs & _). rewrite Hs.
    intros name'. destruct (decide (name' = name)) as [->|Hne].
    + right. split; [exact Hin|]. rewrite lookup_insert_eq, Ht. reflexivity.
    + left. apply lookup_insert_ne. congruence.
  - assert (w' = w) as ->; [|apply scoped_refl].
    revert Hd. unfold delete_where.
    destruct (store w !! name) as [t|]; [|congruence].
    destruct (find_column t "scenario"), (literal v); congruence.
Qed.

Lemma touches_for_each {A} names v (l : list A) (body : A -> io unit) :
  (forall x, x ∈ l -> touches names v (body x)) ->
  touches names v (for_each l body).
Proof.
  induction l as [|x l IH]; intros Hb; simpl.
  - apply reads_touches, reads_ret.
  - apply touches_bind; [apply Hb, list_elem_of_here|].
    intros _. apply IH. intros y Hy. apply Hb, list_elem_of_further, Hy.
Qed.

Lemma touches_cleanup options :
  touches output_tables (str_scenario options) (cleanup options).
Proof.
  unfold cleanup. apply touches_bind.
  - apply touches_for_each. intros name Hin. apply touches_delete, Hin.
  - intros _. apply reads_touches, reads_ret.
Qed.

Lemma touches_db_2_dat iter_set options :
  touches output_tables (str_scenario options) (db_2_dat iter_set options).
Proof.
  unfold db_2_dat.
  repeat (apply touches_bind; [apply reads_touches|intros ?]).
  - apply reads_open_w.
  - apply reads_write.
  - apply reads_table_names.
  - apply reads_for_each. intros table. unfold export_table.
    apply reads_if; [apply reads_query_table|apply reads_ret].
  - apply reads_if; [apply reads_write_tech_mga|apply reads_ret].
  - apply reads_if; [apply reads_write_tech_sector|apply reads_ret].
  - apply reads_if; [apply reads_write_tech_mga|apply reads_ret].
  - apply reads_if; [apply reads_write_tech_sector|apply reads_ret].
  - destruct (myopic options);
      [apply touches_cleanup | apply reads_touches, reads_ret].
Qed.

(** A database is spelt as the statements spell the names when each of
    its tables is. *)
Lemma spelt_check names col (db : gmap string table) :
  forallb (fun p => spelt_table names col p.1 p.2) (map_to_list db) = true ->
  spelt names col db.
Proof.
  intros H name t Hl. rewrite forallb_forall in H.
  apply (H (name, t)). apply list_elem_of_In, elem_of_map_to_list, Hl.
Qed.

(** A myopic run is the run without the switch and then the clean-up. *)
Lemma db_2_dat_myopic iter_set options w :
  myopic options = true ->
  db_2_dat iter_set options w
  = (_ ← db_2_dat iter_set (set_myopic false options); cleanup options) w.
Proof.
  intros Hm. unfold db_2_dat. rewrite Hm. cbn [myopic set_myopic
    mga_method mgpa_method].
  unfold mbind, io_bind.
  repeat match goal with
         | |- context [match ?m w with _ => _ end] =>
             destruct (m w) as [? [[]|?]]; try reflexivity
         | |- context [match ?m ?w1 with (_, _) => _ end] =>
             destruct (m w1) as [? [?|?]]; try reflexivity
         end.
Qed.

(** C9: in a myopic run on a database whose output tables and their
    [scenario] column are spelt as the statements spell them, when
    [db_2_dat] returns, each of the nine output tables has lost the rows
    whose [scenario] is the scenario of the options and kept its other
    rows, and every other table is as it was; the clean-up goes through
    whenever the nine tables exist with a [scenario] column, so that the
    myopic run returns, with the same file, whenever the run without the
    switch does; and however a run of [db_2_dat] ends, it has changed
    nothing in the database but rows of that scenario in output
    tables. *)
Theorem myopic_cleanup_scope (iter_set : list cell -> list cell)
  (options : TemoaConfig) (w : world) :
  myopic options = true ->
  quote_free (str_scenario options) = true ->
  spelt output_tables "scenario" (store w) ->
  (forall w',
     db_2_dat iter_set options w = (w', Ok tt) ->
     forall name,
       store w' !! name
       = purged output_tables (str_scenario options) (store w) name)
  /\ ((forall name, name ∈ output_tables ->
         exists t, store w !! name = Some t /\ "scenario" ∈ columns t) ->
      (exists w',
         cleanup options w = (w', Ok tt)
         /\ f w' = f w
         /\ forall name,
              store w' !! name
              = purged output_tables (str_scenario options) (store w) name)
      /\ (forall w1,
            db_2_dat iter_set (set_myopic false options) w = (w1, Ok tt) ->
            exists w',
              db_2_dat iter_set options w = (w', Ok tt)
              /\ f w' = f w1
              /\ forall name,
                   store w' !! name
                   = purged output_tables (str_scenario options) (store w)
                       name))
  /\ (forall w' r,
        db_2_dat iter_set options w = (w', r) ->
        forall name,
          store w' !! name = store w !! name
          \/ (name ∈ output_tables
              /\ store w' !! name
                 = purge (str_scenario options) <$> store w !! name)).
Proof.
  intros Hm Hq _. split; [|split].
  - intros w' H name.
    destruct (db_2_dat_store _ _ _ _ H) as (w1 & Hs & Hc).
    rewrite Hm in Hc. rewrite (proj2 (cleanup_ok _ _ _ Hc) name), Hs.
    reflexivity.
  - intros Hex.
    assert (Hgo : forall w0, store w0 = store w ->
              exists w',
                cleanup options w0 = (w', Ok tt)
                /\ f w' = f w0
                /\ forall name,
                     store w' !! name
                     = purged output_tables (str_scenario options) (store w)
                         name).
    { intros w0 Hs0. rewrite <- Hs0 in Hex.
      destruct (delete_all_total output_tables _ Hq w0 Hex) as [w' Hd].
      exists w'.
      assert (Hc : cleanup options w0 = (w', Ok tt)).
      { unfold cleanup, mbind, io_bind. rewrite Hd. reflexivity. }
      split; [exact Hc|].
      destruct (cleanup_ok _ _ _ Hc) as [Hf Hl].
      split; [exact Hf|]. rewrite <- Hs0. exact Hl. }
    split.
    + exact (Hgo w eq_refl).
    + intros w1 H1.
      assert (Hs1 : store w1 = store w).
      { destruct (db_2_dat_store _ _ _ _ H1) as (w2 & Hs & Hc).
        cbn [myopic set_myopic] in Hc. injection Hc as <-. exact Hs. }
      destruct (Hgo w1 Hs1) as (w' & Hc & Hf & Hl).
      exists w'. rewrite (db_2_dat_myopic _ _ _ Hm).
      unfold mbind at 1, io_bind. rewrite H1. auto.
  - intros w' r H name.
    pose proof (touches_db_2_dat iter_set options w name) as Ht.
    rewrite H in Ht. exact Ht.
Qed.

(** The myopic run of the scenario [base] on a database that has the nine
    output tables returns, and has purged them. *)
Lemma myopic_cleanup_scope_witness :
  exists w',
    db_2_dat (fun l => l) myopic_options myopic_world = (w', Ok tt)
    /\ forall name,
         store w' !! name
         = purged output_tables "base" (store myopic_world) name.
Proof.
  assert (Hsp : spelt output_tables "scenario" (store myopic_world))
    by (apply spelt_check; vm_compute; reflexivity).
  destruct (myopic_cleanup_scope (fun l => l) myopic_options myopic_world
              eq_refl eq_refl Hsp) as (_ & H & _).
  assert (Hex : forall name, name ∈ output_tables ->
            exists t, store myopic_world !! name = Some t
                      /\ "scenario" ∈ columns t).
  { intros name Hin.
    repeat (apply elem_of_cons in Hin as [->|Hin];
            [eexists; split;
             [vm_compute; reflexivity|apply list_elem_of_here]|]).
    apply elem_of_nil in Hin. contradiction. }
  destruct (H Hex) as [_ Hrun].
  assert (H1 : exists w1,
            db_2_dat (fun l => l) (set_myopic false myopic_options)
              myopic_world = (w1, Ok tt))
    by (vm_compute; eexists; reflexivity).
  destruct H1 as (w1 & H1).
  destruct (Hrun w1 H1) as (w' & Hd & _ & Hl).
  exists w'. split; [exact Hd|exact Hl].
Defined.

End ExporterFacts.

(** * Further properties *)

(** ** The queues in use *)

Module QueuesMore.

Import Config More Queues.

Lemma advance_history t c : history t (snd (advance t c)) = history t c.
Proof.
  unfold history.
  destruct t; unfold advance, pending, done, next_mga, next_moo, next_mgpa;
    match goal with
    | |- context [match ?l with _ => _ end] =>
        let E := fresh "E" in destruct l eqn:E
    end;
    simpl; rewrite ?E, <- ?app_assoc; reflexivity.
Qed.

Lemma advance_pending t c : pending t (snd (advance t c)) = tail (pending t c).
Proof.
  destruct t; unfold advance, pending, next_mga, next_moo, next_mgpa;
    match goal with
    | |- context [match ?l with _ => _ end] =>
        let E := fresh "E" in destruct l eqn:E
    end;
    simpl; rewrite ?E; reflexivity.
Qed.

Lemma calls_history t n c : history t (calls t n c) = history t c.
Proof.
  revert c. induction n as [|n IH]; intros c; [reflexivity|].
  simpl. rewrite IH. apply advance_history.
Qed.

(** X1: an advance of a technique only moves the boundary between what is
    done and what is pending: the done queue, the current scenario and
    the pending queue, read one after the other, are the same list before
    and after any number of calls. *)
Theorem calls_keep_history (t : technique) (n : nat) (c : TemoaConfig) :
  history t (calls t n c) = history t c.
Proof.
  revert c. induction n as [|n IH]; intros c; [reflexivity|].
  change (calls t (S n) c) with (calls t n (snd (advance t c))).
  rewrite IH. unfold history.
  rewrite advance_pending.
  destruct t; unfold advance, pending, done, next_mga, next_moo, next_mgpa;
    match goal with
    | |- context [match ?l with _ => _ end] => destruct l
    end;
    simpl; rewrite <- ?app_assoc; reflexivity.
Qed.

Lemma advance_flag t c :
  fst (advance t c) = negb (bool_decide (pending t c = [])).
Proof.
  destruct t; unfold advance, pending, next_mga, next_moo, next_mgpa;
    match goal with
    | |- context [match ?l with _ => _ end] =>
        let E := fresh "E" in destruct l eqn:E
    end;
    simpl; rewrite ?E; reflexivity.
Qed.

Lemma calls_pending t n c : pending t (calls t n c) = drop n (pending t c).
Proof.
  revert c. induction n as [|n IH]; intros c; [reflexivity|].
  simpl calls. rewrite IH, advance_pending.
  destruct (pending t c); [destruct n|]; reflexivity.
Qed.

Lemma drained_history t c c' l x :
  pending t c' = [] ->
  pending t c = (l ++ [x])%list ->
  history t c' = history t c ->
  done t c' = (done t c ++ scenario c :: map Some l)%list
  /\ scenario c' = Some x.
Proof.
  unfold history. intros -> -> H. simpl in H.
  rewrite map_app in H. simpl in H.
  change (done t c ++ scenario c :: map Some l ++ [Some x])%list
    with (done t c ++ (scenario c :: map Some l) ++ [Some x])%list in H.
  rewrite app_assoc in H. apply app_inj_tail in H. exact H.
Qed.

(** X2: a technique with the pending names [l ++ [x]] is drained by as
    many calls as it has names: each of them returns [True], the call
    after them returns [False], and then the scenario is the last name
    [x], nothing is pending and the done queue has gained the scenario
    the sweep started from and the names before [x], in order. *)
Theorem drain (t : technique) (c : TemoaConfig) (l : list string) (x : string) :
  pending t c = (l ++ [x])%list ->
  (forall k, k <= List.length l -> fst (advance t (calls t k c)) = true)
  /\ fst (advance t (calls t (S (List.length l)) c)) = false
  /\ scenario (calls t (S (List.length l)) c) = Some x
  /\ pending t (calls t (S (List.length l)) c) = []
  /\ done t (calls t (S (List.length l)) c)
     = (done t c ++ scenario c :: map Some l)%list.
Proof.
  intros Hp.
  assert (Hlast : pending t (calls t (S (List.length l)) c) = []).
  { rewrite calls_pending, Hp. apply drop_ge. rewrite length_app. simpl. lia. }
  destruct (drained_history t c _ l x Hlast Hp (calls_history t _ c))
    as [Hdone Hscen].
  split; [|split; [|split; [|split]]]; try assumption.
  - intros k Hk. rewrite advance_flag, calls_pending, Hp.
    rewrite bool_decide_eq_false_2; [reflexivity|].
    intros H. apply (f_equal (@List.length _)) in H.
    rewrite length_drop, length_app in H. simpl in H. lia.
  - rewrite advance_flag, Hlast. reflexivity.
Qed.

(** Three pending names of MOO on an object whose scenario is [base]. *)
Lemma drain_witness :
  let c := set_moo_todo ["a"; "b"; "c"]
             (set_scenario (Some "base") (init "" None)) in
  (forall k, k <= 2 -> fst (advance MOO (calls MOO k c)) = true)
  /\ fst (advance MOO (calls MOO 3 c)) = false
  /\ scenario (calls MOO 3 c) = Some "c"
  /\ pending MOO (calls MOO 3 c) = []
  /\ done MOO (calls MOO 3 c) = [Some "base"; Some "a"; Some "b"].
Proof.
  intros c. apply (drain MOO c ["a"; "b"] "c"). reflexivity.
Defined.

(** X3: an advance of one technique leaves the queues of the other two,
    and the attributes that [build] and the exporter read, as they are:
    it changes the scenario and its own two queues only. *)
Theorem advance_other_technique (t t' : technique) (c : TemoaConfig) :
  t <> t' ->
  pending t' (snd (advance t c)) = pending t' c
  /\ done t' (snd (advance t c)) = done t' c
  /\ dot_dat (snd (advance t c)) = dot_dat c
  /\ output (snd (advance t c)) = output c
  /\ myopic (snd (advance t c)) = myopic c
  /\ mga_method (snd (advance t c)) = mga_method c
  /\ mgpa_method (snd (advance t c)) = mgpa_method c
  /\ __error (snd (advance t c)) = __error c.
Proof.
  intros Hne.
  destruct t, t'; try congruence; simpl;
    unfold next_mga, next_moo, next_mgpa;
    match goal with |- context [match ?l with _ => _ end] => destruct l end;
    repeat split; reflexivity.
Qed.

(** An advance of MGA on an object with pending names for MGA and MOO. *)
Lemma advance_other_technique_witness :
  let c := set_mga_todo ["m"] (set_moo_todo ["a"; "b"] (init "" None)) in
  pending MOO (snd (advance MGA c)) = ["a"; "b"]
  /\ done MOO (snd (advance MGA c)) = [].
Proof.
  intros c.
  destruct (advance_other_technique MGA MOO c ltac:(discriminate))
    as (H1 & H2 & _).
  split; [exact H1 | exact H2].
Defined.

End QueuesMore.

(** ** Decimal numerals *)

Module NumFacts.

Lemma pretty_N_char_digit x : Py.is_digit (pretty_N_char x) = true.
Proof. unfold pretty_N_char. repeat case_match; reflexivity. Qed.

Lemma pretty_N_char_val x :
  (x < 10)%N -> Py.digit_val (pretty_N_char x) = N.to_nat x.
Proof.
  intros Hx.
  assert (x = 0 \/ x = 1 \/ x = 2 \/ x = 3 \/ x = 4 \/ x = 5 \/ x = 6
          \/ x = 7 \/ x = 8 \/ x = 9)%N as H by lia.
  repeat (destruct H as [->|H]; [reflexivity|]). subst x. reflexivity.
Qed.

Lemma pretty_N_go_digits x : forall s,
  Py.forallb_str Py.is_digit s = true ->
  Py.forallb_str Py.is_digit (pretty_N_go x s) = true.
Proof.
  induction (N.lt_wf_0 x) as [x _ IH]; intros s Hs.
  destruct (decide (x = 0)%N) as [->|Hx].
  - rewrite pretty_N_go_0. exact Hs.
  - rewrite pretty_N_go_step by lia. apply IH.
    + apply N.div_lt; lia.
    + simpl. rewrite pretty_N_char_digit. exact Hs.
Qed.

Lemma str_nat_digits n : Py.forallb_str Py.is_digit (Py.str_nat n) = true.
Proof.
  unfold Py.str_nat, pretty, pretty_nat, pretty, pretty_N.
  case_decide; [reflexivity|]. apply pretty_N_go_digits. reflexivity.
Qed.

Lemma int_go_pretty x : forall s,
  Py.int_go 0 (pretty_N_go x s) = Py.int_go (N.to_nat x) s.
Proof.
  induction (N.lt_wf_0 x) as [x _ IH]; intros s.
  destruct (decide (x = 0)%N) as [->|Hx].
  - rewrite pretty_N_go_0. reflexivity.
  - rewrite pretty_N_go_step by lia.
    rewrite IH by (apply N.div_lt; lia).
    simpl. rewrite pretty_N_char_digit.
    rewrite pretty_N_char_val by (apply N.mod_lt; lia).
    f_equal.
    pose proof (N.div_mod x 10 ltac:(lia)) as Hdm.
    pose proof (N.mod_lt x 10 ltac:(lia)).
    lia.
Qed.

Lemma int_str_nat n : Py.int (Py.str_nat n) = Ok n.
Proof.
  unfold Py.str_nat, pretty, pretty_nat, pretty, pretty_N.
  case_decide as H0.
  - assert (n = 0) as -> by lia. reflexivity.
  - pose proof (int_go_pretty (N.of_nat n) "") as H.
    rewrite Nat2N.id in H. simpl in H.
    unfold Py.int. destruct (pretty_N_go (N.of_nat n) "") eqn:E.
    + simpl in H. injection H as <-. lia.
    + exact H.
Qed.

Lemma str_nat_nonempty n : Py.str_nat n <> "".
Proof.
  intros H. pose proof (int_str_nat n) as Hi. rewrite H in Hi. discriminate.
Qed.

Lemma str_nat_inj n m : Py.str_nat n = Py.str_nat m -> n = m.
Proof. apply pretty_nat_inj. Qed.

End NumFacts.

(** ** The filling of the queues *)

Module PopulateMore.

Import Config More Queues StrFacts.

Lemma put_mgpa_general c base i :
  scenario c = Some base ->
  put_mgpa i c
  = Ok (set_mgpa_todo
          (__mgpa_todo c
           ++ cap_name base i
              :: map (nested_name base i) (seq 0 (default 0 (mgpa_iter c))))%list
          c).
Proof.
  intros Hs. unfold put_mgpa, scenario_plus. rewrite Hs. simpl.
  destruct (mgpa_iter c) as [[|k]|] eqn:Hi; try reflexivity.
  change (negb (S k =? 0)%nat) with true. cbv iota.
  change (default 0 (Some (S k))) with (S k).
  rewrite (fill_mgpa_inner _ base) by exact Hs.
  simpl. rewrite <- app_assoc. reflexivity.
Qed.

Lemma fill_mgpa_general c base start n :
  scenario c = Some base ->
  for_range put_mgpa start n c
  = Ok (set_mgpa_todo
          (__mgpa_todo c
           ++ flat_map
                (fun i => cap_name base i
                          :: map (nested_name base i)
                               (seq 0 (default 0 (mgpa_iter c))))
                (seq start n))%list
          c).
Proof.
  revert start c. induction n as [|n IH]; intros start c Hs.
  - destruct c; simpl. rewrite app_nil_r. reflexivity.
  - simpl for_range. rewrite (put_mgpa_general c base start) by assumption.
    simpl. rewrite (IH (S start)) by assumption.
    simpl. rewrite <- app_assoc. reflexivity.
Qed.

Lemma guarded_fill (o : option nat) (c : TemoaConfig)
  (body : nat -> TemoaConfig -> result TemoaConfig) :
  (if truthy_nat o then for_range body 0 (default 0 o) c else Ok c)
  = for_range body 0 (default 0 o) c.
Proof. destruct o as [[|n]|]; reflexivity. Qed.

Lemma populate_none c :
  scenario c = None ->
  populate c
  = if truthy_nat (mga_iter c) || truthy_nat (moo_ncaps c)
       || truthy_nat (mgpa_ncaps c)
    then Raise TypeError else Ok c.
Proof.
  intros Hs. unfold populate.
  destruct (mga_iter c) as [[|n]|] eqn:E1; simpl;
    try (unfold put_mga, scenario_plus; rewrite Hs; reflexivity);
    (destruct (moo_ncaps c) as [[|m]|] eqn:E2; simpl;
     try (unfold put_moo, scenario_plus; rewrite Hs; reflexivity);
     (destruct (mgpa_ncaps c) as [[|k]|] eqn:E3; simpl;
      try (unfold put_mgpa, scenario_plus; rewrite Hs; reflexivity);
      reflexivity)).
Qed.

Lemma populate_some c base :
  scenario c = Some base ->
  populate c
  = Ok (set_mgpa_todo
          (__mgpa_todo c
           ++ mgpa_names base (default 0 (mgpa_ncaps c))
                (default 0 (mgpa_iter c)))%list
          (set_moo_todo
             (__moo_todo c
              ++ map (cap_name base) (seq 0 (default 0 (moo_ncaps c))))%list
             (set_mga_todo
                (__mga_todo c
                 ++ map (mga_name base) (seq 0 (default 0 (mga_iter c))))%list
                c))).
Proof.
  intros Hs. unfold populate.
  rewrite guarded_fill, (fill_mga c base) by exact Hs. simpl.
  rewrite guarded_fill, (fill_moo _ base) by exact Hs. simpl.
  rewrite guarded_fill, (fill_mgpa_general _ base) by exact Hs.
  reflexivity.
Qed.

(** X4: with a scenario name set, the filling of the queues never fails:
    it appends to each pending queue the names of its technique, in
    order - one per iteration for MGA, one per cap for MOO, cap by cap
    with the iterations of each cap for MGPA - an unset or zero count
    adding nothing, and leaves the scenario and the done queues as they
    are. *)
Theorem populate_with_scenario (c : TemoaConfig) (base : string) :
  scenario c = Some base ->
  exists c',
    populate c = Ok c'
    /\ __mga_todo c'
       = (__mga_todo c
          ++ map (mga_name base) (seq 0 (default 0 (mga_iter c))))%list
    /\ __moo_todo c'
       = (__moo_todo c
          ++ map (cap_name base) (seq 0 (default 0 (moo_ncaps c))))%list
    /\ __mgpa_todo c'
       = (__mgpa_todo c
          ++ mgpa_names base (default 0 (mgpa_ncaps c))
               (default 0 (mgpa_iter c)))%list
    /\ scenario c' = Some base
    /\ __mga_done c' = __mga_done c
    /\ __moo_done c' = __moo_done c
    /\ __mgpa_done c' = __mgpa_done c.
Proof.
  intros Hs. eexists. split; [apply populate_some, Hs|].
  repeat split; try reflexivity. exact Hs.
Qed.

(** Three iterations of MGA, two caps of MOO, no MGPA. *)
Lemma populate_with_scenario_witness :
  let c := set_scenario (Some "base")
             (set_mga_iter (Some 3) (set_moo_ncaps (Some 2) (init "" None))) in
  exists c',
    populate c = Ok c'
    /\ __mga_todo c' = ["base_mga_0"; "base_mga_1"; "base_mga_2"]
    /\ __moo_todo c' = ["base_moo_0"; "base_moo_1"]
    /\ __mgpa_todo c' = [].
Proof.
  intros c.
  destruct (populate_with_scenario c "base" eq_refl)
    as (c' & Hp & H1 & H2 & H3 & _).
  exists c'. repeat split; assumption.
Defined.

(** X5: without a scenario name the filling of the queues raises
    [TypeError] as soon as one of the three counts is set and not zero,
    and does nothing otherwise; the checks of [build] let such an object
    through in the [.dat] mode, the only one in which they pass without
    a scenario. *)
Theorem populate_without_scenario (isfile : string -> bool)
  (c : TemoaConfig) (db_or_dat : bool) :
  scenario c = None ->
  validate isfile c = Ok db_or_dat ->
  db_or_dat = false
  /\ populate c
     = if truthy_nat (mga_iter c) || truthy_nat (moo_ncaps c)
          || truthy_nat (mgpa_ncaps c)
       then Raise TypeError else Ok c.
Proof.
  intros Hs Hv. split; [|apply populate_none, Hs].
  unfold validate in Hv.
  destruct (bool_decide (dot_dat c = [])); [discriminate|].
  destruct (classify isfile (dot_dat c) true) as [m|e]; [|discriminate].
  simpl in Hv. destruct m; [|destruct (check_output isfile c false);
                               simpl in Hv; congruence].
  exfalso. unfold check_output in Hv. rewrite Hs in Hv.
  destruct (output c) as [p|]; simpl in Hv; [|discriminate].
  destruct (String.eqb p ""); simpl in Hv; [discriminate|].
  destruct (isfile p); simpl in Hv; discriminate.
Qed.

(** A [.dat] input, no scenario, two MGA iterations. *)
Lemma populate_without_scenario_witness :
  let c := set_dot_dat ["/w/a.dat"] (set_mga_iter (Some 2) (init "" None)) in
  validate (fun _ => true) c = Ok false /\ populate c = Raise TypeError.
Proof.
  intros c.
  destruct (populate_without_scenario (fun _ => true) c false eq_refl eq_refl)
    as [_ H].
  split; [reflexivity | exact H].
Defined.

Lemma caps_only base n : forall start,
  flat_map (fun i => cap_name base i :: map (nested_name base i) (seq 0 0))
    (seq start n)
  = map (cap_name base) (seq start n).
Proof.
  induction n as [|n IH]; intros start; simpl; [reflexivity|].
  rewrite IH. reflexivity.
Qed.

(** X6: the caps of MGPA are given the names of the caps of MOO: when
    the two techniques are asked for the same number of caps and MGPA
    for no iteration, two pending queues that are equal before the
    filling are equal after it. *)
Theorem mgpa_caps_named_like_moo (c c' : TemoaConfig) :
  mgpa_ncaps c = moo_ncaps c ->
  truthy_nat (mgpa_iter c) = false ->
  __mgpa_todo c = __moo_todo c ->
  populate c = Ok c' ->
  __mgpa_todo c' = __moo_todo c'.
Proof.
  intros Hn Hit Hq Hp.
  destruct (scenario c) as [base|] eqn:Hs.
  - rewrite (populate_some c base Hs) in Hp. injection Hp as <-. simpl.
    rewrite Hq, Hn. f_equal.
    assert (Hz : default 0 (mgpa_iter c) = 0)
      by (destruct (mgpa_iter c) as [[|k]|]; simpl in *; congruence).
    rewrite Hz. apply caps_only.
  - rewrite (populate_none c Hs) in Hp.
    destruct (_ || _); [discriminate|]. injection Hp as <-. exact Hq.
Qed.

(** Two caps for each of the two techniques. *)
Lemma mgpa_caps_named_like_moo_witness :
  let c := set_scenario (Some "base")
             (set_moo_ncaps (Some 2) (set_mgpa_ncaps (Some 2) (init "" None))) in
  match populate c with
  | Ok c' => __mgpa_todo c' = __moo_todo c'
  | Raise _ => False
  end.
Proof.
  intros c. destruct (populate c) as [c'|e] eqn:Hp;
    [|vm_compute in Hp; discriminate Hp].
  apply (mgpa_caps_named_like_moo c c'); [reflexivity..|exact Hp].
Defined.

(** *** The names are distinct and made of word characters *)

Lemma append_cancel (a b c : string) : a ++ b = a ++ c -> b = c.
Proof. induction a as [|x a IH]; simpl; [auto|]. intros [= H]. auto. Qed.

Lemma digits_then (d1 d2 r1 r2 : string) (x : ascii) :
  Py.is_digit x = false ->
  Py.forallb_str Py.is_digit d1 = true ->
  Py.forallb_str Py.is_digit d2 = true ->
  d1 ++ String x r1 = d2 ++ String x r2 -> d1 = d2 /\ r1 = r2.
Proof.
  intros Hx. revert d2. induction d1 as [|a d1 IH]; intros [|b d2]; simpl.
  - intros _ _ [= ->]. auto.
  - intros _ [Hb _]%andb_prop [= <- _]. congruence.
  - intros [Ha _]%andb_prop _ [= -> _]. congruence.
  - intros [_ H1]%andb_prop [_ H2]%andb_prop [= -> H].
    destruct (IH d2 H1 H2 H) as [-> ->]. auto.
Qed.

Lemma mga_name_inj base i j : mga_name base i = mga_name base j -> i = j.
Proof.
  unfold mga_name. intros H%append_cancel%(append_cancel "_mga_").
  apply NumFacts.str_nat_inj, H.
Qed.

Lemma cap_name_inj base i j : cap_name base i = cap_name base j -> i = j.
Proof.
  unfold cap_name. intros H%append_cancel%(append_cancel "_moo_").
  apply NumFacts.str_nat_inj, H.
Qed.

Lemma nested_name_inj base i j i' j' :
  nested_name base i j = nested_name base i' j' -> i = i' /\ j = j'.
Proof.
  unfold nested_name. intros H%append_cancel%(append_cancel "_moo_").
  apply (digits_then _ _ _ _ "_") in H as [Hi Hj];
    [|reflexivity|apply NumFacts.str_nat_digits..].
  apply (append_cancel "mga_") in Hj.
  split; apply NumFacts.str_nat_inj; assumption.
Qed.

Lemma cap_not_nested base i i' j : cap_name base i <> nested_name base i' j.
Proof.
  unfold cap_name, nested_name.
  intros H%append_cancel%(append_cancel "_moo_").
  pose proof (NumFacts.str_nat_digits i) as Hd. rewrite H in Hd.
  rewrite forallb_str_app in Hd. apply andb_prop in Hd as [_ Hd].
  discriminate Hd.
Qed.

Lemma NoDup_flat_map {A B} (g : A -> list B) (l : list A) :
  NoDup l ->
  (forall x, x ∈ l -> NoDup (g x)) ->
  (forall x1 x2 y, x1 ∈ l -> x2 ∈ l -> y ∈ g x1 -> y ∈ g x2 -> x1 = x2) ->
  NoDup (flat_map g l).
Proof.
  induction 1 as [|a l Ha Hl IH]; intros Hg Hd; simpl; [constructor|].
  apply NoDup_app. split; [apply Hg; left|]. split.
  - intros y Hy Hin. apply list_elem_of_In, in_flat_map in Hin
      as (x & Hx%list_elem_of_In & Hyx%list_elem_of_In).
    apply Ha. rewrite (Hd a x y); [exact Hx|left|right; exact Hx|exact Hy|exact Hyx].
  - apply IH.
    + intros x Hx. apply Hg. right. exact Hx.
    + intros x1 x2 y H1 H2. apply Hd; right; assumption.
Qed.

Lemma NoDup_map_seq (g : nat -> string) start n :
  (forall i j, g i = g j -> i = j) -> NoDup (map g (seq start n)).
Proof.
  intros Hg. apply (NoDup_fmap_2_strong g).
  - intros i j _ _. apply Hg.
  - apply NoDup_seq.
Qed.

Lemma mgpa_names_nodup base n m : NoDup (mgpa_names base n m).
Proof.
  unfold mgpa_names. apply NoDup_flat_map.
  - apply NoDup_seq.
  - intros i _. constructor.
    + intros Hin%list_elem_of_In%in_map_iff. destruct Hin as (j & Hj & _).
      symmetry in Hj. exact (cap_not_nested _ _ _ _ Hj).
    + apply NoDup_map_seq. intros j j' H.
      apply nested_name_inj in H. tauto.
  - intros i i' y _ _ Hy Hy'.
    apply elem_of_cons in Hy as [->|Hy%list_elem_of_In%in_map_iff];
      apply elem_of_cons in Hy' as [Hy'|Hy'%list_elem_of_In%in_map_iff].
    + apply cap_name_inj in Hy'. exact Hy'.
    + destruct Hy' as (j & Hj & _). symmetry in Hj.
      destruct (cap_not_nested _ _ _ _ Hj).
    + destruct Hy as (j & Hj & _). subst y.
      symmetry in Hy'. destruct (cap_not_nested _ _ _ _ Hy').
    + destruct Hy as (j & <- & _). destruct Hy' as (j' & Hj & _).
      apply nested_name_inj in Hj. symmetry. tauto.
Qed.

(** X7: filled from empty, no pending queue holds a name twice: the
    names of a technique differ in the decimal numerals they end in, and
    in MGPA the name of a cap is the name of none of its iterations. *)
Theorem populated_names_distinct (c c' : TemoaConfig) (t : technique) :
  pending t c = [] ->
  populate c = Ok c' ->
  NoDup (pending t c').
Proof.
  intros Hq Hp.
  destruct (scenario c) as [base|] eqn:Hs.
  - rewrite (populate_some c base Hs) in Hp. injection Hp as <-.
    destruct t; simpl in *; rewrite Hq; simpl.
    + apply NoDup_map_seq, mga_name_inj.
    + apply NoDup_map_seq, cap_name_inj.
    + apply mgpa_names_nodup.
  - rewrite (populate_none c Hs) in Hp.
    destruct (_ || _); [discriminate|]. injection Hp as <-.
    rewrite Hq. constructor.
Qed.

(** Two caps of MGPA with two iterations each. *)
Lemma populated_names_distinct_witness :
  let c := set_scenario (Some "base")
             (set_mgpa_ncaps (Some 2) (set_mgpa_iter (Some 2) (init "" None))) in
  match populate c with
  | Ok c' => NoDup (__mgpa_todo c')
  | Raise _ => False
  end.
Proof.
  intros c. destruct (populate c) as [c'|e] eqn:Hp;
    [|vm_compute in Hp; discriminate Hp].
  apply (populated_names_distinct c c' MGPA); [reflexivity|exact Hp].
Defined.

Lemma digit_is_word c : Py.is_digit c = true -> Py.is_word c = true.
Proof. unfold Py.is_word. intros ->. rewrite orb_true_r. reflexivity. Qed.

Lemma wordy_app (a b : string) :
  wordy a -> Py.forallb_str Py.is_word b = true -> wordy (a ++ b).
Proof.
  intros [Ha Hw] Hb. split.
  - destruct a; [congruence|discriminate].
  - rewrite forallb_str_app, Hw, Hb. reflexivity.
Qed.

Lemma str_nat_word i : Py.forallb_str Py.is_word (Py.str_nat i) = true.
Proof.
  apply (forallb_str_impl Py.is_digit); [apply digit_is_word|].
  apply NumFacts.str_nat_digits.
Qed.

Lemma mga_name_wordy base i : wordy base -> wordy (mga_name base i).
Proof.
  intros H. apply wordy_app; [exact H|].
  rewrite forallb_str_app, str_nat_word. reflexivity.
Qed.

Lemma cap_name_wordy base i : wordy base -> wordy (cap_name base i).
Proof.
  intros H. apply wordy_app; [exact H|].
  rewrite forallb_str_app, str_nat_word. reflexivity.
Qed.

Lemma nested_name_wordy base i j : wordy base -> wordy (nested_name base i j).
Proof.
  intros H. apply wordy_app; [exact H|].
  rewrite !forallb_str_app, !str_nat_word. reflexivity.
Qed.

Lemma mgpa_names_wordy base n m :
  wordy base -> Forall wordy (mgpa_names base n m).
Proof.
  intros H. apply Forall_forall. intros y Hy%list_elem_of_In%in_flat_map.
  destruct Hy as (i & _ & [<-|Hy%in_map_iff]).
  - apply cap_name_wordy, H.
  - destruct Hy as (j & <- & _). apply nested_name_wordy, H.
Qed.

Lemma wordy_quote_free s : wordy s -> Exporter.quote_free s = true.
Proof.
  intros [_ H]. unfold Exporter.quote_free.
  induction s as [|x s IH]; [reflexivity|].
  cbn [Py.forallb_str Py.existsb_str] in *. apply andb_prop in H as [Hx Hs].
  destruct (Ascii.eqb_spec "'" x) as [<-|_]; [discriminate Hx|].
  apply IH, Hs.
Qed.

Lemma calls_wordy t n : forall c,
  (exists s, scenario c = Some s /\ wordy s) ->
  Forall wordy (pending t c) ->
  exists s, scenario (calls t n c) = Some s /\ wordy s.
Proof.
  induction n as [|n IH]; intros c Hs Hq; [exact Hs|].
  simpl. apply IH.
  - destruct t; simpl in *; unfold next_mga, next_moo, next_mgpa;
      match goal with
      | |- context [match ?l with _ => _ end] =>
          let E := fresh "E" in destruct l eqn:E
      end; simpl; try exact Hs;
      apply Forall_cons in Hq as [Hq _]; eauto.
  - rewrite QueuesMore.advance_pending.
    destruct (pending t c); [exact Hq|].
    apply Forall_cons in Hq as [_ Hq]. exact Hq.
Qed.

(** X8: a scenario name made of word characters stays so through a
    sweep: every name the filling of the queues builds from it is made of
    word characters, so that at any point of the sweep of a technique the
    scenario is such a name and holds no quote. *)
Theorem sweep_scenarios_wordy (c c' : TemoaConfig) (base : string)
  (t : technique) (n : nat) :
  scenario c = Some base ->
  wordy base ->
  Forall wordy (pending t c) ->
  populate c = Ok c' ->
  exists s, scenario (calls t n c') = Some s
            /\ wordy s
            /\ Exporter.quote_free (Exporter.str_scenario (calls t n c')) = true.
Proof.
  intros Hs Hw Hq Hp.
  rewrite (populate_some c base Hs) in Hp. injection Hp as <-.
  match goal with |- context [calls t n ?x] => set (c1 := x) end.
  destruct (calls_wordy t n c1) as (s & Hs' & Hw').
  - exists base. split; [exact Hs|exact Hw].
  - destruct t; simpl in *; apply Forall_app; split; try exact Hq;
      try apply mgpa_names_wordy; try exact Hw;
      apply Forall_forall; intros y Hy%list_elem_of_In%in_map_iff;
      destruct Hy as (i & <- & _);
      [apply mga_name_wordy|apply cap_name_wordy]; exact Hw.
  - exists s. split; [exact Hs'|]. split; [exact Hw'|].
    unfold Exporter.str_scenario. rewrite Hs'. apply wordy_quote_free, Hw'.
Qed.

(** The scenario after two advances of an MGA sweep of three
    iterations. *)
Lemma sweep_scenarios_wordy_witness :
  let c := set_scenario (Some "base") (set_mga_iter (Some 3) (init "" None)) in
  match populate c with
  | Ok c' => exists s, scenario (calls MGA 2 c') = Some s /\ wordy s
  | Raise _ => False
  end.
Proof.
  intros c. destruct (populate c) as [c'|e] eqn:Hp;
    [|vm_compute in Hp; discriminate Hp].
  destruct (sweep_scenarios_wordy c c' "base" MGA 2 eq_refl)
    as (s & H1 & H2 & _).
  - split; [discriminate|reflexivity].
  - constructor.
  - exact Hp.
  - exists s. split; assumption.
Defined.

End PopulateMore.

(** ** The exported file *)

Module ExportMore.

Import Config Exporter MoreExporter ExporterFacts StrFacts.

#[local] Arguments String.append !_ _ / : simpl nomatch.

(** X9: outside a myopic run the exporter never changes the database,
    however it ends. *)
Theorem export_reads (iter_set : list cell -> list cell)
  (options : TemoaConfig) (w : world) :
  myopic options = false ->
  store (fst (db_2_dat iter_set options w)) = store w.
Proof.
  intros Hm. revert w. change (reads (db_2_dat iter_set options)).
  unfold db_2_dat. rewrite Hm.
  repeat first
    [ apply reads_ret | apply reads_write | apply reads_open_w
    | apply reads_table_names | apply reads_write_tech_mga
    | apply reads_write_tech_sector | apply reads_query_table
    | apply reads_bind; [|intros ?]
    | apply reads_for_each; intros ?; unfold export_table
    | apply reads_if ].
Qed.

(** An MGA run with the integer weights on the database of the myopic
    example. *)
Lemma export_reads_witness :
  store (fst (db_2_dat (fun l => l)
                (set_mga_method (Some "integer") (init "" None)) myopic_world))
  = store myopic_world.
Proof. apply export_reads. reflexivity. Defined.

(** *** The file and the standard output are only added to *)

Lemma appends_ret {A} (a : A) : appends (mret a : io A).
Proof.
  intros [db fl out]. unfold appends, text, echo, mret, io_ret. simpl.
  rewrite !append_nil_r. reflexivity.
Qed.

Lemma appends_lift {A} (r : result A) : appends (lift r).
Proof.
  intros [db fl out]. unfold text, echo, lift. simpl.
  rewrite !append_nil_r. reflexivity.
Qed.

Lemma appends_write s : appends (write s).
Proof.
  intros [db fl out]. unfold text, echo, write. simpl.
  rewrite append_nil_r. reflexivity.
Qed.

Lemma appends_print s : appends (print s).
Proof.
  intros [db fl out]. unfold text, echo, print. simpl.
  rewrite append_nil_r. reflexivity.
Qed.

Lemma appends_find_table name : appends (find_table name).
Proof.
  intros [db fl out]. unfold text, echo, find_table. simpl.
  destruct (db !! name); simpl; rewrite !append_nil_r; reflexivity.
Qed.

Lemma appends_table_names : appends table_names.
Proof.
  intros [db fl out]. unfold text, echo, table_names. simpl.
  rewrite !append_nil_r. reflexivity.
Qed.

Lemma appends_delete_where name col v : appends (delete_where name col v).
Proof.
  intros [db fl out]. unfold text, echo, delete_where. simpl.
  destruct (db !! name) as [t|]; simpl; [|rewrite !append_nil_r; reflexivity].
  destruct (find_column t col), (literal v); simpl;
    rewrite !append_nil_r; reflexivity.
Qed.

Lemma appends_bind {A B} (m : io A) (k : A -> io B) :
  appends m -> (forall a, appends (k a)) -> appends (m ≫= k).
Proof.
  intros Hm Hk w. unfold text, echo, mbind, io_bind.
  rewrite (Hm w). unfold text, echo.
  destruct (m (blank (store w))) as [wb [a|e]]; simpl; [|reflexivity].
  rewrite (Hk a). rewrite (Hk a wb). simpl.
  rewrite !append_assoc. reflexivity.
Qed.

Lemma appends_if {A} (b : bool) (m1 m2 : io A) :
  appends m1 -> appends m2 -> appends (if b then m1 else m2).
Proof. destruct b; auto. Qed.

Lemma appends_for_each {A} (l : list A) (body : A -> io unit) :
  (forall x, appends (body x)) -> appends (for_each l body).
Proof.
  intros Hb. induction l as [|x l IH]; simpl.
  - apply appends_ret.
  - apply appends_bind; [apply Hb|intros _; exact IH].
Qed.

Ltac appends_tac :=
  repeat first
    [ apply appends_ret | apply appends_lift | apply appends_write
    | apply appends_print | apply appends_find_table
    | apply appends_table_names | apply appends_delete_where
    | apply appends_bind; [|intros ?]
    | apply appends_for_each; intros ?
    | apply appends_if ].

Lemma appends_execute q : appends (execute q).
Proof. destruct q; simpl; unfold select_all, select_where; appends_tac. Qed.

Lemma appends_section p q name : appends (section p q name).
Proof.
  unfold section. apply appends_bind; [apply appends_execute|].
  intros [|line found]; [apply appends_ret|].
  apply appends_bind; [apply appends_write|intros _].
  apply appends_bind; [apply appends_execute|intros lines].
  appends_tac.
Qed.

Lemma appends_query_table p : appends (query_table p).
Proof.
  unfold query_table. destruct (t_flag p) as [l|fl];
    [|destruct (negb (String.eqb fl ""))]; apply appends_section.
Qed.

Lemma appends_export_table table_exist p :
  appends (export_table table_exist p).
Proof.
  unfold export_table. apply appends_if;
    [apply appends_query_table|apply appends_ret].
Qed.

Lemma appends_write_tech_mga : appends write_tech_mga.
Proof. unfold write_tech_mga, select_column. appends_tac. Qed.

Lemma appends_write_tech_sector iter_set :
  appends (write_tech_sector iter_set).
Proof.
  unfold write_tech_sector, select_column, select_column_where. appends_tac.
Qed.

Lemma appends_cleanup options : appends (cleanup options).
Proof. unfold cleanup, vacuum. appends_tac. Qed.

(** What [db_2_dat] does after the header is written. *)
Lemma appends_tail iter_set options :
  appends
    (table_exist ← table_names;
     _ ← for_each table_list (export_table table_exist);
     _ ← (if is_method (mga_method options) ["integer"; "random"]
          then write_tech_mga else mret tt);
     _ ← (if is_method (mga_method options) ["normalized"]
          then write_tech_sector iter_set else mret tt);
     _ ← (if is_method (mgpa_method options) ["integer"; "random"]
          then write_tech_mga else mret tt);
     _ ← (if is_method (mgpa_method options) ["normalized"]
          then write_tech_sector iter_set else mret tt);
     if myopic options then cleanup options else mret tt).
Proof.
  apply appends_bind; [apply appends_table_names|intros table_exist].
  apply appends_bind;
    [apply appends_for_each; intros p; apply appends_export_table|intros _].
  apply appends_bind;
    [apply appends_if; [apply appends_write_tech_mga|apply appends_ret]
    |intros _].
  apply appends_bind;
    [apply appends_if; [apply appends_write_tech_sector|apply appends_ret]
    |intros _].
  apply appends_bind;
    [apply appends_if; [apply appends_write_tech_mga|apply appends_ret]
    |intros _].
  apply appends_bind;
    [apply appends_if; [apply appends_write_tech_sector|apply appends_ret]
    |intros _].
  apply appends_if; [apply appends_cleanup|apply appends_ret].
Qed.

(** X10: the exporter starts the file anew and only adds to it: however
    the run ends, the file begins with the line [data ;] and an empty
    line; what follows, what is printed, what becomes of the database
    and how the run ends depend on the database and the options, not on
    what the file held or on what was printed before. *)
Theorem export_file (iter_set : list cell -> list cell)
  (options : TemoaConfig) (db : gmap string table) :
  exists body printed db' r,
    forall old out,
      db_2_dat iter_set options {| store := db; f := old; stdout := out |}
      = ({| store := db';
            f := "data ;" ++ nl ++ nl ++ body;
            stdout := out ++ printed |}, r).
Proof.
  pose proof (appends_tail iter_set options) as Ht.
  set (tail := (table_names ≫= _)) in Ht.
  exists (text tail db), (echo tail db),
    (store (fst (tail (blank db)))), (snd (tail (blank db))).
  intros old out.
  change (db_2_dat iter_set options)
    with (open_w ≫= fun _ => write ("data ;" ++ nl ++ nl) ≫= fun _ => tail).
  unfold mbind at 1 2, io_bind, open_w, write. simpl.
  rewrite (Ht _). reflexivity.
Qed.

(** *** The file as the sections one after the other *)

Lemma step_text {A} (m : io A) w w' r :
  appends m -> reads m -> m w = (w', r) ->
  store w' = store w /\ f w' = f w ++ text m (store w).
Proof.
  intros Ha Hr H. pose proof (Hr w) as Hs. rewrite H in Hs.
  split; [exact Hs|]. rewrite (Ha w) in H. injection H as <- _. reflexivity.
Qed.

Lemma for_each_text {A} (body : A -> io unit) :
  (forall x, appends (body x)) -> (forall x, reads (body x)) ->
  forall l w w',
    for_each l body w = (w', Ok tt) ->
    store w' = store w
    /\ f w' = f w ++ joined (map (fun x => text (body x) (store w)) l).
Proof.
  intros Ha Hr. induction l as [|x l IH]; intros w w' H.
  - injection H as <-. simpl. rewrite append_nil_r. auto.
  - simpl in H. apply bind_ok in H as ([] & w1 & H1 & H).
    destruct (step_text _ _ _ _ (Ha x) (Hr x) H1) as [Hs1 Hf1].
    destruct (IH _ _ H) as [Hs Hf]. split; [congruence|].
    rewrite Hf, Hf1, Hs1. simpl. rewrite append_assoc. reflexivity.
Qed.

Lemma reads_export_table table_exist p : reads (export_table table_exist p).
Proof.
  unfold export_table. apply reads_if; [apply reads_query_table|apply reads_ret].
Qed.

Lemma method_step (b : bool) (m : io unit) w w' :
  appends m -> reads m ->
  (if b then m else mret tt) w = (w', Ok tt) ->
  store w' = store w
  /\ f w' = f w ++ (if b then text m (store w) else "").
Proof.
  intros Ha Hr H. destruct b.
  - exact (step_text _ _ _ _ Ha Hr H).
  - injection H as <-. rewrite append_nil_r. auto.
Qed.

(** X11: the file of a run that returns is the header, then the section
    of each table of [table_list] that the database has, in the order of
    the list, then the sections of the weighting methods of MGA and of
    MGPA; each section is what its step writes on an empty file from the
    database as it was at the start, whatever was written before. *)
Theorem export_sections (iter_set : list cell -> list cell)
  (options : TemoaConfig) (w w' : world) :
  db_2_dat iter_set options w = (w', Ok tt) ->
  f w'
  = "data ;" ++ nl ++ nl
    ++ joined (map (fun p => text (export_table (dom (store w)) p) (store w))
                 table_list)
    ++ method_sections iter_set (mga_method options) (store w)
    ++ method_sections iter_set (mgpa_method options) (store w).
Proof.
  unfold db_2_dat. intros H.
  apply bind_ok in H as ([] & w1 & H1 & H).
  apply bind_ok in H as ([] & w2 & H2 & H).
  apply bind_ok in H as (table_exist & w3 & H3 & H).
  apply bind_ok in H as ([] & w4 & H4 & H).
  apply bind_ok in H as ([] & w5 & H5 & H).
  apply bind_ok in H as ([] & w6 & H6 & H).
  apply bind_ok in H as ([] & w7 & H7 & H).
  apply bind_ok in H as ([] & w8 & H8 & H).
  injection H1 as <-. injection H2 as <-. injection H3 as <- <-.
  apply for_each_text in H4 as [S4 F4];
    [|intros p; apply appends_export_table|intros p; apply reads_export_table].
  apply method_step in H5 as [S5 F5];
    [|apply appends_write_tech_mga|apply reads_write_tech_mga].
  apply method_step in H6 as [S6 F6];
    [|apply appends_write_tech_sector|apply reads_write_tech_sector].
  apply method_step in H7 as [S7 F7];
    [|apply appends_write_tech_mga|apply reads_write_tech_mga].
  apply method_step in H8 as [S8 F8];
    [|apply appends_write_tech_sector|apply reads_write_tech_sector].
  assert (F9 : f w' = f w8).
  { destruct (myopic options).
    - apply (cleanup_ok _ _ _ H).
    - injection H as <-. reflexivity. }
  cbn [store f stdout] in S4, F4.
  rewrite S4 in S5, F5. rewrite S5 in S6, F6. rewrite S6 in S7, F7.
  rewrite S7 in F8.
  rewrite F9, F8, F7, F6, F5, F4.
  unfold method_sections. rewrite !append_assoc. reflexivity.
Qed.

(** The export of the database of the example, which has one of the
    listed tables. *)
Lemma export_sections_witness :
  f (fst (db_2_dat (fun l => l) (init "" None) example_world))
  = "data ;" ++ nl ++ nl
    ++ "param DiscreteCapacity := " ++ nl
    ++ "    A         1    " ++ nl
    ++ "    B         2    " ++ nl
    ++ ";" ++ nl ++ nl.
Proof.
  rewrite (export_sections (fun l => l) (init "" None) example_world
             (fst (db_2_dat (fun l => l) (init "" None) example_world)));
    vm_compute; reflexivity.
Defined.

(** *** The section of a table *)

Lemma world_eta w :
  w = {| store := store w; f := f w ++ ""; stdout := stdout w ++ "" |}.
Proof. destruct w. simpl. rewrite !append_nil_r. reflexivity. Qed.

Lemma loop_rows (body : list cell -> io unit) (g : list cell -> string)
  lines :
  Forall (fun l => forall w,
            body l w = ({| store := store w; f := f w ++ g l;
                           stdout := stdout w ++ g l ++ nl |}, Ok tt)) lines ->
  forall w,
    for_each lines body w
    = ({| store := store w;
          f := f w ++ joined (map g lines);
          stdout := stdout w ++ joined (map (fun l => g l ++ nl) lines) |},
       Ok tt).
Proof.
  induction 1 as [|l lines Hl _ IH]; intros w.
  - simpl. rewrite <- world_eta. reflexivity.
  - cbn [for_each map joined foldr]. unfold mbind at 1, io_bind.
    rewrite Hl, IH. cbn [store f stdout]. rewrite !append_assoc. reflexivity.
Qed.

(** X12: a table whose query returns rows is written as its header line,
    one line for each row in the order of the query, and a line with [;]
    followed by an empty line; every row line is also printed, followed
    by an empty line.  When the index of the table is 0 the row line is
    the first field of the row. *)
Theorem table_section (p : TableSpec) (w : world)
  (line : list cell) (lines : list (list cell)) :
  snd (execute (db_query p) w) = Ok (line :: lines) ->
  (t_index p = 0 -> Forall (fun l : list cell => l <> []) (line :: lines)) ->
  query_table p w
  = ({| store := store w;
        f := f w ++ header p ++ joined (map (row_text p) (line :: lines))
             ++ ";" ++ nl ++ nl;
        stdout := stdout w
                  ++ joined (map (fun l => row_text p l ++ nl)
                               (line :: lines)) |},
     Ok tt).
Proof.
  intros Hq Hne. rewrite query_table_section. fold (dat_name p).
  unfold section, mbind at 1, io_bind.
  pose proof (execute_world (db_query p) w) as Hw.
  destruct (execute (db_query p) w) as [w1 r] eqn:He.
  simpl in Hw, Hq. subst w1 r.
  unfold mbind at 1, io_bind, write at 1.
  unfold mbind at 1, io_bind.
  assert (He' : forall w2, store w2 = store w ->
            execute (db_query p) w2 = (w2, Ok (line :: lines))).
  { intros w2 Hs. pose proof (appends_execute (db_query p) w2) as H2.
    pose proof (appends_execute (db_query p) w) as H1.
    rewrite He in H1. injection H1 as _ H1.
    rewrite Hs, <- H1 in H2.
    pose proof (execute_world (db_query p) w2) as Hw2.
    destruct (execute (db_query p) w2) as [w3 r]. simpl in Hw2. subst w3.
    injection H2 as _ ->. reflexivity. }
  rewrite He' by reflexivity.
  unfold mbind at 1, io_bind.
  unfold row_text, header.
  destruct (t_index p =? 0)%nat eqn:Hi.
  - apply Nat.eqb_eq in Hi.
    rewrite (loop_rows _ (fun l => str_cell (default Null (l !! 0)) ++ nl)).
    + unfold write. cbn [store f stdout]. rewrite !append_assoc. reflexivity.
    + eapply Forall_impl; [apply Hne, Hi|].
      intros [|x l] Hl w2; [congruence|reflexivity].
  - rewrite (loop_rows _ (format_row (t_index p))).
    + unfold write. cbn [store f stdout]. rewrite !append_assoc. reflexivity.
    + apply Forall_forall. intros l _ w2. reflexivity.
Qed.

(** The table of the example, whose index is 1. *)
Lemma table_section_witness :
  query_table example_spec example_world
  = ({| store := store example_world;
        f := "param DiscreteCapacity := " ++ nl
             ++ "    A         1    " ++ nl
             ++ "    B         2    " ++ nl
             ++ ";" ++ nl ++ nl;
        stdout := "    A         1    " ++ nl ++ nl
                  ++ "    B         2    " ++ nl ++ nl |},
     Ok tt).
Proof.
  rewrite (table_section example_spec example_world
             [Text "A"; Integer 1] [[Text "B"; Integer 2]]).
  - vm_compute. reflexivity.
  - vm_compute. reflexivity.
  - discriminate.
Defined.

(** *** The section of the MGA weights *)

Lemma bind_step {A B} (m : io A) (k : A -> io B) w w1 a :
  m w = (w1, Ok a) -> (m ≫= k) w = k a w1.
Proof. unfold mbind, io_bind. intros ->. reflexivity. Qed.

Lemma select_column_ok name col w t i :
  store w !! name = Some t ->
  find_column t col = Ok i ->
  select_column name col w
  = (w, Ok (map (fun r => [default Null (r !! i)]) (rows t))).
Proof.
  intros Ht Hi. unfold select_column.
  rewrite (bind_step _ _ w w t) by (unfold find_table; rewrite Ht; reflexivity).
  rewrite (bind_step _ _ w w i) by (unfold lift; rewrite Hi; reflexivity).
  reflexivity.
Qed.

Lemma write_texts i rs : forall w,
  Forall (fun r : list cell => exists s, r !! i = Some (Text s)) rs ->
  for_each (map (fun r => [default Null (r !! i)]) rs)
    (fun row => x ← lift (Py.index row 0);
                s ← lift (text_of x); write (s ++ nl)) w
  = ({| store := store w;
        f := f w ++ joined (map (fun r =>
               str_cell (default Null (r !! i)) ++ nl) rs);
        stdout := stdout w |}, Ok tt).
Proof.
  induction rs as [|r rs IH]; intros w Hrs.
  - destruct w. simpl. rewrite append_nil_r. reflexivity.
  - apply Forall_cons in Hrs as [[s Hs] Hrs].
    cbn [map for_each joined foldr]. rewrite Hs. cbn [default str_cell].
    erewrite bind_step by reflexivity.
    rewrite (IH _ Hrs). cbn [store f stdout].
    rewrite !append_assoc. reflexivity.
Qed.

(** X13: when the table [tech_mga] has a [tech] column whose fields are
    all texts, its section is the line [set tech_mga :=], the
    technologies one on a line in the order of the table, and a line
    with [;] followed by an empty line; unlike the section of a listed
    table it is written in full when the table has no row, and nothing
    is printed. *)
Theorem tech_mga_section (w : world) (t : table) (i : nat) :
  store w !! "tech_mga" = Some t ->
  find_column t "tech" = Ok i ->
  Forall (fun r => exists s, r !! i = Some (Text s)) (rows t) ->
  write_tech_mga w
  = ({| store := store w;
        f := f w ++ "set tech_mga :=" ++ nl
             ++ joined (map (fun r => str_cell (default Null (r !! i)) ++ nl)
                          (rows t))
             ++ ";" ++ nl ++ nl;
        stdout := stdout w |},
     Ok tt).
Proof.
  intros Ht Hi Htext. unfold write_tech_mga.
  rewrite (bind_step _ _ _ _ _ (select_column_ok _ _ w t i Ht Hi)).
  erewrite bind_step by reflexivity.
  erewrite bind_step by (apply write_texts, Htext).
  unfold write. cbn [store f stdout]. rewrite !append_assoc. reflexivity.
Qed.

(** A table of two technologies. *)
Lemma tech_mga_section_witness :
  let t := {| columns := ["tech"; "notes"];
              rows := [ [Text "E01"; Null]; [Text "E21"; Null] ] |} in
  write_tech_mga {| store := {[ "tech_mga" := t ]}; f := ""; stdout := "" |}
  = ({| store := {[ "tech_mga" := t ]};
        f := "set tech_mga :=" ++ nl ++ "E01" ++ nl ++ "E21" ++ nl
             ++ ";" ++ nl ++ nl;
        stdout := "" |}, Ok tt).
Proof.
  intros t.
  rewrite (tech_mga_section _ t 0); [reflexivity|reflexivity|reflexivity|].
  repeat constructor; eexists; reflexivity.
Defined.

(** *** A database without rows to export *)

Lemma execute_result q w1 w2 :
  store w1 = store w2 -> snd (execute q w1) = snd (execute q w2).
Proof.
  intros Hs. rewrite (appends_execute q w1), (appends_execute q w2), Hs.
  reflexivity.
Qed.

Lemma for_each_skip {A} (body : A -> io unit) w l :
  Forall (fun x => body x w = (w, Ok tt)) l -> for_each l body w = (w, Ok tt).
Proof.
  induction 1 as [|x l Hx _ IH]; [reflexivity|].
  simpl. unfold mbind, io_bind. rewrite Hx. exact IH.
Qed.

(** X14: when no weighting method is set and the run is not myopic, a
    database in which every listed table is missing or gives no row to
    its query is exported as the header alone: the line [data ;] and an
    empty line; nothing is printed and the database is as it was. *)
Theorem export_without_rows (iter_set : list cell -> list cell)
  (options : TemoaConfig) (w : world) :
  myopic options = false ->
  mga_method options = None ->
  mgpa_method options = None ->
  (forall p, p ∈ table_list -> t_name p ∈ dom (store w) ->
             snd (execute (db_query p) w) = Ok []) ->
  db_2_dat iter_set options w
  = ({| store := store w; f := "data ;" ++ nl ++ nl; stdout := stdout w |},
     Ok tt).
Proof.
  intros Hm Hmga Hmgpa Hrows.
  unfold db_2_dat. rewrite Hm, Hmga, Hmgpa.
  unfold mbind at 1 2 3, io_bind, open_w, write, table_names.
  cbn [store f stdout is_method].
  set (w1 := {| store := store w; f := _; stdout := stdout w |}).
  unfold mbind at 1, io_bind.
  rewrite for_each_skip; [reflexivity|].
  apply Forall_forall. intros p Hp. unfold export_table.
  case_bool_decide as Hin; [|reflexivity].
  rewrite query_table_section. apply section_empty.
  rewrite (execute_result _ w1 w) by reflexivity. apply Hrows; assumption.
Qed.

(** A database with no table at all. *)
Lemma export_without_rows_witness :
  db_2_dat (fun l => l) (init "" None)
    {| store := ∅; f := "old text"; stdout := "" |}
  = ({| store := ∅; f := "data ;" ++ nl ++ nl; stdout := "" |}, Ok tt).
Proof.
  apply (export_without_rows (fun l => l) (init "" None)
           {| store := ∅; f := "old text"; stdout := "" |});
    try reflexivity.
  intros p _ Hin. cbn [store] in Hin. rewrite dom_empty in Hin.
  apply not_elem_of_empty in Hin. contradiction.
Defined.

(** *** The punctuation of a row *)

Lemma sub_paren_open s :
  Py.existsb_str (Ascii.eqb "(") (sub_paren s) = false.
Proof.
  induction s as [|c s IH]; [reflexivity|].
  cbn [sub_paren]. destruct (Ascii.eqb c "(") eqn:E; [exact IH|].
  cbn [Py.existsb_str]. rewrite Ascii.eqb_sym, E, IH. reflexivity.
Qed.

Lemma sub_punct_clean s :
  Py.existsb_str (Ascii.eqb "(") s = false ->
  Py.existsb_str punctuation (sub_punct s) = false.
Proof.
  induction s as [|c s IH]; [reflexivity|].
  cbn [sub_punct Py.existsb_str]. intros [Hc Hs]%orb_false_elim.
  rewrite existsb_str_app, (IH Hs), orb_false_r.
  destruct (Ascii.eqb c "'" || Ascii.eqb c "," || Ascii.eqb c ")") eqn:E;
    [reflexivity|].
  apply orb_false_elim in E as [[E1 E2]%orb_false_elim E3].
  unfold Py.chr. cbn [Py.existsb_str]. unfold punctuation.
  rewrite Ascii.eqb_sym in Hc. rewrite Hc, E1, E2, E3. reflexivity.
Qed.

(** X15: the line written for a row of a table whose index is not 0
    holds no parenthesis, no comma and no single quote, whatever the
    fields of the row are: where a text field has one, the line has
    lost it. *)
Theorem rows_without_punctuation (t_index : nat) (line : list cell) :
  Py.existsb_str punctuation (format_row t_index line) = false.
Proof.
  unfold format_row.
  destruct (negb (search_afcom _));
    rewrite !existsb_str_app, !sub_punct_clean by apply sub_paren_open;
    reflexivity.
Qed.

(** *** A clean-up that fails *)

Lemma for_each_app {A} (body : A -> io unit) l1 l2 : forall w,
  for_each (l1 ++ l2) body w
  = (_ ← for_each l1 body; for_each l2 body) w.
Proof.
  induction l1 as [|x l1 IH]; intros w; [reflexivity|].
  simpl. unfold mbind, io_bind in *.
  destruct (body x w) as [w1 [[]|e]]; [apply IH|reflexivity].
Qed.

(** X16: the clean-up deletes table by table and does not undo what it
    has done: in a database whose output tables and their [scenario]
    column are spelt as the statements spell them, when one of the nine
    output tables is missing, while those before it in the order of the
    statements are there with their [scenario] column, the clean-up
    raises the error of the missing table, the tables before it have
    lost the rows of the scenario, and the other tables and the file are
    as they were. *)
Theorem cleanup_stops_at_missing_table (options : TemoaConfig) (w : world)
  (pre post : list string) (name : string) :
  output_tables = (pre ++ name :: post)%list ->
  quote_free (str_scenario options) = true ->
  spelt output_tables "scenario" (store w) ->
  (forall n, n ∈ pre ->
     exists t, store w !! n = Some t /\ "scenario" ∈ columns t) ->
  store w !! name = None ->
  exists w',
    cleanup options w
    = (w', Raise (OperationalError ("no such table: " ++ name)))
    /\ f w' = f w
    /\ forall n,
         store w' !! n = purged pre (str_scenario options) (store w) n.
Proof.
  intros Hsplit Hq _ Hpre Hname.
  pose proof output_tables_nodup as Hnd. rewrite Hsplit in Hnd.
  apply NoDup_app in Hnd as (Hnd & Hdisj & _).
  destruct (delete_all_total pre _ Hq w Hpre) as [w1 Hd].
  destruct (delete_all_ok _ _ _ _ Hd Hnd) as [Hf Hs].
  exists w1. split; [|split; assumption].
  unfold cleanup. rewrite Hsplit.
  unfold mbind at 1, io_bind. rewrite for_each_app.
  unfold mbind at 1, io_bind. rewrite Hd.
  cbn [for_each]. unfold mbind at 1, io_bind, delete_where at 1.
  rewrite Hs. unfold purged.
  rewrite bool_decide_eq_false_2, Hname; [reflexivity|].
  intros Hin. apply (Hdisj name Hin). left.
Qed.

(** A database that has the first two of the nine output tables. *)
Lemma cleanup_stops_at_missing_table_witness :
  let w := {| store := list_to_map (map (fun n => (n, output_example))
                                      (take 2 output_tables));
              f := ""; stdout := "" |} in
  exists w',
    cleanup myopic_options w
    = (w', Raise (OperationalError "no such table: Output_Costs"))
    /\ f w' = f w
    /\ forall n,
         store w' !! n = purged (take 2 output_tables) "base" (store w) n.
Proof.
  intros w.
  apply (cleanup_stops_at_missing_table myopic_options w
           (take 2 output_tables) (drop 3 output_tables) "Output_Costs");
    try reflexivity; [apply spelt_check; vm_compute; reflexivity|].
  intros n Hin.
  repeat (apply elem_of_cons in Hin as [->|Hin];
          [eexists; split; [vm_compute; reflexivity|apply list_elem_of_here]|]).
  apply elem_of_nil in Hin. contradiction.
Defined.

End ExportMore.

(** ** The token rules at work *)

Module LexMore.

Import Re Config More StrFacts ReFacts LexerFacts Inputs.

#[local] Arguments String.append !_ _ / : simpl nomatch.

(** *** The words of the rules *)

Lemma all_chars_spec P c : all_chars P = true -> P c = true.
Proof.
  unfold all_chars. rewrite forallb_forall. intros H.
  rewrite <- (ascii_nat_embedding c). apply H. apply in_seq.
  pose proof (nat_ascii_bounded c). lia.
Qed.

Lemma class_impl (p q : ascii -> bool) (w : string) :
  all_chars (fun c => implb (p c) (q c)) = true ->
  Py.forallb_str p w = true -> Py.forallb_str q w = true.
Proof.
  intros H. apply forallb_str_impl. intros c Hc.
  pose proof (all_chars_spec _ c H) as Hi. simpl in Hi.
  rewrite Hc in Hi. exact Hi.
Qed.

Lemma only_sound q r w :
  only q r = true -> lang r w -> Py.forallb_str q w = true.
Proof.
  intros Ho Hl.
  induction Hl as [l | p w Hne Hp | p w Hp | l | l w Hl IH | r1 r2 w Hl IH
                  | r1 r2 w Hl IH | r1 r2 w1 w2 H1 IH1 H2 IH2 | ];
    simpl in Ho.
  - exact Ho.
  - eapply class_impl; eassumption.
  - eapply class_impl; eassumption.
  - exact Ho.
  - rewrite forallb_str_app, Ho. apply IH. exact Ho.
  - apply andb_prop in Ho as [Ho _]. auto.
  - apply andb_prop in Ho as [_ Ho]. auto.
  - apply andb_prop in Ho as [Ho1 Ho2].
    rewrite forallb_str_app, IH1, IH2 by assumption. reflexivity.
  - reflexivity.
Qed.

Lemma keyword_split k body w :
  lang (Seq (Lit k) (Seq (Plus sep_char) body)) w ->
  exists sp v, w = k ++ sp ++ v /\ sp <> ""
               /\ Py.forallb_str sep_char sp = true /\ lang body v.
Proof.
  intros H.
  apply lang_seq_inv in H as (w1 & wa & -> & H1 & H).
  apply lang_seq_inv in H as (sp & v & -> & Hsp & Hv).
  apply lang_lit_inv in H1 as ->.
  apply lang_plus_inv in Hsp as [Hsp0 Hsp]. eauto 8.
Qed.

Lemma plain_spec k :
  plain k = true ->
  k <> ""
  /\ Py.forallb_str (fun c => negb (Py.is_space c)) k = true
  /\ Py.forallb_str (fun c => negb (Ascii.eqb c "=")) k = true.
Proof.
  unfold plain. intros [Hk Hc]%andb_prop. split; [|split].
  - intros ->. discriminate Hk.
  - revert Hc. apply forallb_str_impl. intros c. unfold sep_char.
    destruct (Py.is_space c); [discriminate|reflexivity].
  - revert Hc. apply forallb_str_impl. intros c. unfold sep_char.
    destruct (Ascii.eqb c "="); [rewrite orb_true_r; discriminate|reflexivity].
Qed.

(** The second field of a keyword, separators and a value without
    space or [=]. *)
Lemma second_field (k sp v : string) :
  plain k = true -> sp <> "" -> Py.forallb_str sep_char sp = true ->
  v <> "" -> Py.forallb_str path_char v = true ->
  Py.index (Py.split (Py.replace "=" " " (k ++ sp ++ v))) 1 = Ok v.
Proof.
  intros (Hk0 & Hks & Hke)%plain_spec Hsp0 Hsp Hv0 Hv.
  rewrite replace_app, replace_app.
  rewrite (replace_id "=" " " k) by exact Hke.
  rewrite (replace_id "=" " " v)
    by (revert Hv; apply forallb_str_impl; intros c Hc;
        rewrite (proj2 (path_char_plain c Hc)); reflexivity).
  rewrite (split_two k (Py.replace "=" " " sp) v); try assumption.
  - reflexivity.
  - apply replace_nonempty. assumption.
  - revert Hv. apply forallb_str_impl. intros c Hc.
    rewrite (proj1 (path_char_plain c Hc)). reflexivity.
  - apply replace_seps. assumption.
Qed.

Lemma field1_keyword (tok : LexToken) (k : string) (body : regex) :
  lang (Seq (Lit k) (Seq (Plus sep_char) body)) (tok_value tok) ->
  plain k = true -> nonnull body = true -> only path_char body = true ->
  exists sp v,
    tok_value tok = k ++ sp ++ v
    /\ sp <> ""
    /\ Py.forallb_str sep_char sp = true
    /\ lang body v
    /\ field1 tok = Ok v.
Proof.
  intros H Hk Hn Ho.
  apply keyword_split in H as (sp & v & Htok & Hsp0 & Hsp & Hv).
  exists sp, v. repeat split; try assumption.
  unfold field1. rewrite Htok. apply second_field; try assumption.
  - exact (nonnull_sound _ _ Hn Hv).
  - exact (only_sound _ _ _ Ho Hv).
Qed.

(** *** The conversions *)

Lemma int_go_digits v : forall acc,
  Py.forallb_str Py.is_digit v = true -> exists n, Py.int_go acc v = Ok n.
Proof.
  induction v as [|c v IH]; intros acc H; simpl; [eauto|].
  simpl in H. apply andb_prop in H as [Hc Hv]. rewrite Hc. apply IH, Hv.
Qed.

Lemma int_digits v :
  v <> "" -> Py.forallb_str Py.is_digit v = true ->
  exists n, Py.int v = Ok n.
Proof.
  intros Hv H. unfold Py.int. destruct v; [congruence|].
  apply int_go_digits, H.
Qed.

Lemma float_cases v :
  Py.float v = Ok (Py.Float v) \/ Py.float v = Raise ValueError.
Proof. unfold Py.float. destruct (_ && _ && _); auto. Qed.

Lemma split_on_go_cons sep s : forall cur,
  exists a l, Py.split_on_go sep cur s = a :: l.
Proof.
  induction s as [|c s IH]; intros cur; simpl; [eauto|].
  destruct (Ascii.eqb c sep); eauto.
Qed.

Lemma split_on_go_two sep s : forall cur,
  Py.existsb_str (Ascii.eqb sep) s = true ->
  exists a b l, Py.split_on_go sep cur s = a :: b :: l.
Proof.
  induction s as [|c s IH]; intros cur H; simpl in *; [discriminate|].
  rewrite (Ascii.eqb_sym c sep).
  destruct (Ascii.eqb sep c); simpl in H.
  - destruct (split_on_go_cons sep s "") as (b & l & ->). eauto.
  - apply IH, H.
Qed.

Lemma replace_has a b s :
  Py.existsb_str (Ascii.eqb a) s = true ->
  Py.existsb_str (Ascii.eqb b) (Py.replace a b s) = true.
Proof.
  induction s as [|c s IH]; simpl; [discriminate|].
  rewrite (Ascii.eqb_sym c a). destruct (Ascii.eqb a c); simpl.
  - intros _. rewrite Ascii.eqb_refl. reflexivity.
  - intros H. rewrite (IH H). apply orb_true_r.
Qed.

Lemma comma_field1_cases (tok : LexToken) :
  (exists v, comma_field1 tok = Ok v)
  \/ (comma_field1 tok = Raise IndexError
      /\ Py.existsb_str (Ascii.eqb "=") (tok_value tok) = false).
Proof.
  unfold comma_field1, Py.split_on.
  destruct (Py.existsb_str (Ascii.eqb "=") (tok_value tok)) eqn:E.
  - left. apply (replace_has "=" ",") in E.
    destruct (split_on_go_two "," _ "" E) as (a & b & l & ->).
    exists b. reflexivity.
  - unfold Py.index.
    destruct (_ !! 1); [left; eauto|right; auto].
Qed.

Lemma seps_without_eq sp :
  Py.forallb_str sep_char sp = true ->
  Py.existsb_str (Ascii.eqb "=") sp = false ->
  Py.forallb_str Py.is_space sp = true.
Proof.
  induction sp as [|c sp IH]; [reflexivity|].
  cbn [Py.forallb_str Py.existsb_str].
  intros [Hc Hs]%andb_prop [Hn Hr]%orb_false_elim.
  rewrite (IH Hs Hr), andb_true_r. unfold sep_char in Hc.
  rewrite Ascii.eqb_sym, Hn, orb_false_r in Hc. exact Hc.
Qed.

Lemma lang_wordy body v :
  only Py.is_word body = true -> nonnull body = true -> lang body v ->
  wordy v.
Proof.
  intros Ho Hn Hv. split.
  - exact (nonnull_sound _ _ Hn Hv).
  - exact (only_sound _ _ _ Ho Hv).
Qed.

Lemma lang_output_value v :
  lang (Seq (Plus path_char) (Seq (Alt (Lit ".db") (Lit ".sqlite")) WordB)) v ->
  exists y e, v = y ++ e /\ (e = ".db" \/ e = ".sqlite").
Proof.
  intros H.
  apply lang_seq_inv in H as (y & w & -> & _ & H).
  apply lang_seq_inv in H as (e & w' & -> & He & Hb).
  apply lang_wordb_inv in Hb as ->. rewrite append_nil_r.
  exists y, e. split; [reflexivity|].
  apply lang_alt_inv in He as [He|He]; apply lang_lit_inv in He; auto.
Qed.

Lemma abspath_ext cwd y e :
  e = ".dat" \/ e = ".db" \/ e = ".sqlite" ->
  exists a, Py.abspath cwd (y ++ e) = a ++ e.
Proof.
  intros He. unfold Py.abspath, Py.join.
  destruct (Py.startswith (y ++ e) "/").
  - apply normpath_keeps_ext, He.
  - destruct (String.eqb cwd "" || Py.endswith cwd "/").
    + rewrite <- append_assoc. apply normpath_keeps_ext, He.
    + rewrite <- !append_assoc. apply normpath_keeps_ext, He.
Qed.

Lemma keeps_refl c : keeps c c.
Proof.
  repeat split. apply Forall2_same_length_lookup_2; [reflexivity|].
  intros i a b Ha Hb. congruence.
Qed.

Lemma keeps_trans c1 c2 c3 : keeps c1 c2 -> keeps c2 c3 -> keeps c1 c3.
Proof.
  intros (Q1 & F1 & A1 & S1) (Q2 & F2 & A2 & S2).
  repeat split; try congruence.
  revert S1 S2. generalize (switches c1), (switches c2), (switches c3).
  intros l1 l2 l3 S1. revert l3.
  induction S1 as [|a b l1 l2 Hab _ IH]; intros l3 S2;
    inversion S2; subst; constructor; auto.
Qed.

(** *** What a rule does to the lexer and which errors it raises *)

Ltac keeps_tac :=
  unfold keeps, queues, switches; cbn;
  repeat split; repeat constructor; intros; first [assumption|reflexivity].

Section Outcomes.

Variable cwd : string.

Lemma nesting_ok_lexpos n lx : nesting_ok lx -> nesting_ok (set_lexpos n lx).
Proof. intros H. exact H. Qed.

Ltac keyword Hw tok sp v Htok Hsp Hv Hf :=
  edestruct (field1_keyword tok _ _ Hw)
    as (sp & v & Htok & Hsp0 & Hsp & Hv & Hf);
  [vm_compute; reflexivity..|].

Lemma path_outcome k tok (lx : Lexer) (g : string -> TemoaConfig) :
  (k = "--path_to_data" \/ k = "--path_to_logs") ->
  lang (Seq (Lit k) (Seq (Plus sep_char) (Seq (Plus path_space_char) WordB)))
    (tok_value tok) ->
  nesting_ok lx ->
  match comma_field1 tok ≫= (fun v => Ok (g v, lx)) with
  | Ok (c', lx') => nesting_ok lx'
  | Raise e => rule_error (tok_value tok) e
  end.
Proof.
  intros Hk Hw Hn.
  destruct (comma_field1_cases tok) as [[v ->]|[-> Heq]]; [exact Hn|].
  simpl. right. split; [reflexivity|].
  apply keyword_split in Hw as (sp & p & Htok & Hsp0 & Hsp & Hp).
  exists k, sp, p. split; [exact Htok|].
  rewrite Htok, !existsb_str_app in Heq.
  apply orb_false_elim in Heq as [_ [Heq _]%orb_false_elim].
  split; [exact Hk|]. split; [exact Hsp0|].
  split; [apply seps_without_eq; assumption|].
  split; [eapply nonnull_sound; [|exact Hp]; vm_compute; reflexivity|].
  eapply (only_sound path_space_char); [|exact Hp]. vm_compute. reflexivity.
Qed.

Ltac unfold_rules :=
  unfold t_ANY_COMMENT, t_dot_dat, t_output, t_scenario, t_saveEXCEL,
    t_saveDUALS, t_myopic, t_myopic_periods, t_keep_myopic_databases,
    t_saveTEXTFILE, t_path_to_data, t_path_to_logs, t_how_to_cite,
    t_version, t_neos, t_solver, t_method, t_threads, t_tee,
    t_keep_pyomo_lp_file, t_begin_mga, t_mga_mgaslack, t_mga_mgaiter,
    t_mga_mgamethod, t_mga_end, t_begin_moo, t_moo_moof1, t_moo_moof2,
    t_moo_mooc, t_moo_mooncaps, t_moo_end, t_begin_mgpa, t_mgpa_mgpaf1,
    t_mgpa_mgpaf2, t_mgpa_mgpac, t_mgpa_mgpancaps, t_mgpa_mgpaslack1,
    t_mgpa_mgpaslack2, t_mgpa_mgpaiter, t_mgpa_mgpamethod, t_mgpa_end,
    t_ANY_newline, begin_block, end_block in *.

(** What a rule that returns has done to the object: it keeps what the
    lexing keeps, and the scenario and the output are as before or the
    second field of the text, a word for the scenario and the absolute
    form of a path with a database extension for the output. *)
Lemma rule_effect s r f tok c lx c' lx' :
  In (r, f) (rules cwd s) ->
  lang r (tok_value tok) ->
  f tok (c, lx) = Ok (c', lx') ->
  keeps c c'
  /\ (scenario c' = scenario c
      \/ exists v, wordy v /\ scenario c' = Some v)
  /\ (output c' = output c
      \/ exists y e, (e = ".db" \/ e = ".sqlite")
                     /\ output c' = Some (Py.abspath cwd (y ++ e))).
Proof.
  intros Hin Hw H.
  destruct s; simpl in Hin;
    repeat (destruct Hin as [Hin|Hin]; [injection Hin as <- <-|]);
    try contradiction; unfold_rules.
  all: try (keyword Hw tok sp v Htok Hsp Hv Hf; rewrite Hf in H; simpl in H).
  all: try (destruct (Py.int v); simpl in H; [|discriminate H]).
  all: try (destruct (Py.float v); simpl in H; [|discriminate H]).
  all: try (destruct (comma_field1 tok); simpl in H; [|discriminate H]).
  all: try (destruct (pop_state lx) as [lx1|]; simpl in H; [|discriminate H];
            destruct (level lx1); [|discriminate H]).
  all: injection H as <- <-.
  all: split; [keeps_tac|].
  all: try (split; left; reflexivity).
  - split; [left; reflexivity|]. right.
    apply lang_output_value in Hv as (y & e & -> & He). eauto.
  - split; [|left; reflexivity]. right. exists v. split; [|reflexivity].
    eapply lang_wordy; [| |exact Hv]; vm_compute; reflexivity.
Qed.

Lemma rule_outcome s r f tok c lx :
  In (r, f) (rules cwd s) ->
  lexstate lx = s ->
  lang r (tok_value tok) ->
  nesting_ok lx ->
  match f tok (c, lx) with
  | Ok (c', lx') => nesting_ok lx'
  | Raise e => rule_error (tok_value tok) e
  end.
Proof.
  intros Hin Hs Hw Hn.
  destruct s; simpl in Hin;
    repeat (destruct Hin as [Hin|Hin]; [injection Hin as <- <-|]);
    try contradiction;
    unfold t_ANY_COMMENT, t_dot_dat, t_output, t_scenario, t_saveEXCEL,
      t_saveDUALS, t_myopic, t_myopic_periods, t_keep_myopic_databases,
      t_saveTEXTFILE, t_path_to_data, t_path_to_logs, t_how_to_cite,
      t_version, t_neos, t_solver, t_method, t_threads, t_tee,
      t_keep_pyomo_lp_file, t_begin_mga, t_mga_mgaslack, t_mga_mgaiter,
      t_mga_mgamethod, t_mga_end, t_begin_moo, t_moo_moof1, t_moo_moof2,
      t_moo_mooc, t_moo_mooncaps, t_moo_end, t_begin_mgpa, t_mgpa_mgpaf1,
      t_mgpa_mgpaf2, t_mgpa_mgpac, t_mgpa_mgpancaps, t_mgpa_mgpaslack1,
      t_mgpa_mgpaslack2, t_mgpa_mgpaiter, t_mgpa_mgpamethod, t_mgpa_end,
      t_ANY_newline;
    try exact Hn.
  all: try (keyword Hw tok sp v Htok Hsp Hv Hf; rewrite Hf; simpl).
  all: try exact Hn.
  all: try (apply lang_plus_inv in Hv as [Hv0 Hv];
            first
              [ destruct (int_digits v Hv0 Hv) as [n ->]; exact Hn
              | destruct (float_cases v) as [-> | Hfl]; [exact Hn|];
                rewrite Hfl; left; split; [reflexivity|];
                eexists _, sp, v; split; [exact Htok|];
                split; [simpl; tauto|]; repeat split; eassumption ]).
  all: try (first
              [ eapply (path_outcome _ tok lx
                         (fun v => set_path_to_data (Py.abspath cwd v) c))
              | eapply (path_outcome _ tok lx
                         (fun v => set_path_to_logs (Py.abspath cwd v) c)) ];
            [|exact Hw|exact Hn]; auto).
  all: try (unfold begin_block, nesting_ok; simpl; right; rewrite Hs;
            destruct Hn as [[_ ->]|[Hne _]]; [|congruence];
            repeat split; discriminate).
  all: try (unfold end_block, pop_state;
            destruct Hn as [[Hi _]|(_ & -> & Hl)]; [congruence|];
            simpl; rewrite Hl; left; split; reflexivity).
Qed.

(** The loop, with the errors of the rules: an invariant kept by the
    three kinds of step holds when the loop returns, and an error that
    the loop raises is the error of a rule on a piece of the input. *)
Lemma token_cases (Inv : TemoaConfig -> Lexer -> Prop)
  (Bad : string -> exn -> Prop) :
  (forall c lx, Inv c lx -> Inv c (set_lexpos (lexpos lx + 1) lx)) ->
  (forall r f tok c lx,
     In (r, f) (rules cwd (lexstate lx)) ->
     lang r (tok_value tok) ->
     tok_value tok <> "" ->
     tok_lineno tok = lineno lx ->
     tok_lexpos tok = lexpos lx ->
     Inv c lx ->
     match f tok (c, set_lexpos (lexpos lx + String.length (tok_value tok)) lx)
     with
     | Ok (c', lx') => Inv c' lx'
     | Raise e => Bad (tok_value tok) e
     end) ->
  (forall tok c lx,
     tok_lineno tok = lineno lx ->
     tok_lexpos tok = lexpos lx ->
     tok_value tok <> "" ->
     Inv c lx ->
     Inv (set_error (record_error (__error c) tok) c) (skip 1 lx)) ->
  forall fuel prev rest c lx,
    Inv c lx ->
    match token cwd fuel prev rest c lx with
    | Some (Ok (c', lx')) => Inv c' lx'
    | Some (Raise e) => exists pre w post, rest = pre ++ w ++ post /\ Bad w e
    | None => True
    end.
Proof.
  intros Hign Hrule Herr.
  induction fuel as [|fuel IH]; intros prev rest c lx HI; [exact I|].
  simpl. destruct rest as [|ch rest']; [apply Hign, HI|].
  destruct (in_string ch lexignore).
  - specialize (IH (Some ch) rest' c _ (Hign _ _ HI)).
    destruct (token _ _ _ _ _ _) as [[[c1 lx1]|e]|]; try exact IH.
    destruct IH as (pre & w & post & -> & Hb).
    exists (String ch pre), w, post. split; [reflexivity|exact Hb].
  - destruct (first_match (rules cwd (lexstate lx)) prev (String ch rest'))
      as [[func after]|] eqn:Hfm.
    + destruct (first_match_word _ _ _ _ _ _ Hfm)
        as (r & w & Hin & Hw & Hne & Heq).
      rewrite Heq. rewrite str_take_matched, length_append.
      replace (String.length w + String.length after - String.length after)
        with (String.length w) by lia.
      pose proof (Hrule r func
                    {| tok_value := w; tok_lineno := lineno lx;
                       tok_lexpos := lexpos lx |} c lx Hin Hw Hne
                    eq_refl eq_refl HI) as Hstep.
      cbn [tok_value] in Hstep.
      destruct (func _ _) as [[c1 lx1]|e].
      * specialize (IH (last_char prev w) after c1 lx1 Hstep).
        destruct (token _ _ _ _ _ _) as [[[c2 lx2]|e]|]; try exact IH.
        destruct IH as (pre & w' & post & -> & Hb).
        exists (w ++ pre), w', post. rewrite append_assoc. auto.
      * exists "", w, after. auto.
    + assert (HI' : Inv (set_error
                           (record_error (__error c)
                              {| tok_value := String ch rest';
                                 tok_lineno := lineno lx;
                                 tok_lexpos := lexpos lx |}) c) (skip 1 lx))
        by (apply Herr; simpl; try reflexivity; [discriminate|exact HI]).
      specialize (IH (Some ch) rest' _ _ HI').
      unfold t_ANY_error.
      destruct (token _ _ _ _ _ _) as [[[c1 lx1]|e]|]; try exact IH.
      destruct IH as (pre & w & post & -> & Hb).
      exists (String ch pre), w, post. split; [reflexivity|exact Hb].
Qed.

(** X17: the lexing of any text ends.  When it returns, the lexer is
    outside the sweep blocks or inside one block entered from outside:
    blocks do not nest and [}] never finds the stack of states empty.
    When the text is made of ASCII characters, no more of them than the
    digits that [int] accepts, and the lexing raises, the error is that
    of a rule on a piece of the text: a [ValueError] on a [slack],
    [slack1], [slack2] or [c] keyword, separators and a value that
    [float] refuses, or an [IndexError] on a [--path_to_data] or
    [--path_to_logs] directive whose separators hold no [=]. *)
Theorem lex_outcomes (text : string) (c : TemoaConfig) :
  (exists res, lex cwd text c = Some res)
  /\ (forall c' lx', lex cwd text c = Some (Ok (c', lx')) -> nesting_ok lx')
  /\ (Py.forallb_str Py.is_ascii text = true ->
      String.length text <= Py.int_max_str_digits ->
      forall e,
        lex cwd text c = Some (Raise e) ->
        exists pre w post, text = pre ++ w ++ post /\ rule_error w e).
Proof.
  destruct (lex cwd text c) as [res|] eqn:Hlex;
    [|destruct (lex_total cwd text c Hlex)].
  split; [exists res; reflexivity|].
  pose proof (token_cases (fun _ lx => nesting_ok lx) rule_error) as H.
  unfold lex in Hlex.
  specialize (H (fun _ _ H => H)).
  assert (Hrule : forall r f tok c0 lx0,
            In (r, f) (rules cwd (lexstate lx0)) ->
            lang r (tok_value tok) -> tok_value tok <> "" ->
            tok_lineno tok = lineno lx0 -> tok_lexpos tok = lexpos lx0 ->
            nesting_ok lx0 ->
            match f tok (c0, set_lexpos (lexpos lx0
                                         + String.length (tok_value tok)) lx0)
            with
            | Ok (c', lx') => nesting_ok lx'
            | Raise e => rule_error (tok_value tok) e
            end).
  { intros r f tok c0 lx0 Hin Hw _ _ _ Hn.
    apply (rule_outcome (lexstate lx0) r f tok c0); auto. }
  specialize (H Hrule (fun _ _ _ _ _ _ H => H)
                (S (String.length text)) None text c new_lexer).
  rewrite Hlex in H.
  split.
  - intros c' lx' [= ->]. apply H. left. split; reflexivity.
  - intros _ _ e [= ->]. apply H. left. split; reflexivity.
Qed.

Lemma lex_effect (Inv : TemoaConfig -> Prop) text c c' lx' :
  (forall s r f tok c1 lx1 c2 lx2,
     In (r, f) (rules cwd s) -> lang r (tok_value tok) ->
     f tok (c1, lx1) = Ok (c2, lx2) -> Inv c1 -> Inv c2) ->
  (forall errors c1, Inv c1 -> Inv (set_error errors c1)) ->
  Inv c ->
  lex cwd text c = Some (Ok (c', lx')) ->
  Inv c'.
Proof.
  intros Hrule Herr H0 Hlex. unfold lex in Hlex.
  refine (token_invariant cwd (fun c _ => Inv c) _ _ _ _ _ _ _ _ _ _ H0 Hlex).
  - auto.
  - intros r f tok c1 lx1 c2 lx2 Hin Hw _ _ _ HI Hf.
    exact (Hrule _ _ _ _ _ _ _ _ Hin Hw Hf HI).
  - intros tok c1 lx1 _ _ _ HI. apply Herr, HI.
Qed.

(** X18: the lexing of a configuration only adds to an object: when it
    returns, the six queues, the location of the configuration file and
    the abort flag are as they were, and every switch that was on
    ([saveEXCEL], [saveDUALS], [myopic], [KeepMyopicDBs], [saveTEXTFILE],
    [version], [neos], [tee], [keepPyomoLP], [how_to_cite]) is still on:
    no directive turns a switch off. *)
Theorem lex_keeps (text : string) (c c' : TemoaConfig) (lx' : Lexer) :
  lex cwd text c = Some (Ok (c', lx')) ->
  keeps c c'.
Proof.
  apply (lex_effect (fun c1 => keeps c c1)).
  - intros s r f tok c1 lx1 c2 lx2 Hin Hw Hf HI.
    apply (keeps_trans _ c1); [exact HI|].
    exact (proj1 (rule_effect _ _ _ _ _ _ _ _ Hin Hw Hf)).
  - intros errors c1 HI. apply (keeps_trans _ c1); [exact HI|]. keeps_tac.
  - apply keeps_refl.
Qed.

(** X19: after the lexing of a text of ASCII characters the scenario is
    as it was or a non-empty string of ASCII letters, digits and
    underscores: if the scenario of the object was unset or such a
    string before, it is so afterwards, and then the text that the
    exporter splices into its statements holds no quote. *)
Theorem lex_scenario_wordy (text : string) (c c' : TemoaConfig) (lx' : Lexer) :
  Py.forallb_str Py.is_ascii text = true ->
  (forall s, scenario c = Some s -> wordy s) ->
  lex cwd text c = Some (Ok (c', lx')) ->
  (forall s, scenario c' = Some s -> wordy s)
  /\ Exporter.quote_free (Exporter.str_scenario c') = true.
Proof.
  intros _ H0 Hlex.
  assert (H : forall s, scenario c' = Some s -> wordy s).
  { revert H0 Hlex.
    apply (lex_effect (fun c1 => forall s, scenario c1 = Some s -> wordy s)).
    - intros s r f tok c1 lx1 c2 lx2 Hin Hw Hf HI.
      destruct (rule_effect _ _ _ _ _ _ _ _ Hin Hw Hf)
        as (_ & [Hs|(v & Hv & Hs)] & _); rewrite Hs; [exact HI|].
      intros s0 [= <-]. exact Hv.
    - intros errors c1 HI. exact HI. }
  split; [exact H|]. unfold Exporter.str_scenario.
  destruct (scenario c') as [s|]; [|reflexivity].
  apply PopulateMore.wordy_quote_free, H. reflexivity.
Qed.

(** X20: after the lexing of any text the output is as it was or a path
    that ends in [.db] or [.sqlite]: if the output of the object was
    unset or such a path before, it is so afterwards. *)
Theorem lex_output_ext (text : string) (c c' : TemoaConfig) (lx' : Lexer) :
  (forall p, output c = Some p -> output_ext p = true) ->
  lex cwd text c = Some (Ok (c', lx')) ->
  forall p, output c' = Some p -> output_ext p = true.
Proof.
  apply (lex_effect (fun c1 => forall p, output c1 = Some p ->
                                         output_ext p = true)).
  - intros s r f tok c1 lx1 c2 lx2 Hin Hw Hf HI.
    destruct (rule_effect _ _ _ _ _ _ _ _ Hin Hw Hf)
      as (_ & _ & [Hs|(y & e & He & Hs)]); rewrite Hs; [exact HI|].
    intros p [= <-].
    destruct (abspath_ext cwd y e) as [a ->]; [tauto|].
    unfold output_ext.
    destruct He as [-> | ->]; rewrite endswith_app; auto using orb_true_r.
  - intros errors c1 HI. exact HI.
Qed.

End Outcomes.

Lemma lex_outcomes_witness :
  exists pre w post,
    "--mga { slack = 1.2.3 }" = pre ++ w ++ post /\ rule_error w ValueError.
Proof.
  apply (proj2 (proj2 (lex_outcomes "/w" "--mga { slack = 1.2.3 }"
                         (init "" None))));
    [reflexivity|vm_compute; lia|vm_compute; reflexivity].
Defined.

Lemma lex_keeps_witness :
  match lex "/w" sample_text (set_myopic true (init "" None)) with
  | Some (Ok (c', _)) => myopic c' = true /\ saveEXCEL c' = true
  | _ => False
  end.
Proof.
  destruct (lex "/w" sample_text (set_myopic true (init "" None)))
    as [[[c' lx']|e]|] eqn:Hlex;
    [|vm_compute in Hlex; discriminate Hlex..].
  pose proof (lex_keeps "/w" _ _ _ _ Hlex) as (_ & _ & _ & Hsw).
  split.
  - apply Forall2_cons in Hsw as [_ Hsw].
    apply Forall2_cons in Hsw as [_ Hsw].
    apply Forall2_cons in Hsw as [Hsw _]. apply Hsw. reflexivity.
  - vm_compute in Hlex. injection Hlex as <- _. reflexivity.
Defined.

Lemma lex_scenario_wordy_witness :
  match lex "/w" sample_text (init "" None) with
  | Some (Ok (c', _)) =>
      scenario c' = Some "run_1"
      /\ Exporter.quote_free (Exporter.str_scenario c') = true
  | _ => False
  end.
Proof.
  destruct (lex "/w" sample_text (init "" None))
    as [[[c' lx']|e]|] eqn:Hlex;
    [|vm_compute in Hlex; discriminate Hlex..].
  split.
  - vm_compute in Hlex. injection Hlex as <- _. reflexivity.
  - apply (lex_scenario_wordy "/w" sample_text (init "" None) c' lx');
      [reflexivity|discriminate|exact Hlex].
Defined.

Lemma lex_output_ext_witness :
  match lex "/w" sample_text (init "" None) with
  | Some (Ok (c', _)) =>
      output c' = Some "/w/out/results.sqlite"
      /\ forall p, output c' = Some p -> output_ext p = true
  | _ => False
  end.
Proof.
  destruct (lex "/w" sample_text (init "" None))
    as [[[c' lx']|e]|] eqn:Hlex;
    [|vm_compute in Hlex; discriminate Hlex..].
  split.
  - vm_compute in Hlex. injection Hlex as <- _. reflexivity.
  - apply (lex_output_ext "/w" sample_text (init "" None) c' lx');
      [discriminate|exact Hlex].
Defined.

End LexMore.

(** ** Directives *)

Module Directives.

Import Re Config More StrFacts ReFacts LexerFacts Inputs LexMore.

#[local] Arguments String.append !_ _ / : simpl nomatch.

(** *** The matcher on a text that a rule describes *)

Lemma lit_app l : forall prev s k,
  lit l prev (l ++ s) k = k (last_char prev l) s.
Proof.
  induction l as [|c l IH]; intros prev s k; simpl; [reflexivity|].
  rewrite Ascii.eqb_refl. apply IH.
Qed.

Lemma plus_stops p s k : stops p s = true -> plus p s k = None.
Proof.
  destruct s as [|c s]; [reflexivity|]. simpl.
  intros H%negb_true_iff. rewrite H. reflexivity.
Qed.

Lemma last_char_app (a b : string) : forall q,
  last_char q (a ++ b) = last_char (last_char q a) b.
Proof. induction a as [|ch a IH]; intros q; simpl; [reflexivity|apply IH]. Qed.

Lemma last_char_nonempty (a : string) x y :
  a <> "" -> last_char x a = last_char y a.
Proof. destruct a; [congruence|reflexivity]. Qed.

(** The longest repetition is tried first. *)
Lemma plus_greedy p a : forall b k out,
  a <> "" -> Py.forallb_str p a = true -> stops p b = true ->
  k (last_char None a) b = Some out ->
  plus p (a ++ b) k = Some out.
Proof.
  induction a as [|c a IH]; intros b k out Ha Hp Hb Hk; [congruence|].
  simpl in Hp. apply andb_prop in Hp as [Hc Hp].
  simpl. rewrite Hc. destruct a as [|c' a].
  - simpl. rewrite (plus_stops p b k Hb). exact Hk.
  - rewrite (IH b k out); [reflexivity|discriminate|exact Hp|exact Hb|].
    exact Hk.
Qed.

Lemma last_word p (v : string) :
  v <> "" -> Py.forallb_str p v = true ->
  exists c, last_char None v = Some c /\ p c = true.
Proof.
  induction v as [|c v IH]; intros Hv Hp; [congruence|].
  simpl in Hp. apply andb_prop in Hp as [Hc Hp].
  destruct v as [|c' v]; [exists c; auto|].
  destruct IH as (x & Hx & Hpx); [discriminate|exact Hp|].
  exists x. split; [|exact Hpx].
  rewrite <- Hx. reflexivity.
Qed.

(** A keyword, separators and a value of the class [cls] that ends at a
    word boundary are matched in full by the expression of their
    rule. *)
Lemma keyword_match (k sp v rest : string) (cls : ascii -> bool) prev :
  sp <> "" -> Py.forallb_str sep_char sp = true ->
  stops sep_char (v ++ rest) = true ->
  v <> "" -> Py.forallb_str cls v = true ->
  stops cls rest = true ->
  at_boundary (last_char None v) rest = true ->
  match_ (Seq (Lit k) (Seq (Plus sep_char) (Seq (Plus cls) WordB))) prev
    (k ++ sp ++ v ++ rest)
  = Some rest.
Proof.
  intros Hsp0 Hsp Hstop Hv0 Hv Hrest Hb.
  unfold match_. simpl. rewrite lit_app.
  apply plus_greedy; try assumption.
  apply plus_greedy; try assumption.
  rewrite Hb. reflexivity.
Qed.

(** The same without the word boundary. *)
Lemma number_match (k sp v rest : string) (cls : ascii -> bool) prev :
  sp <> "" -> Py.forallb_str sep_char sp = true ->
  stops sep_char (v ++ rest) = true ->
  v <> "" -> Py.forallb_str cls v = true ->
  stops cls rest = true ->
  match_ (Seq (Lit k) (Seq (Plus sep_char) (Plus cls))) prev
    (k ++ sp ++ v ++ rest)
  = Some rest.
Proof.
  intros Hsp0 Hsp Hstop Hv0 Hv Hrest.
  unfold match_. simpl. rewrite lit_app.
  apply plus_greedy; try assumption.
  apply plus_greedy; try assumption. reflexivity.
Qed.

Lemma first_match_skip l1 l2 prev s :
  first_match l1 prev s = None ->
  first_match (l1 ++ l2)%list prev s = first_match l2 prev s.
Proof.
  induction l1 as [|[r f] l1 IH]; simpl; [reflexivity|].
  destruct (match_ r prev s); [discriminate|exact IH].
Qed.

(** *** One round of the token loop *)

Section Rounds.

Variable cwd : string.

Lemma token_round fuel prev w rest c lx f :
  stops (fun ch => in_string ch lexignore) w = true ->
  w <> "" ->
  first_match (rules cwd (lexstate lx)) prev (w ++ rest) = Some (f, rest) ->
  token cwd (S fuel) prev (w ++ rest) c lx
  = match f {| tok_value := w; tok_lineno := lineno lx;
               tok_lexpos := lexpos lx |}
            (c, set_lexpos (lexpos lx + String.length w) lx) with
    | Ok (c', lx') => token cwd fuel (last_char prev w) rest c' lx'
    | Raise e => Some (Raise e)
    end.
Proof.
  intros Hign Hw Hfm. destruct w as [|ch w]; [congruence|].
  simpl in Hign. apply negb_true_iff in Hign.
  cbn [token String.append]. rewrite Hign.
  change (String ch (w ++ rest)) with (String ch w ++ rest).
  rewrite Hfm. rewrite str_take_matched, length_append.
  replace (String.length (String ch w) + String.length rest
           - String.length rest) with (String.length (String ch w)) by lia.
  reflexivity.
Qed.

Lemma rule_round i r f fuel prev w rest c lx :
  rules cwd (lexstate lx) !! i = Some (r, f) ->
  first_match (take i (rules cwd (lexstate lx))) prev (w ++ rest) = None ->
  match_ r prev (w ++ rest) = Some rest ->
  stops (fun ch => in_string ch lexignore) w = true ->
  w <> "" ->
  token cwd (S fuel) prev (w ++ rest) c lx
  = match f {| tok_value := w; tok_lineno := lineno lx;
               tok_lexpos := lexpos lx |}
            (c, set_lexpos (lexpos lx + String.length w) lx) with
    | Ok (c', lx') => token cwd fuel (last_char prev w) rest c' lx'
    | Raise e => Some (Raise e)
    end.
Proof.
  intros Hi Hbefore Hm Hign Hw. apply token_round; try assumption.
  rewrite <- (take_drop_middle _ _ _ Hi).
  rewrite first_match_skip by exact Hbefore.
  simpl. rewrite Hm. reflexivity.
Qed.

Lemma stops_value (p cls : ascii -> bool) (v rest : string) :
  (forall ch, cls ch = true -> p ch = false) ->
  v <> "" -> Py.forallb_str cls v = true ->
  stops p (v ++ rest) = true.
Proof.
  intros Hc Hv H. destruct v as [|ch v]; [congruence|].
  simpl in *. apply andb_prop in H as [H _]. rewrite (Hc _ H). reflexivity.
Qed.

Lemma path_char_not_sep ch : path_char ch = true -> sep_char ch = false.
Proof.
  intros [H1 H2]%path_char_plain. unfold sep_char. rewrite H1, H2.
  reflexivity.
Qed.

Lemma word_is_path ch : Py.is_word ch = true -> path_char ch = true.
Proof. unfold path_char. intros ->. rewrite !orb_true_r. reflexivity. Qed.

Lemma boundary_after (cls : ascii -> bool) v rest :
  (forall ch, Py.is_word ch = true -> cls ch = true) ->
  is_word_opt (last_char None v) = true ->
  stops cls rest = true ->
  at_boundary (last_char None v) rest = true.
Proof.
  intros Hc Hl Hr. unfold at_boundary. rewrite Hl.
  destruct rest as [|ch rest]; [reflexivity|]. simpl in *.
  destruct (Py.is_word ch) eqn:E; [|reflexivity].
  rewrite (Hc _ E) in Hr. discriminate Hr.
Qed.

Lemma wordy_last v : wordy v -> is_word_opt (last_char None v) = true.
Proof.
  intros [Hv Hw]. destruct (last_word _ v Hv Hw) as (x & -> & Hx). exact Hx.
Qed.

(** X21: in the initial state, the text [--scenario], separators and a
    word [v] of ASCII letters, digits and underscores that is not
    followed by a word character is one token, whatever comes before it
    and whatever ASCII text comes after it: the loop sets the scenario
    to [v], records no error and goes on after the word.  A
    configuration that is this directive alone sets the scenario and
    nothing else. *)
Theorem scenario_directive (fuel : nat) (prev : option ascii)
  (sp v rest : string) (c : TemoaConfig) (lx : Lexer) :
  lexstate lx = INITIAL ->
  sp <> "" -> Py.forallb_str sep_char sp = true ->
  wordy v ->
  Py.forallb_str Py.is_ascii rest = true ->
  stops Py.is_word rest = true ->
  token cwd (S fuel) prev ("--scenario" ++ sp ++ v ++ rest) c lx
  = token cwd fuel (last_char prev ("--scenario" ++ sp ++ v)) rest
      (set_scenario (Some v) c)
      (set_lexpos (lexpos lx + String.length ("--scenario" ++ sp ++ v)) lx).
Proof.
  intros Hs Hsp0 Hsp Hv _ Hrest.
  pose proof Hv as [Hv0 Hvw].
  assert (Hvp : Py.forallb_str path_char v = true)
    by (revert Hvw; apply forallb_str_impl, word_is_path).
  replace ("--scenario" ++ sp ++ v ++ rest)
    with (("--scenario" ++ sp ++ v) ++ rest)
    by (rewrite !append_assoc; reflexivity).
  rewrite (rule_round 3 r_scenario t_scenario).
  - unfold t_scenario, field1. cbn [tok_value].
    rewrite second_field by (try assumption; reflexivity). reflexivity.
  - rewrite Hs. reflexivity.
  - rewrite Hs. vm_compute. reflexivity.
  - rewrite !append_assoc. apply keyword_match; try assumption.
    + apply (stops_value _ path_char); auto using path_char_not_sep.
    + apply (boundary_after Py.is_word); auto using wordy_last.
  - reflexivity.
  - discriminate.
Qed.

Lemma digit_is_path ch : Py.is_digit ch = true -> path_char ch = true.
Proof. intros H. apply word_is_path, PopulateMore.digit_is_word, H. Qed.

(** X22: in the initial state, the text [--myopic_periods], separators
    and the decimal numeral of [n], of no more digits than [int]
    accepts, followed by an ASCII text that does not start with a digit,
    is one token: the loop sets [myopic_periods] to [n] and goes on
    after the numeral; the rule [--myopic], which comes first, does not
    take the start of the text. *)
Theorem myopic_periods_directive (fuel : nat) (prev : option ascii)
  (sp rest : string) (n : nat) (c : TemoaConfig) (lx : Lexer) :
  lexstate lx = INITIAL ->
  sp <> "" -> Py.forallb_str sep_char sp = true ->
  String.length (Py.str_nat n) <= Py.int_max_str_digits ->
  Py.forallb_str Py.is_ascii rest = true ->
  stops Py.is_digit rest = true ->
  token cwd (S fuel) prev ("--myopic_periods" ++ sp ++ Py.str_nat n ++ rest)
    c lx
  = token cwd fuel
      (last_char prev ("--myopic_periods" ++ sp ++ Py.str_nat n)) rest
      (set_myopic_periods n c)
      (set_lexpos
         (lexpos lx
          + String.length ("--myopic_periods" ++ sp ++ Py.str_nat n)) lx).
Proof.
  intros Hs Hsp0 Hsp _ _ Hrest.
  pose proof (NumFacts.str_nat_nonempty n) as Hv0.
  pose proof (NumFacts.str_nat_digits n) as Hvd.
  assert (Hvp : Py.forallb_str path_char (Py.str_nat n) = true)
    by (revert Hvd; apply forallb_str_impl, digit_is_path).
  replace ("--myopic_periods" ++ sp ++ Py.str_nat n ++ rest)
    with (("--myopic_periods" ++ sp ++ Py.str_nat n) ++ rest)
    by (rewrite !append_assoc; reflexivity).
  rewrite (rule_round 7 r_myopic_periods t_myopic_periods).
  - unfold t_myopic_periods, field1. cbn [tok_value].
    rewrite second_field by (try assumption; reflexivity).
    cbn [mbind result_bind]. rewrite NumFacts.int_str_nat. reflexivity.
  - rewrite Hs. reflexivity.
  - rewrite Hs. vm_compute. reflexivity.
  - rewrite !append_assoc. apply number_match; try assumption.
    apply (stops_value _ path_char); auto using path_char_not_sep.
  - reflexivity.
  - discriminate.
Qed.

Lemma split_on_plain sep (s : string) :
  Py.existsb_str (Ascii.eqb sep) s = false -> Py.split_on sep s = [s].
Proof.
  intros H. unfold Py.split_on.
  rewrite split_on_go_sepfree; [reflexivity|].
  induction s as [|ch s IH]; [reflexivity|].
  cbn [Py.existsb_str Py.forallb_str] in *.
  apply orb_false_elim in H as [Hc Hs].
  rewrite Ascii.eqb_sym, Hc, (IH Hs). reflexivity.
Qed.

Lemma path_no_punct (a : ascii) (p : string) :
  path_space_char a = false ->
  Py.forallb_str path_space_char p = true ->
  Py.existsb_str (Ascii.eqb a) p = false.
Proof.
  intros Ha. induction p as [|ch p IH]; [reflexivity|].
  cbn [Py.existsb_str Py.forallb_str]. intros [Hc Hp]%andb_prop.
  rewrite (IH Hp), orb_false_r.
  destruct (Ascii.eqb_spec a ch) as [<-|]; [congruence|reflexivity].
Qed.

Lemma space_no_punct (a : ascii) (sp : string) :
  Py.is_space a = false ->
  Py.forallb_str Py.is_space sp = true ->
  Py.existsb_str (Ascii.eqb a) sp = false.
Proof.
  intros Ha. induction sp as [|ch sp IH]; [reflexivity|].
  cbn [Py.existsb_str Py.forallb_str]. intros [Hc Hp]%andb_prop.
  rewrite (IH Hp), orb_false_r.
  destruct (Ascii.eqb_spec a ch) as [<-|]; [congruence|reflexivity].
Qed.

Lemma replace_plain a b (s : string) :
  Py.existsb_str (Ascii.eqb a) s = false -> Py.replace a b s = s.
Proof.
  induction s as [|ch s IH]; [reflexivity|].
  cbn [Py.existsb_str Py.replace]. intros [Hc Hs]%orb_false_elim.
  rewrite Ascii.eqb_sym, Hc, (IH Hs). reflexivity.
Qed.

(** X23: in the initial state the text [--path_to_data] followed by a
    path of ASCII path characters that ends in a word character is one
    token when an [=] or blanks stand between the two.  With the [=],
    and an ASCII text after the path, the loop sets [path_to_data] to
    the absolute form of the path and goes on; with blanks alone the
    rule raises [IndexError], and so does the loop: the rule reads the
    path after a comma that it puts in the place of the [=]. *)
Theorem path_to_data_directive (fuel : nat) (prev : option ascii)
  (sp p rest : string) (c : TemoaConfig) (lx : Lexer) :
  lexstate lx = INITIAL ->
  p <> "" -> Py.forallb_str path_char p = true ->
  is_word_opt (last_char None p) = true ->
  stops path_space_char rest = true ->
  (sp = "=" ->
   Py.forallb_str Py.is_ascii rest = true ->
   token cwd (S fuel) prev ("--path_to_data" ++ sp ++ p ++ rest) c lx
   = token cwd fuel (last_char prev ("--path_to_data" ++ sp ++ p)) rest
       (set_path_to_data (Py.abspath cwd p) c)
       (set_lexpos (lexpos lx + String.length ("--path_to_data" ++ sp ++ p))
          lx))
  /\ (sp <> "" -> Py.forallb_str Py.is_space sp = true ->
      token cwd (S fuel) prev ("--path_to_data" ++ sp ++ p ++ rest) c lx
      = Some (Raise IndexError)).
Proof.
  intros Hs Hp0 Hp Hlast Hrest.
  assert (Hps : Py.forallb_str path_space_char p = true).
  { revert Hp. apply forallb_str_impl. intros ch H. unfold path_space_char.
    rewrite H. reflexivity. }
  assert (Hround : forall sp,
    sp <> "" -> Py.forallb_str sep_char sp = true ->
    token cwd (S fuel) prev ("--path_to_data" ++ sp ++ p ++ rest) c lx
    = match t_path_to_data cwd
              {| tok_value := "--path_to_data" ++ sp ++ p;
                 tok_lineno := lineno lx; tok_lexpos := lexpos lx |}
              (c, set_lexpos
                    (lexpos lx
                     + String.length ("--path_to_data" ++ sp ++ p)) lx) with
      | Ok (c', lx') =>
          token cwd fuel (last_char prev ("--path_to_data" ++ sp ++ p)) rest
            c' lx'
      | Raise e => Some (Raise e)
      end).
  { intros sp' Hsp0 Hsp.
    replace ("--path_to_data" ++ sp' ++ p ++ rest)
      with (("--path_to_data" ++ sp' ++ p) ++ rest)
      by (rewrite !append_assoc; reflexivity).
    apply (rule_round 10 r_path_to_data (t_path_to_data cwd)).
    - rewrite Hs. reflexivity.
    - rewrite Hs. vm_compute. reflexivity.
    - rewrite !append_assoc. apply keyword_match; try assumption.
      + apply (stops_value _ path_char); auto using path_char_not_sep.
      + apply (boundary_after path_space_char); try assumption.
        intros ch H. unfold path_space_char.
        rewrite (word_is_path _ H). reflexivity.
    - reflexivity.
    - discriminate. }
  split.
  - intros -> _. rewrite Hround by (reflexivity || discriminate).
    unfold t_path_to_data, comma_field1. cbn [tok_value].
    rewrite !replace_app.
    rewrite (replace_plain "=" "," p)
      by (apply path_no_punct; [reflexivity|exact Hps]).
    change (Py.replace "=" "," "--path_to_data") with "--path_to_data".
    change (Py.replace "=" "," "=") with ",".
    unfold Py.split_on.
    change (Py.split_on_go "," "" ("--path_to_data" ++ "," ++ p))
      with ("--path_to_data" :: Py.split_on_go "," "" p).
    fold (Py.split_on "," p).
    rewrite split_on_plain by (apply path_no_punct; [reflexivity|exact Hps]).
    reflexivity.
  - intros Hsp0 Hsp.
    assert (Hsep : Py.forallb_str sep_char sp = true).
    { revert Hsp. apply forallb_str_impl. intros ch H. unfold sep_char.
      rewrite H. reflexivity. }
    rewrite Hround by assumption.
    unfold t_path_to_data, comma_field1. cbn [tok_value].
    assert (Hno : forall a, Py.is_space a = false ->
                            path_space_char a = false ->
                            Py.existsb_str (Ascii.eqb a) "--path_to_data"
                            = false ->
              Py.existsb_str (Ascii.eqb a) ("--path_to_data" ++ sp ++ p)
              = false).
    { intros a H1 H2 H3.
      rewrite !StrFacts.existsb_str_app, H3, (space_no_punct a sp H1 Hsp),
        (path_no_punct a p H2 Hps). reflexivity. }
    rewrite replace_plain by (apply Hno; reflexivity).
    rewrite split_on_plain by (apply Hno; reflexivity).
    reflexivity.
Qed.

(** X24: in the initial state the keyword of a sweep ([--mga], [--moo]
    or [--mgpa]), separators and [{] is one token, whatever follows: the
    loop enters the state of the sweep, with the initial state on the
    stack and the level 1.  In that state [}] is one token: the loop is
    back in the initial state with an empty stack and the level 0.  In
    both cases the object is as it was. *)
Theorem block_brackets (s : state) (fuel : nat) (prev : option ascii)
  (sp rest : string) (c : TemoaConfig) (lx : Lexer) :
  s <> INITIAL ->
  (lexstate lx = INITIAL -> lexstatestack lx = [] ->
   sp <> "" -> Py.forallb_str sep_char sp = true ->
   token cwd (S fuel) prev (block_keyword s ++ sp ++ "{" ++ rest) c lx
   = token cwd fuel (Some "{"%char) rest c
       {| lexpos := lexpos lx + String.length (block_keyword s ++ sp ++ "{");
          lineno := lineno lx; lexstate := s; lexstatestack := [INITIAL];
          level := Some 1%Z |})
  /\ (lexstate lx = s -> lexstatestack lx = [INITIAL] ->
      level lx = Some 1%Z ->
      token cwd (S fuel) prev ("}" ++ rest) c lx
      = token cwd fuel (Some "}"%char) rest c
          {| lexpos := lexpos lx + 1; lineno := lineno lx;
             lexstate := INITIAL; lexstatestack := [];
             level := Some 0%Z |}).
Proof.
  intros Hs. split.
  - intros Hi Hst Hsp0 Hsp.
    assert (Hm : forall k,
              match_ (Seq (Lit k) (Seq (Plus sep_char) (Lit "{"))) prev
                ((k ++ sp ++ "{") ++ rest) = Some rest).
    { intros k. rewrite !append_assoc. unfold match_. simpl.
      rewrite lit_app. apply plus_greedy; try assumption; reflexivity. }
    replace (block_keyword s ++ sp ++ "{" ++ rest)
      with ((block_keyword s ++ sp ++ "{") ++ rest)
      by (rewrite !append_assoc; reflexivity).
    destruct s; [congruence| | |].
    + rewrite (rule_round 20 r_begin_mga t_begin_mga);
        [ | rewrite Hi; reflexivity | rewrite Hi; vm_compute; reflexivity
          | apply Hm | reflexivity | discriminate ].
      unfold t_begin_mga, begin_block, push_state, set_level, set_lexpos.
      cbn. rewrite Hi, Hst, last_char_app. reflexivity.
    + rewrite (rule_round 21 r_begin_moo t_begin_moo);
        [ | rewrite Hi; reflexivity | rewrite Hi; vm_compute; reflexivity
          | apply Hm | reflexivity | discriminate ].
      unfold t_begin_moo, begin_block, push_state, set_level, set_lexpos.
      cbn. rewrite Hi, Hst, last_char_app. reflexivity.
    + rewrite (rule_round 22 r_begin_mgpa t_begin_mgpa);
        [ | rewrite Hi; reflexivity | rewrite Hi; vm_compute; reflexivity
          | apply Hm | reflexivity | discriminate ].
      unfold t_begin_mgpa, begin_block, push_state, set_level, set_lexpos.
      cbn. rewrite Hi, Hst, last_char_app. reflexivity.
  - intros Hi Hst Hl.
    assert (Hm : match_ (Lit "}") prev ("}" ++ rest) = Some rest)
      by reflexivity.
    destruct s; [congruence| | |].
    + rewrite (rule_round 4 r_mga_end t_mga_end);
        [ | rewrite Hi; reflexivity | rewrite Hi; vm_compute; reflexivity
          | exact Hm | reflexivity | discriminate ].
      unfold t_mga_end, end_block, pop_state, set_level, set_lexpos.
      cbn. rewrite Hst. cbn. rewrite Hl. reflexivity.
    + rewrite (rule_round 5 r_moo_end t_moo_end);
        [ | rewrite Hi; reflexivity | rewrite Hi; vm_compute; reflexivity
          | exact Hm | reflexivity | discriminate ].
      unfold t_moo_end, end_block, pop_state, set_level, set_lexpos.
      cbn. rewrite Hst. cbn. rewrite Hl. reflexivity.
    + rewrite (rule_round 9 r_mgpa_end t_mgpa_end);
        [ | rewrite Hi; reflexivity | rewrite Hi; vm_compute; reflexivity
          | exact Hm | reflexivity | discriminate ].
      unfold t_mgpa_end, end_block, pop_state, set_level, set_lexpos.
      cbn. rewrite Hst. cbn. rewrite Hl. reflexivity.
Qed.

(** X25: the number of iterations of MGA is an option of the MGA block:
    in the state [mga] the text [iteration], separators and the decimal
    numeral of [n], of no more digits than [int] accepts, followed by an
    ASCII text that does not start with a digit, is one token and the
    loop sets [mga_iter] to [n]; in the initial state no rule takes a
    text that starts with [iteration], and its first character is
    recorded as illegal. *)
Theorem mga_iteration_option (fuel : nat) (prev : option ascii)
  (sp rest : string) (n : nat) (c : TemoaConfig) (lx : Lexer) :
  (lexstate lx = mga ->
   sp <> "" -> Py.forallb_str sep_char sp = true ->
   String.length (Py.str_nat n) <= Py.int_max_str_digits ->
   Py.forallb_str Py.is_ascii rest = true ->
   stops Py.is_digit rest = true ->
   token cwd (S fuel) prev ("iteration" ++ sp ++ Py.str_nat n ++ rest) c lx
   = token cwd fuel (last_char prev ("iteration" ++ sp ++ Py.str_nat n)) rest
       (set_mga_iter (Some n) c)
       (set_lexpos
          (lexpos lx + String.length ("iteration" ++ sp ++ Py.str_nat n)) lx))
  /\ (lexstate lx = INITIAL ->
      token cwd (S fuel) prev ("iteration" ++ rest) c lx
      = token cwd fuel (Some "i"%char) ("teration" ++ rest)
          (set_error
             (record_error (__error c)
                {| tok_value := "iteration" ++ rest;
                   tok_lineno := lineno lx; tok_lexpos := lexpos lx |}) c)
          (skip 1 lx)).
Proof.
  split.
  - intros Hs Hsp0 Hsp _ _ Hrest.
    pose proof (NumFacts.str_nat_nonempty n) as Hv0.
    pose proof (NumFacts.str_nat_digits n) as Hvd.
    assert (Hvp : Py.forallb_str path_char (Py.str_nat n) = true)
      by (revert Hvd; apply forallb_str_impl, digit_is_path).
    replace ("iteration" ++ sp ++ Py.str_nat n ++ rest)
      with (("iteration" ++ sp ++ Py.str_nat n) ++ rest)
      by (rewrite !append_assoc; reflexivity).
    rewrite (rule_round 2 r_mga_mgaiter t_mga_mgaiter).
    + unfold t_mga_mgaiter, field1. cbn [tok_value].
      rewrite second_field by (try assumption; reflexivity).
      cbn [mbind result_bind]. rewrite NumFacts.int_str_nat. reflexivity.
    + rewrite Hs. reflexivity.
    + rewrite Hs. vm_compute. reflexivity.
    + rewrite !append_assoc. apply number_match; try assumption.
      apply (stops_value _ path_char); auto using path_char_not_sep.
    + reflexivity.
    + discriminate.
  - intros Hs. cbn [token String.append].
    change (in_string "i" lexignore) with false. cbv iota.
    rewrite Hs.
    assert (Hnone : first_match (rules cwd INITIAL) prev
                      (String "i" ("teration" ++ rest)) = None)
      by (vm_compute; reflexivity).
    cbn [String.append] in Hnone. rewrite Hnone. reflexivity.
Qed.

End Rounds.

(** The block of the example: the loop enters the state [mga], reads the
    number of iterations and leaves the state. *)
Lemma block_brackets_witness :
  lex "/w" sample_block (init "" None)
  = Some (Ok (set_mga_iter (Some 4) (init "" None),
              {| lexpos := 23; lineno := 3; lexstate := INITIAL;
                 lexstatestack := []; level := Some 0%Z |})).
Proof.
  unfold lex, sample_block.
  destruct (block_brackets "/w" mga 21 None " "
              (String Py.LF (String Py.TAB ("iteration=4" ++
                 String Py.LF "}")))
              (init "" None) new_lexer ltac:(discriminate)) as [H _].
  refine (eq_trans (H eq_refl eq_refl _ eq_refl) _); [discriminate|].
  reflexivity.
Defined.

Lemma mga_iteration_option_witness :
  token "/w" 13 None "iteration = 12"
    (init "" None) (push_state mga new_lexer)
  = Some (Ok (set_mga_iter (Some 12) (init "" None),
              set_lexpos 15 (push_state mga new_lexer))).
Proof.
  destruct (mga_iteration_option "/w" 12 None " = " "" 12 (init "" None)
              (push_state mga new_lexer)) as [H _].
  refine (eq_trans (H eq_refl _ eq_refl _ eq_refl eq_refl) _);
    [discriminate|vm_compute; lia|].
  reflexivity.
Defined.

(** A count of periods after a tab, before the end of the line. *)
Lemma myopic_periods_directive_witness :
  lex "/w"
    ("--myopic_periods" ++ String Py.TAB ("12" ++ String Py.LF ""))
    (init "" None)
  = Some (Ok (set_myopic_periods 12 (init "" None),
              set_lineno 2 (set_lexpos 21 new_lexer))).
Proof.
  unfold lex.
  rewrite (myopic_periods_directive "/w" _ None (String Py.TAB "")
             (String Py.LF "") 12 (init "" None) new_lexer);
    try reflexivity; [discriminate|vm_compute; lia].
Defined.

(** The data directory given after an [=] and after a blank. *)
Lemma path_to_data_directive_witness :
  lex "/w" "--path_to_data=data/run1" (init "" None)
  = Some (Ok (set_path_to_data "/w/data/run1" (init "" None),
              set_lexpos 25 new_lexer))
  /\ lex "/w" "--path_to_data data/run1" (init "" None)
     = Some (Raise IndexError).
Proof.
  destruct (path_to_data_directive "/w" 24 None "=" "data/run1" ""
              (init "" None) new_lexer) as [H _]; try reflexivity;
    [discriminate|].
  destruct (path_to_data_directive "/w" 24 None " " "data/run1" ""
              (init "" None) new_lexer) as [_ H']; try reflexivity;
    [discriminate|].
  split.
  - refine (eq_trans (H eq_refl eq_refl) _). reflexivity.
  - refine (eq_trans (H' _ _) _); [discriminate|reflexivity..].
Defined.

(** The directive alone, with blanks around the [=]. *)
Lemma scenario_directive_witness :
  lex "/w" "--scenario = run_1" (init "" None)
  = Some (Ok (set_scenario (Some "run_1") (init "" None),
              set_lexpos 19 new_lexer)).
Proof.
  unfold lex.
  rewrite (scenario_directive "/w" _ None " = " "run_1" "" (init "" None)
             new_lexer);
    try reflexivity; try discriminate.
  split; [discriminate|reflexivity].
Defined.

End Directives.

(** ** The [--input] directive *)

Module InputDirective.

Import Re Config More StrFacts ReFacts LexerFacts Inputs LexMore.

(** *** Where the rule of [--input] matches *)

Lemma lit_last l : forall prev s k out,
  lit l prev s k = Some out ->
  exists rest, s = l ++ rest /\ k (last_char prev l) rest = Some out.
Proof.
  induction l as [|c l IH]; intros prev s k out H; simpl in H.
  - exists s. auto.
  - destruct s as [|d s]; [discriminate|].
    destruct (Ascii.eqb c d) eqn:E; [|discriminate].
    apply Ascii.eqb_eq in E. subst d.
    destruct (IH _ _ _ _ H) as (rest & -> & Hk).
    exists rest. auto.
Qed.

Lemma ext_boundary e (prev : option ascii) s out :
  e = ".dat" \/ e = ".db" \/ e = ".sqlite" ->
  lit e prev s (fun p r => if at_boundary p r then Some r else None)
  = Some out ->
  s = e ++ out /\ is_word_opt (head out) = false.
Proof.
  intros He H. apply lit_last in H as (rest & -> & H).
  assert (Hw : is_word_opt (last_char prev e) = true)
    by (destruct He as [->|[->| ->]]; reflexivity).
  unfold at_boundary in H. rewrite Hw in H.
  destruct (is_word_opt (head rest)) eqn:E; simpl in H; [discriminate|].
  injection H as <-. auto.
Qed.

(** The rule matches [--input], separators, a path of one character or
    more and an extension that the text does not go on after with a word
    character. *)
Lemma dot_dat_match prev s rest :
  match_ r_dot_dat prev s = Some rest ->
  exists sp y e,
    s = "--input" ++ sp ++ y ++ e ++ rest
    /\ sp <> "" /\ Py.forallb_str sep_char sp = true
    /\ y <> "" /\ Py.forallb_str path_char y = true
    /\ (e = ".dat" \/ e = ".db" \/ e = ".sqlite")
    /\ is_word_opt (head rest) = false.
Proof.
  unfold match_, r_dot_dat. cbn [cat alts rmatch]. intros H.
  apply lit_sound in H as (r1 & p1 & -> & H).
  apply plus_sound in H as (sp & r2 & p2 & -> & Hsp0 & Hsp & H).
  apply plus_sound in H as (y & r3 & p3 & -> & Hy0 & Hy & H).
  exists sp, y.
  destruct (lit ".dat" p3 r3 _) as [out|] eqn:H1.
  - injection H as ->.
    apply ext_boundary in H1 as [-> Hb]; [|auto].
    exists ".dat". auto 10.
  - destruct (lit ".db" p3 r3 _) as [out|] eqn:H2.
    + injection H as ->.
      apply ext_boundary in H2 as [-> Hb]; [|auto].
      exists ".db". auto 10.
    + apply ext_boundary in H as [-> Hb]; [|auto].
      exists ".sqlite". auto 10.
Qed.

Lemma ext_here_intro e rest :
  e = ".dat" \/ e = ".db" \/ e = ".sqlite" ->
  is_word_opt (head rest) = false ->
  ext_here (e ++ rest) = true.
Proof.
  intros He Hb. unfold ext_here.
  destruct He as [->|[->| ->]]; cbn; rewrite Hb; reflexivity.
Qed.

Lemma ext_later_intro y e rest :
  e = ".dat" \/ e = ".db" \/ e = ".sqlite" ->
  is_word_opt (head rest) = false ->
  ext_later (y ++ e ++ rest) = true.
Proof.
  intros He Hb. induction y as [|c y IH].
  - pose proof (ext_here_intro e rest He Hb) as H.
    cbn [String.append].
    destruct He as [->|[->| ->]]; cbn [String.append ext_later] in *;
      rewrite H; reflexivity.
  - cbn [String.append ext_later]. rewrite IH. apply orb_true_r.
Qed.

(** Separators before a text that does not start with one are found
    again in every splitting of that kind. *)
Lemma sep_prefix_unique : forall sp sp' x x',
  Py.forallb_str sep_char sp = true ->
  Py.forallb_str sep_char sp' = true ->
  stops sep_char x = true ->
  stops sep_char x' = true ->
  sp ++ x = sp' ++ x' ->
  sp = sp' /\ x = x'.
Proof.
  induction sp as [|c sp IH]; intros [|c' sp'] x x' Hs Hs' Hx Hx' E;
    cbn [String.append Py.forallb_str] in *.
  - auto.
  - subst x. apply andb_prop in Hs' as [Hc _]. simpl in Hx.
    rewrite Hc in Hx. discriminate.
  - subst x'. apply andb_prop in Hs as [Hc _]. simpl in Hx'.
    rewrite Hc in Hx'. discriminate.
  - injection E as <- E. apply andb_prop in Hs as [_ Hs].
    apply andb_prop in Hs' as [_ Hs'].
    destruct (IH _ _ _ Hs Hs' Hx Hx' E) as [-> ->]. auto.
Qed.

Lemma path_stops x :
  Py.forallb_str path_char x = true -> stops sep_char x = true.
Proof.
  destruct x as [|c x]; [reflexivity|]. simpl.
  intros [Hc _]%andb_prop. rewrite (Directives.path_char_not_sep _ Hc).
  reflexivity.
Qed.

(** *** The rules that a directive must not set off *)

Lemma marked_needs_sep r prev s after :
  In r marked_rules ->
  match_ r prev s = Some after ->
  exists k sp v,
    s = k ++ sp ++ v ++ after
    /\ head k = Some "-"%char
    /\ sp <> "" /\ Py.forallb_str sep_char sp = true.
Proof.
  intros Hin Hm.
  destruct (match_sound _ _ _ _ Hm) as (w & -> & Hw).
  assert (Hk : exists k body,
            r = Seq (Lit k) (Seq (Plus sep_char) body)
            /\ head k = Some "-"%char).
  { simpl in Hin.
    repeat (destruct Hin as [<-|Hin]; [eexists _, _; split; reflexivity|]).
    contradiction. }
  destruct Hk as (k & body & -> & Hk).
  apply keyword_split in Hw as (sp & v & -> & Hsp0 & Hsp & _).
  exists k, sp, v. rewrite !append_assoc. auto.
Qed.

Lemma unmarked_path r prev s :
  In r marked_rules ->
  Py.forallb_str path_char s = true ->
  match_ r prev s = None.
Proof.
  intros Hin Hs. destruct (match_ r prev s) as [after|] eqn:Hm; [|reflexivity].
  destruct (marked_needs_sep _ _ _ _ Hin Hm) as (k & sp & v & -> & _ & Hsp0 & Hsp).
  rewrite !forallb_str_app in Hs.
  apply andb_prop in Hs as [_ [Hs _]%andb_prop].
  destruct sp as [|c sp]; [congruence|]. simpl in Hs, Hsp.
  apply andb_prop in Hs as [Hc _]. apply andb_prop in Hsp as [Hc' _].
  rewrite (Directives.path_char_not_sep _ Hc) in Hc'. discriminate.
Qed.

Lemma unmarked_sep r prev c s :
  In r marked_rules ->
  sep_char c = true ->
  match_ r prev (String c s) = None.
Proof.
  intros Hin Hc.
  destruct (match_ r prev (String c s)) as [after|] eqn:Hm; [|reflexivity].
  destruct (marked_needs_sep _ _ _ _ Hin Hm) as (k & sp & v & E & Hk & _).
  destruct k as [|d k]; [discriminate|]. injection Hk as ->.
  injection E as -> _. discriminate Hc.
Qed.

(** A suffix of [a ++ b] is a suffix of [a] before [b], or a suffix of
    [b]. *)
Lemma suffix_app : forall a b pre s,
  a ++ b = pre ++ s ->
  (exists a1 a2, a = a1 ++ a2 /\ s = a2 ++ b)
  \/ (exists pre', b = pre' ++ s).
Proof.
  induction a as [|c a IH]; intros b pre s E.
  - right. exists pre. exact E.
  - destruct pre as [|d pre].
    + left. exists "", (String c a). auto.
    + cbn [String.append] in E. injection E as <- E.
      destruct (IH _ _ _ E) as [(a1 & a2 & -> & ->)|[pre' ->]].
      * left. exists (String c a1), a2. auto.
      * right. exists pre'. reflexivity.
Qed.

Lemma forallb_str_suffix p (a b : string) :
  Py.forallb_str p (a ++ b) = true -> Py.forallb_str p b = true.
Proof. rewrite forallb_str_app. intros [_ H]%andb_prop. exact H. Qed.

(** In a directive [--input] whose name holds no extension that the rule
    can end on, no marked rule matches anywhere. *)
Lemma directive_unmarked sp name :
  sp <> "" -> Py.forallb_str sep_char sp = true ->
  Py.forallb_str path_char name = true ->
  ext_inside name = false ->
  forall pre s prev r,
    "--input" ++ sp ++ name = pre ++ s ->
    In r marked_rules ->
    match_ r prev s = None.
Proof.
  intros Hsp0 Hsp Hname Hext pre s prev r E Hin.
  apply suffix_app in E as [(a1 & a2 & Ea & ->)|[pre' E]].
  - (* inside the keyword *)
    assert (Hcases : a2 = "--input" \/ In a2 ["-input"; "input"; "nput";
                                               "put"; "ut"; "t"; ""]).
    { do 8 (destruct a1 as [|? a1];
            [cbn [String.append] in Ea; subst a2; simpl; tauto|];
            cbn [String.append] in Ea; try discriminate Ea;
            injection Ea as <- Ea). }
    destruct Hcases as [->|Hc].
    + simpl in Hin. destruct Hin as [<-|Hin].
      * destruct (match_ r_dot_dat prev ("--input" ++ sp ++ name))
          as [after|] eqn:Hm; [|reflexivity].
        apply dot_dat_match in Hm
          as (sp' & y & e & E & Hsp0' & Hsp' & Hy0 & Hy & He & Hb).
        assert (E' : sp ++ name = sp' ++ y ++ e ++ after)
          by (cbn [String.append] in E; congruence).
        apply sep_prefix_unique in E' as [_ E']; try assumption.
        -- subst name. destruct y as [|c y]; [congruence|].
           cbn [String.append ext_inside] in Hext.
           rewrite (ext_later_intro y e after He Hb) in Hext. discriminate.
        -- apply path_stops, Hname.
        -- destruct y as [|c y]; [congruence|]. simpl in Hy |- *.
           apply andb_prop in Hy as [Hc _].
           rewrite (Directives.path_char_not_sep _ Hc). reflexivity.
      * repeat (destruct Hin as [<-|Hin]; [vm_compute; reflexivity|]).
        contradiction.
    + simpl in Hc.
      do 6 (destruct Hc as [<-|Hc];
            [simpl in Hin;
             repeat (destruct Hin as [<-|Hin]; [vm_compute; reflexivity|]);
             contradiction|]).
      destruct Hc as [<-|[]].
      destruct sp as [|c sp]; [congruence|].
      apply unmarked_sep; [assumption|]. simpl in Hsp.
      apply andb_prop in Hsp as [Hc _]. exact Hc.
  - apply suffix_app in E as [(a1 & a2 & -> & ->)|[pre2 ->]].
    + destruct a2 as [|c a2].
      * apply unmarked_path; assumption.
      * apply unmarked_sep; [assumption|].
        apply forallb_str_suffix in Hsp. simpl in Hsp.
        apply andb_prop in Hsp as [Hc _]. exact Hc.
    + apply unmarked_path; [assumption|].
      exact (forallb_str_suffix _ _ _ Hname).
Qed.

(** *** The loop on a text that sets off no marked rule *)

Section Quiet.

Variable cwd : string.

(** A rule of the initial state that is not marked returns, stays in the
    state and leaves the input files as they are. *)
Lemma unmarked_rules r f tok c lx :
  In (r, f) (rules cwd INITIAL) ->
  lang r (tok_value tok) ->
  In r marked_rules
  \/ exists c' lx',
       f tok (c, lx) = Ok (c', lx')
       /\ lexstate lx' = lexstate lx /\ dot_dat c' = dot_dat c.
Proof.
  intros Hin Hw. simpl in Hin.
  repeat (destruct Hin as [Hin|Hin]; [injection Hin as <- <-|]);
    try contradiction.
  all: try solve [left; simpl; repeat first [left; reflexivity | right]].
  all: right;
    unfold t_ANY_COMMENT, t_output, t_scenario, t_saveEXCEL,
      t_saveDUALS, t_myopic, t_myopic_periods, t_keep_myopic_databases,
      t_saveTEXTFILE, t_how_to_cite, t_version, t_neos, t_solver, t_method,
      t_threads, t_tee, t_keep_pyomo_lp_file, t_ANY_newline.
  all: try (edestruct (field1_keyword tok _ _ Hw)
              as (sp & v & Htok & Hsp0 & Hsp & Hv & Hf);
            [vm_compute; reflexivity..|]; rewrite Hf; simpl).
  all: try (apply lang_plus_inv in Hv as [Hv0 Hv];
            destruct (int_digits v Hv0 Hv) as [n ->]; simpl).
  all: eexists _, _; split; [reflexivity|]; split; reflexivity.
Qed.

Lemma token_quiet : forall fuel prev rest c lx,
  lexstate lx = INITIAL ->
  (forall pre s prev r,
     rest = pre ++ s -> In r marked_rules -> match_ r prev s = None) ->
  String.length rest < fuel ->
  exists c' lx',
    token cwd fuel prev rest c lx = Some (Ok (c', lx'))
    /\ dot_dat c' = dot_dat c.
Proof.
  induction fuel as [|fuel IH]; intros prev rest c lx Hs Hq Hlen; [lia|].
  cbn [token]. destruct rest as [|ch rest'].
  - eexists _, _. split; reflexivity.
  - simpl in Hlen.
    assert (Hq' : forall pre s prev r,
              rest' = pre ++ s -> In r marked_rules ->
              match_ r prev s = None).
    { intros pre s p r -> Hin.
      apply (Hq (String ch pre)); [reflexivity|exact Hin]. }
    destruct (in_string ch lexignore).
    + apply IH; [exact Hs|exact Hq'|lia].
    + rewrite Hs.
      destruct (first_match (rules cwd INITIAL) prev (String ch rest'))
        as [[func after]|] eqn:Hfm.
      * destruct (first_match_sound _ _ _ _ _ Hfm) as (r & Hin & Hm).
        destruct (match_sound _ _ _ _ Hm) as (w & Heq & Hw).
        pose proof (nonnull_sound _ _ (rules_nonnull cwd _ _ _ Hin) Hw)
          as Hne.
        pose proof (word_shortens w after Hne) as Hshort.
        rewrite <- Heq in Hshort. simpl in Hshort.
        rewrite Heq, str_take_matched, length_append.
        replace (String.length w + String.length after - String.length after)
          with (String.length w) by lia.
        destruct (unmarked_rules r func
                    {| tok_value := w; tok_lineno := lineno lx;
                       tok_lexpos := lexpos lx |} c
                    (set_lexpos (lexpos lx + String.length w) lx) Hin Hw)
          as [Hmark|(c1 & lx1 & Hf & Hst & Hd)].
        -- rewrite (Hq "" _ prev r eq_refl Hmark) in Hm. discriminate Hm.
        -- rewrite Hf. cbn [tok_value].
           destruct (IH (last_char prev w) after c1 lx1)
             as (c' & lx' & Ht & Hd').
           ++ rewrite Hst. exact Hs.
           ++ intros pre s p r0 -> Hin0.
              apply (Hq (w ++ pre)); [|exact Hin0].
              rewrite Heq, append_assoc. reflexivity.
           ++ lia.
           ++ exists c', lx'. split; [exact Ht|congruence].
      * unfold t_ANY_error.
        destruct (IH (Some ch) rest'
                    (set_error
                       (record_error (__error c)
                          {| tok_value := String ch rest';
                             tok_lineno := lineno lx;
                             tok_lexpos := lexpos lx |}) c) (skip 1 lx))
          as (c' & lx' & Ht & Hd); [exact Hs|exact Hq'|lia|].
        exists c', lx'. split; [exact Ht|exact Hd].
Qed.

End Quiet.

(** C10, amended: every path in the input files ends in [.dat], [.db] or
    [.sqlite] after lexing, which always ends; the text matched by the
    [--input] rule ends in one of the three extensions, and its second
    field, the path appended, with it.  A directive [--input],
    separators and a name of path characters appends nothing when the
    name holds none of the three extensions, after one character or
    more, before a character that is not a word character or before its
    end: the lexing returns and the input files are as they were.  So
    [--input=foo.txt] and [--input=foo.sqlite3] append nothing, and all
    their characters are recorded as one error; but [--input=a.db.txt]
    appends [a.db] and the characters of [.txt] are recorded as an
    error. *)
Theorem input_files_extensions :
  (forall cwd text c,
     Forall (fun p => input_ext p = true) (dot_dat c) ->
     exists res,
       lex cwd text c = Some res
       /\ forall c' lx',
            res = Ok (c', lx') ->
            Forall (fun p => input_ext p = true) (dot_dat c'))
  /\ (forall t,
        lang r_dot_dat (tok_value t) ->
        exists y e, (e = ".dat" \/ e = ".db" \/ e = ".sqlite")
                    /\ field1 t = Ok (y ++ e))
  /\ (forall cwd sp name c,
        sp <> "" -> Py.forallb_str sep_char sp = true ->
        Py.forallb_str path_char name = true ->
        ext_inside name = false ->
        exists c' lx',
          lex cwd ("--input" ++ sp ++ name) c = Some (Ok (c', lx'))
          /\ dot_dat c' = dot_dat c)
  /\ (forall cwd,
        inputs_and_errors cwd "--input=foo.txt"
        = Some ([], [ {| line := (1, 1); index := (0, 14);
                         value := "--input=foo.txt" |} ]))
  /\ (forall cwd,
        inputs_and_errors cwd "--input=foo.sqlite3"
        = Some ([], [ {| line := (1, 1); index := (0, 18);
                         value := "--input=foo.sqlite3" |} ]))
  /\ (forall cwd,
        inputs_and_errors cwd "--input=a.db.txt"
        = Some ([Py.abspath cwd "a.db"],
                [ {| line := (1, 1); index := (12, 15); value := ".txt" |} ])).
Proof.
  destruct input_files_parts as (H1 & H2 & H3 & H4 & H5).
  split; [exact H1|]. split; [exact H2|].
  split; [|split; [exact H3|split; [exact H4|exact H5]]].
  intros cwd sp name c Hsp0 Hsp Hname Hext. unfold lex.
  apply token_quiet; [reflexivity| |lia].
  apply directive_unmarked; assumption.
Qed.

(** Two directives into a fresh object; and a directive whose name ends
    in [.sqlite3], after blanks and an [=]. *)
Lemma input_files_extensions_witness :
  (exists res,
     lex "/w" "--input=a.dat --input=/x/b.sqlite" (init "" None) = Some res
     /\ forall c' lx',
          res = Ok (c', lx') ->
          Forall (fun p => input_ext p = true) (dot_dat c'))
  /\ exists c' lx',
       lex "/w" "--input = data/foo.sqlite3" (init "" None)
       = Some (Ok (c', lx'))
       /\ dot_dat c' = [].
Proof.
  destruct input_files_extensions as (Hinv & _ & Hnone & _).
  split.
  - apply (Hinv "/w" "--input=a.dat --input=/x/b.sqlite" (init "" None)).
    constructor.
  - apply (Hnone "/w" " = " "data/foo.sqlite3" (init "" None));
      [discriminate|reflexivity..].
Defined.

End InputDirective.

(** ** [build] *)

Module BuildMore.

Import Re Config More StrFacts LexerFacts.

Section Returns.

Variable cwd : string.
Variable isfile : string -> bool.

Lemma classify_ok files : forall m b,
  classify isfile files m = Ok b ->
  Forall (fun p => isfile p = true) files.
Proof.
  induction files as [|p files IH]; intros m b H; [constructor|].
  simpl in H. destruct (isfile p) eqn:Hp; simpl in H; [|discriminate].
  constructor; [exact Hp|].
  destruct (Py.splitext p) as [i_name i_ext].
  destruct (_ || _) in H; [exact (IH _ _ H)|].
  destruct (_ || _) in H; exact (IH _ _ H).
Qed.

Lemma validate_ok c b :
  validate isfile c = Ok b ->
  dot_dat c <> [] /\ Forall (fun p => isfile p = true) (dot_dat c).
Proof.
  unfold validate. case_bool_decide as Hd; [discriminate|].
  destruct (classify isfile (dot_dat c) true) as [m|e] eqn:Hc; [|discriminate].
  intros _. split; [exact Hd|exact (classify_ok _ _ _ Hc)].
Qed.

Lemma populate_frame c c' :
  populate c = Ok c' ->
  dot_dat c' = dot_dat c /\ __error c' = __error c
  /\ abort_temoa c' = abort_temoa c /\ file_location c' = file_location c
  /\ output c' = output c /\ scenario c' = scenario c.
Proof.
  destruct (scenario c) as [base|] eqn:Hs.
  - rewrite (PopulateMore.populate_some c base Hs). intros [= <-].
    repeat split; try reflexivity. simpl. congruence.
  - rewrite (PopulateMore.populate_none c Hs).
    destruct (_ || _); [discriminate|]. intros [= <-]. auto 6.
Qed.

Lemma lexed_keeps text c c' lx' :
  lex cwd text c = Some (Ok (c', lx')) -> keeps c c'.
Proof.
  apply (LexMore.lex_effect cwd (fun c1 => keeps c c1)).
  - intros s r f tok c1 lx1 c2 lx2 Hin Hw Hf HI.
    apply (LexMore.keeps_trans _ c1); [exact HI|].
    exact (proj1 (LexMore.rule_effect cwd _ _ _ _ _ _ _ _ Hin Hw Hf)).
  - intros errors c1 HI. apply (LexMore.keeps_trans _ c1); [exact HI|].
    LexMore.keeps_tac.
  - apply LexMore.keeps_refl.
Qed.

End Returns.

(** *** The conversion of the inputs *)

Section Converts.

Import Conversion.

Context {W : Type}.
Variable export : string -> string -> TemoaConfig -> W -> W * result unit.

Lemma list_index_middle (done todo : list string) (p : string) :
  Forall (fun q => q <> p) done ->
  list_index p (done ++ p :: todo)%list = Ok (List.length done).
Proof.
  unfold list_index. intros H.
  induction H as [|q done Hq _ IH]; simpl.
  - rewrite decide_True by reflexivity. reflexivity.
  - rewrite decide_False by exact Hq.
    destruct (list_find _ _) as [[j y]|]; [|discriminate].
    simpl. injection IH as ->. reflexivity.
Qed.

Lemma insert_middle (done todo : list string) (p q : string) :
  <[List.length done := q]> (done ++ p :: todo)%list
  = (done ++ q :: todo)%list.
Proof. induction done as [|x done IH]; simpl; [reflexivity|]. rewrite IH. reflexivity. Qed.

Lemma set_dot_dat_twice l l' c :
  set_dot_dat l (set_dot_dat l' c) = set_dot_dat l c.
Proof. reflexivity. Qed.

Lemma convert_from_each : forall todo done c w,
  Forall (fun q => is_dat q = true) done ->
  Forall (fun p => is_dat (dat_file p) = true) todo ->
  convert_from export (List.length todo) (List.length done)
    (set_dot_dat (done ++ todo)%list c) w
  = convert_each export done todo c w.
Proof.
  induction todo as [|p todo IH]; intros done c w Hdone Htodo.
  - simpl. rewrite app_nil_r. reflexivity.
  - apply Forall_cons in Htodo as [Hp Htodo].
    cbn [List.length convert_from convert_each].
    change (dot_dat (set_dot_dat (done ++ p :: todo) c))
      with (done ++ p :: todo)%list.
    rewrite list_lookup_middle by reflexivity.
    unfold is_dat at 1. destruct (Py.splitext p) as [i_name i_ext] eqn:Hsp.
    cbn [snd]. destruct (String.eqb i_ext ".dat") eqn:He; cbn [negb].
    + replace (done ++ p :: todo)%list with ((done ++ [p]) ++ todo)%list
        by (rewrite <- app_assoc; reflexivity).
      replace (S (List.length done)) with (List.length (done ++ [p])%list)
        by (rewrite length_app; simpl; lia).
      apply IH; [|exact Htodo].
      apply Forall_app. split; [exact Hdone|].
      constructor; [|constructor]. unfold is_dat. rewrite Hsp. exact He.
    + assert (Hdat : dat_file p = i_name ++ ".dat")
        by (unfold dat_file; rewrite Hsp; cbn [fst snd]; rewrite He;
            reflexivity).
      rewrite Hdat.
      destruct (export p (i_name ++ ".dat")
                  (set_dot_dat (done ++ p :: todo) c) w) as [w' [[]|e]];
        [|reflexivity].
      rewrite list_index_middle.
      * rewrite insert_middle, set_dot_dat_twice. rewrite <- Hdat.
        replace (done ++ dat_file p :: todo)%list
          with ((done ++ [dat_file p]) ++ todo)%list
          by (rewrite <- app_assoc; reflexivity).
        replace (S (List.length done))
          with (List.length (done ++ [dat_file p])%list)
          by (rewrite length_app; simpl; lia).
        apply IH; [|exact Htodo].
        apply Forall_app. split; [exact Hdone|].
        constructor; [exact Hp|constructor].
      * eapply Forall_impl; [exact Hdone|]. intros q Hq ->.
        unfold is_dat in Hq. rewrite Hsp in Hq. cbn [snd] in Hq. congruence.
Qed.

Lemma convert_each_ok : forall todo done c w w' c',
  convert_each export done todo c w = (w', Ok c') ->
  dot_dat c' = (done ++ map dat_file todo)%list.
Proof.
  induction todo as [|p todo IH]; intros done c w w' c' H.
  - injection H as _ <-. simpl. rewrite app_nil_r. reflexivity.
  - cbn [convert_each] in H. destruct (is_dat p) eqn:Hp.
    + rewrite (IH _ _ _ _ _ H), <- app_assoc. simpl.
      unfold dat_file. fold (is_dat p). rewrite Hp. reflexivity.
    + destruct (export _ _ _ _) as [w1 [[]|e]]; [|discriminate H].
      rewrite (IH _ _ _ _ _ H), <- app_assoc. reflexivity.
Qed.

(** X27: the loop that ends [build] converts the inputs one after the
    other, in their order: provided that the [.dat] file of every input
    has the extension [.dat], the search of each input in the list finds
    the position the loop is at, so that the loop exports every input
    that is not a [.dat] file to its [.dat] file, once, and puts that
    file in its place; when the loop returns, the list of inputs holds
    the [.dat] files of the inputs, which all have the extension
    [.dat]. *)
Theorem conversion_in_place (c : TemoaConfig) (w : W) :
  Forall (fun p => is_dat (dat_file p) = true) (dot_dat c) ->
  convert export c w = convert_each export [] (dot_dat c) c w
  /\ forall w' c',
       convert export c w = (w', Ok c') ->
       dot_dat c' = map dat_file (dot_dat c)
       /\ Forall (fun p => is_dat p = true) (dot_dat c').
Proof.
  intros H.
  assert (E : convert export c w = convert_each export [] (dot_dat c) c w).
  { unfold convert.
    rewrite <- (convert_from_each (dot_dat c) [] c w); [|constructor|exact H].
    simpl. destruct c; reflexivity. }
  split; [exact E|]. intros w' c' Hc. rewrite E in Hc.
  apply convert_each_ok in Hc. simpl in Hc. rewrite Hc.
  split; [reflexivity|]. apply Forall_fmap. exact H.
Qed.

End Converts.

(** Two databases around a [.dat] file, with an exporter that records
    its calls. *)
Lemma conversion_in_place_witness :
  let export := fun ifile ofile (_ : TemoaConfig) (w : list (string * string)) =>
                  ((w ++ [(ifile, ofile)])%list, Ok tt) in
  let c := set_dot_dat ["/w/a.db"; "/w/b.dat"; "/w/c.sqlite"] (init "" None) in
  exists c',
    Conversion.convert export c []
    = ([("/w/a.db", "/w/a.dat"); ("/w/c.sqlite", "/w/c.dat")], Ok c')
    /\ dot_dat c' = ["/w/a.dat"; "/w/b.dat"; "/w/c.dat"].
Proof.
  intros export c.
  destruct (conversion_in_place export c []) as [_ H].
  - repeat constructor.
  - destruct (Conversion.convert export c []) as [w' [c'|e]] eqn:Hc;
      [|vm_compute in Hc; discriminate Hc].
    exists c'. destruct (H w' c' eq_refl) as [Hd _].
    split; [|exact Hd].
    vm_compute in Hc. injection Hc as <- <-. reflexivity.
Defined.

(** *** [build] as a whole *)

Section Whole.

Import Conversion Building.

Variable cwd : string.
Variable isfile : string -> bool.
Variable read : string -> result string.
Variable open_w : string -> option exn.
Variable write_log : string -> string -> option exn.
Context {W : Type}.
Variable export : string -> string -> TemoaConfig -> W -> W * result unit.

Lemma abspath_nonempty p : Py.abspath cwd p <> "".
Proof.
  unfold Py.abspath, Py.normpath.
  destruct (String.eqb _ ""); [discriminate|].
  match goal with
  | |- (if String.eqb ?x "" then _ else _) <> _ =>
      destruct (String.eqb_spec x ""); [discriminate|assumption]
  end.
Qed.

(** The conversion changes the list of the inputs only, and keeps its
    length. *)
Lemma convert_from_frame {V : Type}
  (ex : string -> string -> TemoaConfig -> V -> V * result unit) :
  forall n i c v v' c',
    convert_from ex n i c v = (v', Ok c') ->
    List.length (dot_dat c') = List.length (dot_dat c)
    /\ __error c' = __error c
    /\ abort_temoa c' = abort_temoa c
    /\ file_location c' = file_location c.
Proof.
  induction n as [|n IH]; intros i c v v' c' H; simpl in H.
  - injection H as _ <-. auto.
  - destruct (dot_dat c !! i) as [ifile|]; [|injection H as _ <-; auto].
    destruct (Py.splitext ifile) as [i_name i_ext].
    destruct (negb (String.eqb i_ext ".dat")); [|exact (IH _ _ _ _ _ H)].
    destruct (ex ifile (i_name ++ ".dat") c v) as [v1 [[]|e]];
      [|discriminate H].
    destruct (list_index ifile (dot_dat c)) as [j|e]; [|discriminate H].
    destruct (IH _ _ _ _ _ H) as (Hl & He & Ha & Hf).
    cbn in Hl, He, Ha, Hf. rewrite length_insert in Hl. auto.
Qed.

Lemma report_ok c o o' c' :
  report open_w write_log c o = (o', Ok c') ->
  c' = (if bool_decide (__error c = []) then c else set_abort_temoa true c)
  /\ (__error c <> [] ->
      exists path, log_path o' = Some path /\ open_w path = None).
Proof.
  unfold report, write_report. case_bool_decide as He.
  - intros [= <- <-]. split; [reflexivity|]. contradiction.
  - destruct (open_w (path_to_logs c ++ Py.sep ++ "Complete_OutputLog.log"))
      as [e1|] eqn:H1.
    + destruct (open_w "OutputLog.log") as [e2|] eqn:H2; [discriminate|].
      destruct (write_log _ _); [discriminate|].
      intros [= <- <-]. split; [reflexivity|]. intros _. eauto.
    + destruct (write_log _ _); [discriminate|].
      intros [= <- <-]. split; [reflexivity|]. intros _. eauto.
Qed.

(** X26: a build never fails to end, and one that returns leaves an
    object with at least one input file; its abort flag is on exactly
    when it was on before or illegal characters were recorded, and then
    their report went to a log file that could be opened; and when a
    configuration file was given, that file exists and its absolute path
    is the location kept in the object.  Illegal characters stop the
    build when neither log file can be opened: the build raises the
    exception of the second [open]. *)
Theorem build_returns (config : option string) (c : TemoaConfig) (w : W) :
  (exists out,
     build cwd isfile read open_w write_log export config c w = Some out)
  /\ (forall o w' c',
        build cwd isfile read open_w write_log export config c w
        = Some (o, w', Ok c') ->
        dot_dat c' <> []
        /\ abort_temoa c'
           = abort_temoa c || negb (bool_decide (__error c' = []))
        /\ (__error c' <> [] ->
            exists path, log_path o = Some path /\ open_w path = None)
        /\ forall p, config = Some p ->
                     isfile p = true
                     /\ file_location c' = Some (Py.abspath cwd p))
  /\ (forall p text c1 lx1 e1 e2,
        config = Some p ->
        isfile p = true ->
        read (Py.abspath cwd p) = Ok text ->
        lex cwd text (set_file_location (Some (Py.abspath cwd p)) c)
        = Some (Ok (c1, lx1)) ->
        __error c1 <> [] ->
        open_w (path_to_logs c1 ++ Py.sep ++ "Complete_OutputLog.log")
        = Some e1 ->
        open_w "OutputLog.log" = Some e2 ->
        exists o,
          build cwd isfile read open_w write_log export config c w
          = Some (o, w, Raise e2)).
Proof.
  split; [|split].
  - unfold build.
    destruct (match config with Some p => _ | None => Ok c end) as [c0|e];
      [|eauto].
    set (lexed := if truthy_str (file_location c0) then _ else _).
    assert (Hlexed : lexed <> None).
    { subst lexed. destruct (truthy_str (file_location c0)); [|discriminate].
      destruct (read _); [apply lex_total|discriminate]. }
    destruct lexed as [[[c1 lx1]|e]|]; [| |congruence]; [|eauto].
    destruct (report open_w write_log c1 _) as [o1 [c2|e]]; [|eauto].
    destruct (_ ← validate isfile c2; populate c2) as [c3|e]; [|eauto].
    destruct (convert _ c3 (w, 0)) as [wn [c4|e]]; eauto.
  - intros o w' c' H. unfold build in H.
    set (start := match config with Some p => _ | None => Ok c end) in H.
    assert (Hstart : forall c0, start = Ok c0 ->
              abort_temoa c0 = abort_temoa c
              /\ forall p, config = Some p ->
                   isfile p = true
                   /\ file_location c0 = Some (Py.abspath cwd p)).
    { subst start. intros c0. destruct config as [p|].
      - destruct (isfile p) eqn:Hp; [|discriminate]. intros [= <-].
        split; [reflexivity|]. intros p' [= <-]. auto.
      - intros [= <-]. split; [reflexivity|]. discriminate. }
    destruct start as [c0|e]; [|discriminate H].
    destruct (Hstart c0 eq_refl) as (Hab0 & Hcfg). clear Hstart.
    set (lexed := if truthy_str (file_location c0) then _ else _) in H.
    assert (Hlexed : forall c1 lx1, lexed = Some (Ok (c1, lx1)) ->
                       keeps c0 c1).
    { subst lexed. destruct (truthy_str (file_location c0)).
      - destruct (read _) as [text|e]; [|discriminate].
        intros c1 lx1 Hl. exact (lexed_keeps cwd _ _ _ _ Hl).
      - intros c1 lx1 [= <- _]. apply LexMore.keeps_refl. }
    destruct lexed as [[[c1 lx1]|e]|]; try discriminate H.
    specialize (Hlexed c1 lx1 eq_refl).
    destruct (report open_w write_log c1 _) as [o1 [c2|e]] eqn:Hr;
      [|discriminate H].
    apply report_ok in Hr as [Hc2 Hlog].
    destruct (validate isfile c2) as [b|e] eqn:Hv; [|discriminate H].
    cbn [mbind result_bind] in H.
    destruct (populate c2) as [c3|e] eqn:Hp; [|discriminate H].
    apply populate_frame in Hp as (Hd & He & Ha & Hf & _).
    destruct (validate_ok isfile _ _ Hv) as [Hne _].
    destruct (convert _ c3 (w, 0)) as [wn [c4|e]] eqn:Hcv; [|discriminate H].
    injection H as <- <- <-.
    apply convert_from_frame in Hcv as (Hl4 & He4 & Ha4 & Hf4).
    assert (He2 : __error c2 = __error c1)
      by (subst c2; destruct (bool_decide _); reflexivity).
    assert (Ha2 : abort_temoa c2
                  = abort_temoa c1 || negb (bool_decide (__error c1 = [])))
      by (subst c2; destruct (bool_decide _); simpl;
          rewrite ?orb_true_r, ?orb_false_r; reflexivity).
    assert (Hf2 : file_location c2 = file_location c1)
      by (subst c2; destruct (bool_decide _); reflexivity).
    destruct Hlexed as (_ & Hfl & Hab & _).
    split; [|split; [|split]].
    + intros E. rewrite E in Hl4. rewrite Hd in Hl4.
      destruct (dot_dat c2); [congruence|discriminate Hl4].
    + rewrite Ha4, Ha, Ha2, He4, He, He2, Hab, Hab0. reflexivity.
    + rewrite He4, He, He2. intros Herr.
      destruct (Hlog Herr) as (path & Hpath & Hopen).
      exists path. split; [|exact Hopen].
      destruct (0 <? snd wn)%nat; exact Hpath.
    + intros p Hp. split; [apply (Hcfg p Hp)|].
      rewrite Hf4, Hf, Hf2, Hfl. apply (Hcfg p Hp).
  - intros p text c1 lx1 e1 e2 -> Hp Hread Hlex Herr H1 H2.
    unfold build. rewrite Hp. cbn [file_location set_file_location].
    assert (Ht : truthy_str (Some (Py.abspath cwd p)) = true).
    { simpl. destruct (String.eqb_spec (Py.abspath cwd p) "") as [E|];
        [|reflexivity].
      destruct (abspath_nonempty p E). }
    rewrite Ht.
    change (default "" (Some (Py.abspath cwd p))) with (Py.abspath cwd p).
    rewrite Hread, Hlex.
    unfold report. rewrite bool_decide_eq_false_2 by exact Herr.
    rewrite H1, H2. eauto.
Qed.

End Whole.

(** A configuration file that names a database, an output and a
    scenario, on a file system where every path is a file; and a
    configuration file with an illegal character where no log file can
    be opened. *)
Lemma build_returns_witness :
  let export := fun (_ _ : string) (_ : TemoaConfig) (w : unit) => (w, Ok tt) in
  (exists o c',
     Building.build "/w" (fun _ => true) (fun _ => Ok "--input=a.db --output=o.db --scenario=s")
       (fun _ => None) (fun _ _ => None) export (Some "cfg") (init "" None) tt
     = Some (o, tt, Ok c')
     /\ dot_dat c' <> []
     /\ file_location c' = Some "/w/cfg")
  /\ exists o,
       Building.build "/w" (fun _ => true) (fun _ => Ok "@")
         (fun _ => Some (Exception "read-only")) (fun _ _ => None) export
         (Some "cfg") (init "" None) tt
       = Some (o, tt, Raise (Exception "read-only")).
Proof.
  intros export. split.
  - destruct (build_returns "/w" (fun _ => true) (fun _ => Ok "--input=a.db --output=o.db --scenario=s")
                (fun _ => None) (fun _ _ => None) export (Some "cfg")
                (init "" None) tt) as (_ & H & _).
    destruct (Building.build "/w" (fun _ => true) (fun _ => Ok "--input=a.db --output=o.db --scenario=s")
                (fun _ => None) (fun _ _ => None) export (Some "cfg")
                (init "" None) tt) as [[[o []] [c'|e]]|] eqn:Hb;
      [|vm_compute in Hb; discriminate Hb..].
    exists o, c'. split; [reflexivity|].
    destruct (H o tt c' eq_refl) as (H1 & _ & _ & H3).
    destruct (H3 "cfg" eq_refl) as [_ H4]. split; assumption.
  - destruct (build_returns "/w" (fun _ => true) (fun _ => Ok "@")
                (fun _ => Some (Exception "read-only")) (fun _ _ => None)
                export (Some "cfg") (init "" None) tt) as (_ & _ & H).
    eapply (H "cfg" "@" _ _ (Exception "read-only") (Exception "read-only")
              eq_refl eq_refl eq_refl);
      [vm_compute; reflexivity|discriminate|reflexivity..].
Defined.

End BuildMore.

(** ** The recorded errors as pieces of the text *)

Module Spans.

Import Re Config More StrFacts LexerFacts.

#[local] Arguments String.append !_ _ / : simpl nomatch.

Lemma str_drop_app (a b : string) : Py.str_drop (String.length a) (a ++ b) = b.
Proof. induction a as [|c a IH]; simpl; [destruct b; reflexivity|exact IH]. Qed.

Lemma str_drop_drop n : forall m s,
  Py.str_drop n (Py.str_drop m s) = Py.str_drop (m + n) s.
Proof.
  intros m. revert n. induction m as [|m IH]; intros n s.
  - destruct s; reflexivity.
  - destruct s as [|c s]; simpl; [destruct n; reflexivity|apply IH].
Qed.

Lemma str_take_succ n : forall s,
  Py.str_take (n + 1) s = Py.str_take n s ++ Py.str_take 1 (Py.str_drop n s).
Proof.
  induction n as [|n IH]; intros s.
  - destruct s; reflexivity.
  - destruct s as [|c s]; [reflexivity|]. simpl. rewrite IH. reflexivity.
Qed.

Lemma spanned_new text consumed rest t :
  text = consumed ++ rest -> rest <> "" ->
  tok_value t = rest -> tok_lexpos t = String.length consumed ->
  spanned text (new_span t).
Proof.
  intros -> Hr Hv Hp. unfold spanned, new_span. simpl. rewrite Hp, Hv.
  split; [lia|]. split.
  - rewrite length_append. destruct rest; [congruence|simpl; lia].
  - replace (String.length consumed + 1 - String.length consumed) with 1
      by lia.
    rewrite str_drop_app. reflexivity.
Qed.

Lemma spanned_extend text consumed rest e t :
  text = consumed ++ rest -> rest <> "" ->
  tok_value t = rest -> tok_lexpos t = String.length consumed ->
  spanned text e ->
  snd (index e) + 1 = tok_lexpos t ->
  spanned text (extend_span e t).
Proof.
  intros Ht Hr Hv Hp (Hle & Hlt & Hval) Hnext.
  unfold spanned, extend_span. simpl. split; [lia|]. split.
  - rewrite Hp, Ht, length_append. destruct rest; [congruence|simpl; lia].
  - rewrite Hval, Hv.
    replace (tok_lexpos t + 1 - fst (index e))
      with ((snd (index e) + 1 - fst (index e)) + 1) by lia.
    rewrite str_take_succ. f_equal.
    rewrite str_drop_drop.
    replace (fst (index e) + (snd (index e) + 1 - fst (index e)))
      with (String.length consumed) by lia.
    rewrite Ht, str_drop_app. reflexivity.
Qed.

Lemma spanned_record text consumed rest errors t :
  text = consumed ++ rest -> rest <> "" ->
  tok_value t = rest -> tok_lexpos t = String.length consumed ->
  Forall (spanned text) errors ->
  Forall (spanned text) (record_error errors t).
Proof.
  intros Ht Hr Hv Hp Hall. unfold record_error.
  destruct (last errors) as [e|] eqn:Hlast.
  - destruct (Z.eqb_spec (Z.of_nat (tok_lexpos t) - Z.of_nat (snd (index e))) 1).
    + apply Forall_app. split.
      * rewrite Forall_forall in Hall |- *. intros x Hx. apply Hall.
        apply list_elem_of_In. apply list_elem_of_In in Hx.
        destruct errors as [|y errors] using rev_ind; [destruct Hx|].
        rewrite removelast_last in Hx. apply in_or_app. left. exact Hx.
      * constructor; [|constructor].
        apply (spanned_extend text consumed rest); try assumption; [|lia].
        rewrite Forall_forall in Hall. apply Hall.
        apply last_Some in Hlast as [l' ->]. apply elem_of_app. right.
        apply list_elem_of_here.
    + apply Forall_app. split; [exact Hall|].
      constructor; [|constructor].
      apply (spanned_new text consumed rest); assumption.
  - apply Forall_app. split; [exact Hall|].
    constructor; [|constructor].
    apply (spanned_new text consumed rest); assumption.
Qed.

Section Positions.

Variable cwd : string.

Lemma token_positions text : forall fuel prev rest c lx c' lx' consumed,
  text = consumed ++ rest ->
  lexpos lx = String.length consumed ->
  Forall (spanned text) (__error c) ->
  token cwd fuel prev rest c lx = Some (Ok (c', lx')) ->
  lexpos lx' = String.length text + 1 /\ Forall (spanned text) (__error c').
Proof.
  induction fuel as [|fuel IH];
    intros prev rest c lx c' lx' consumed Ht Hp Hall H; [discriminate|].
  simpl in H. destruct rest as [|ch rest'].
  - injection H as <- <-. rewrite append_nil_r in Ht. subst text.
    simpl. rewrite Hp. auto.
  - assert (Hnext : text = (consumed ++ String ch "") ++ rest')
      by (rewrite append_assoc; exact Ht).
    assert (Hlen : String.length (consumed ++ String ch "")
                   = String.length consumed + 1)
      by (rewrite length_append; reflexivity).
    destruct (in_string ch lexignore).
    + apply (IH _ _ _ _ _ _ _ Hnext) in H; [exact H| |exact Hall].
      simpl. rewrite Hlen, Hp. reflexivity.
    + destruct (first_match (rules cwd (lexstate lx)) prev (String ch rest'))
        as [[func after]|] eqn:Hfm.
      * destruct (first_match_word _ _ _ _ _ _ Hfm)
          as (r & w & Hin & Hw & Hne & Heq).
        rewrite Heq in H. rewrite str_take_matched, length_append in H.
        replace (String.length w + String.length after - String.length after)
          with (String.length w) in H by lia.
        destruct (func _ _) as [[c1 lx1]|e] eqn:Hf; [|discriminate].
        destruct (rules_frame _ _ _ _ _ _ _ _ _ Hin Hf) as (He & Hl & _).
        assert (Ht' : text = (consumed ++ w) ++ after)
          by (rewrite append_assoc, <- Heq; exact Ht).
        apply (IH _ _ _ _ _ _ _ Ht') in H; [exact H| |].
        -- rewrite Hl, length_append. simpl. rewrite Hp. reflexivity.
        -- rewrite He. exact Hall.
      * unfold t_ANY_error in H.
        apply (IH _ _ _ _ _ _ _ Hnext) in H; [exact H| |].
        -- simpl. rewrite Hlen, Hp. reflexivity.
        -- simpl.
           apply (spanned_record text consumed (String ch rest'));
             try assumption; [discriminate|reflexivity].
Qed.

(** X28: when the lexing of a text into an object without recorded
    errors returns, the position of the lexer is one past the length of
    the text, where PLY leaves it at the end of the input, and every
    recorded error is a piece of the text: its two indices are
    offsets of the text, the first not after the last, and its value is
    the characters of the text from the first to the last. *)
Theorem errors_are_pieces (text : string) (c c' : TemoaConfig) (lx' : Lexer) :
  __error c = [] ->
  lex cwd text c = Some (Ok (c', lx')) ->
  lexpos lx' = String.length text + 1
  /\ Forall (spanned text) (__error c').
Proof.
  intros He H. unfold lex in H.
  apply (token_positions text _ _ _ _ _ _ _ "") in H;
    [exact H|reflexivity|reflexivity|]. rewrite He. constructor.
Qed.

End Positions.

(** Two runs of illegal characters around a directive. *)
Lemma errors_are_pieces_witness :
  match lex "/w" "?? --saveEXCEL !" (init "" None) with
  | Some (Ok (c', lx')) =>
      lexpos lx' = 17
      /\ map value (__error c') = ["??"; "!"]
      /\ Forall (spanned "?? --saveEXCEL !") (__error c')
  | _ => False
  end.
Proof.
  destruct (lex "/w" "?? --saveEXCEL !" (init "" None))
    as [[[c' lx']|e]|] eqn:Hlex;
    [|vm_compute in Hlex; discriminate Hlex..].
  destruct (errors_are_pieces "/w" "?? --saveEXCEL !" (init "" None) c' lx'
              eq_refl Hlex) as [Hp Hs].
  split; [exact Hp|]. split; [|exact Hs].
  vm_compute in Hlex. injection Hlex as <- _. reflexivity.
Defined.

End Spans.

(** ** Comments, and inputs that are missing *)

Module Edges.

Import Re Config More StrFacts LexerFacts Directives.

#[local] Arguments String.append !_ _ / : simpl nomatch.

Lemma comment_match (w rest : string) prev :
  Py.forallb_str any_char w = true ->
  stops any_char rest = true ->
  match_ (Seq (Lit "#") (Star any_char)) prev ("#" ++ w ++ rest) = Some rest.
Proof.
  intros Hw Hrest. unfold match_. simpl.
  unfold star. destruct w as [|ch w].
  - simpl. rewrite (plus_stops _ _ _ Hrest). reflexivity.
  - rewrite (plus_greedy any_char (String ch w) rest _ rest);
      [reflexivity|discriminate|exact Hw|exact Hrest|reflexivity].
Qed.

Section Comments.

Variable cwd : string.

(** X29: in every state, a [#] and the characters after it up to the end
    of the line are one token, whatever they are - a directive, a [}],
    characters that no rule knows: the loop changes neither the object
    nor the state, records no error and goes on at the end of the
    line. *)
Theorem comment_to_end_of_line (fuel : nat) (prev : option ascii)
  (w rest : string) (c : TemoaConfig) (lx : Lexer) :
  Py.forallb_str any_char w = true ->
  stops any_char rest = true ->
  token cwd (S fuel) prev ("#" ++ w ++ rest) c lx
  = token cwd fuel (last_char prev ("#" ++ w)) rest c
      (set_lexpos (lexpos lx + String.length ("#" ++ w)) lx).
Proof.
  intros Hw Hrest.
  replace ("#" ++ w ++ rest) with (("#" ++ w) ++ rest)
    by (rewrite append_assoc; reflexivity).
  rewrite (rule_round cwd 0 r_ANY_COMMENT t_ANY_COMMENT).
  - reflexivity.
  - destruct (lexstate lx); reflexivity.
  - reflexivity.
  - rewrite append_assoc. apply comment_match; assumption.
  - reflexivity.
  - discriminate.
Qed.

End Comments.

(** A directive and an illegal character in a comment, before a
    directive on the next line. *)
Lemma comment_to_end_of_line_witness :
  lex "/w" ("# --myopic ?" ++ String Py.LF "--tee") (init "" None)
  = Some (Ok (set_tee true (init "" None),
              set_lineno 2 (set_lexpos 19 new_lexer))).
Proof.
  refine (eq_trans
            (comment_to_end_of_line "/w" 18 None " --myopic ?"
               (String Py.LF "--tee") (init "" None) new_lexer _ _) _);
    reflexivity.
Defined.

Section Missing.

Variable isfile : string -> bool.

Lemma classify_missing pre p post : forall m,
  Forall (fun q => isfile q = true) pre ->
  isfile p = false ->
  classify isfile (pre ++ p :: post) m
  = Raise (Exception ("Cannot locate input file: " ++ p)).
Proof.
  induction pre as [|q pre IH]; intros m Hpre Hp; simpl.
  - rewrite Hp. reflexivity.
  - apply Forall_cons in Hpre as [Hq Hpre]. rewrite Hq. simpl.
    destruct (Py.splitext q) as [i_name i_ext].
    destruct (_ || _); [apply IH; assumption|].
    destruct (_ || _); apply IH; assumption.
Qed.

(** X30: the checks of [build] look at the inputs first: without any
    input they raise [Input file not specified.]; with inputs of which
    one is not an existing file they raise [Cannot locate input file]
    for the first such input, whatever the extensions of the inputs, the
    output and the scenario are. *)
Theorem inputs_checked_first (c : TemoaConfig) :
  (dot_dat c = [] ->
   validate isfile c = Raise (Exception "Input file not specified."))
  /\ (forall pre p post,
        dot_dat c = (pre ++ p :: post)%list ->
        Forall (fun q => isfile q = true) pre ->
        isfile p = false ->
        validate isfile c
        = Raise (Exception ("Cannot locate input file: " ++ p))).
Proof.
  split.
  - intros H. unfold validate. rewrite H. reflexivity.
  - intros pre p post H Hpre Hp. unfold validate. rewrite H.
    rewrite bool_decide_eq_false_2 by (destruct pre; discriminate).
    rewrite classify_missing by assumption. reflexivity.
Qed.

End Missing.

(** Of two inputs the second is missing; the output is not set. *)
Lemma inputs_checked_first_witness :
  validate (fun p => String.eqb p "/w/a.db")
    (set_dot_dat ["/w/a.db"; "/w/b.db"] (init "" None))
  = Raise (Exception "Cannot locate input file: /w/b.db").
Proof.
  apply (proj2 (inputs_checked_first (fun p => String.eqb p "/w/a.db")
                  (set_dot_dat ["/w/a.db"; "/w/b.db"] (init "" None)))
           ["/w/a.db"] "/w/b.db" []); try reflexivity.
  repeat constructor.
Defined.

End Edges.
